(** * Refy: the metadata-reconciliation pipeline, embedded in Rocq

    A shallow embedding of [src/utils/doiLookup.js], [src/utils/pdfMetadata.js]
    (with the academic-search and journal-ranking modules it bundles) and
    [src/utils/cerebrasService.js], followed by the properties of the
    specification that concern them.

    Conventions.
    - A JavaScript string is the list of its UTF-16 code units ([list N]).
    - A regular-expression literal is a term of [regex]; matching is the
      backtracking search of ECMAScript, written as a list of successes in
      priority order, so that the first element is the match JavaScript
      reports.
    - Network access and the clock are an explicit environment; the requests a
      computation issues are recorded in a log threaded through it.
    - A thrown exception is the [Throw] completion of a computation. *)

From Stdlib Require Import String Ascii DecimalString Bool Arith ZArith NArith QArith Lia List.
Import ListNotations.

Close Scope Q_scope.
Set Implicit Arguments.

(* ================================================================== *)
(** * JavaScript strings *)
(* ================================================================== *)

Module Js.

Definition js_string := list N.

(** A source literal, as code units. *)
Definition lit (s : string) : js_string :=
  List.map N_of_ascii (list_ascii_of_string s).

Fixpoint str_eqb (a b : js_string) : bool :=
  match a, b with
  | [], [] => true
  | x :: a', y :: b' => N.eqb x y && str_eqb a' b'
  | _, _ => false
  end.

(** Truthiness of a string: [!s] holds exactly for the empty string. *)
Definition truthy (s : js_string) : bool :=
  match s with [] => false | _ => true end.

(** [a || b] on strings. *)
Definition or_str (a b : js_string) : js_string := if truthy a then a else b.

(** ** Character classes *)

Definition in_range (lo hi c : N) : bool := N.leb lo c && N.leb c hi.

(** [\d] *)
Definition is_digit (c : N) : bool := in_range 48 57 c.

(** [\s]: WhiteSpace and LineTerminator of ECMAScript. *)
Definition is_space (c : N) : bool :=
  in_range 9 13 c || N.eqb c 32 || N.eqb c 160 || N.eqb c 5760
  || in_range 8192 8202 c || N.eqb c 8232 || N.eqb c 8233 || N.eqb c 8239
  || N.eqb c 8287 || N.eqb c 12288 || N.eqb c 65279.

Definition is_upper (c : N) : bool := in_range 65 90 c.
Definition is_lower (c : N) : bool := in_range 97 122 c.
Definition is_alpha (c : N) : bool := is_upper c || is_lower c.

(** [\w] *)
Definition is_word (c : N) : bool := is_alpha c || is_digit c || N.eqb c 95.

(** Case folding of one code unit, on the ASCII letters.  This is the fold
    the [i] flag applies to the ASCII patterns of this program; it is also the
    restriction of [toLowerCase] to ASCII (code units outside ASCII are left
    as they are: the Unicode case tables are not part of the model, so what
    is said of [toLowerCase] is said of ASCII text). *)
Definition lower (c : N) : N := if is_upper c then (c + 32)%N else c.

Definition toLowerCase (s : js_string) : js_string := List.map lower s.

(** ** trim, slice, includes, split, join *)

Fixpoint trimStart (s : js_string) : js_string :=
  match s with
  | c :: t => if is_space c then trimStart t else s
  | [] => []
  end.

Definition trimEnd (s : js_string) : js_string := rev (trimStart (rev s)).

Definition trim (s : js_string) : js_string := trimEnd (trimStart s).

(** [s.slice(0, n)] *)
Definition slice0 (n : nat) (s : js_string) : js_string := firstn n s.

Fixpoint starts_with (p s : js_string) : bool :=
  match p, s with
  | [], _ => true
  | x :: p', y :: s' => N.eqb x y && starts_with p' s'
  | _ :: _, [] => false
  end.

(** [s.includes(p)] *)
Fixpoint includes (s p : js_string) : bool :=
  starts_with p s ||
  match s with
  | [] => false
  | _ :: t => includes t p
  end.

(** [s.split(sep)] for a separator of one code unit. *)
Fixpoint split_on (sep : N -> bool) (s : js_string) : list js_string :=
  match s with
  | [] => [[]]
  | c :: t =>
      if sep c then [] :: split_on sep t
      else match split_on sep t with
           | w :: ws => (c :: w) :: ws
           | [] => [[c]]
           end
  end.

(** [parts.join(sep)] *)
Fixpoint join (sep : js_string) (parts : list js_string) : js_string :=
  match parts with
  | [] => []
  | [p] => p
  | p :: ps => p ++ sep ++ join sep ps
  end.

(** [s.replace(p, r)] with a string pattern: the first occurrence only. *)
Fixpoint replace_first_str (p r s : js_string) : js_string :=
  if starts_with p s then r ++ skipn (length p) s
  else match s with
       | [] => []
       | c :: t => c :: replace_first_str p r t
       end.

(** ** parseInt *)

Definition digit_val (c : N) : Z := Z.of_N c - 48.

Fixpoint parse_digits (acc : Z) (s : js_string) : Z :=
  match s with
  | c :: t => if is_digit c then parse_digits (10 * acc + digit_val c) t else acc
  | [] => acc
  end.

(** [parseInt(s)] on a string that does not start with a hexadecimal prefix:
    leading white space, an optional sign, then the longest run of decimal
    digits; [None] stands for [NaN]. *)
Definition parseInt (s : js_string) : option Z :=
  let s := trimStart s in
  let '(neg, s) :=
    match s with
    | 45 :: t => (true, t)
    | 43 :: t => (false, t)
    | _ => (false, s)
    end%N in
  match s with
  | c :: _ =>
      if is_digit c
      then Some (if neg then (- parse_digits 0 s)%Z else parse_digits 0 s)
      else None
  | [] => None
  end.

End Js.

Import Js.

(* ================================================================== *)
(** * Regular expressions *)
(* ================================================================== *)

Module Re.

Inductive regex : Type :=
| Eps : regex
| Chr : (N -> bool) -> regex              (* a class of one code unit *)
| Seq : regex -> regex -> regex
| Alt : regex -> regex -> regex           (* r1|r2 *)
| Star : bool -> regex -> regex           (* r* when true, r*? when false *)
| Group : regex -> regex                  (* the capturing group (r) *)
| WordB : regex                           (* \b *)
| Bol : regex                             (* ^ without the m flag *)
| Eol : regex                             (* $ without the m flag *)
| Look : regex -> regex.                  (* (?=r) *)

(** A position of the matcher in its input: the code units already passed
    (most recent first), those still ahead, and the text of the capturing
    group once it has closed.  Every pattern of the program has at most one
    capturing group. *)
Record mstate : Type := MState {
  seen : js_string;
  rest : js_string;
  cap : option js_string
}.

Definition start_at (sn rs : js_string) : mstate := MState sn rs None.

(** The code units between two positions of the same input. *)
Definition consumed (st st' : mstate) : js_string :=
  firstn (length (rest st) - length (rest st')) (rest st).

Definition at_word_boundary (st : mstate) : bool :=
  xorb (match seen st with c :: _ => is_word c | [] => false end)
       (match rest st with c :: _ => is_word c | [] => false end).

(** The iterations of a star whose body matches as [step] says.  An
    iteration that consumes nothing is rejected, as RepeatMatcher does, so
    the number of code units ahead bounds the number of iterations: [n] is
    that bound. *)
Fixpoint star_loop (step : mstate -> list mstate) (greedy : bool) (n : nat)
    (st : mstate) {struct n} : list mstate :=
  match n with
  | O => [st]
  | S n' =>
      let more :=
        flat_map
          (fun st' =>
             if length (rest st') <? length (rest st)
             then star_loop step greedy n' st' else [])
          (step st) in
      if greedy then more ++ [st] else st :: more
  end.

(** All the ways [r] matches from [st], in the order the backtracking matcher
    of ECMAScript tries them. *)
Fixpoint run (r : regex) (st : mstate) : list mstate :=
  match r with
  | Eps => [st]
  | Chr p =>
      match rest st with
      | c :: t => if p c then [MState (c :: seen st) t (cap st)] else []
      | [] => []
      end
  | Seq a b => flat_map (run b) (run a st)
  | Alt a b => run a st ++ run b st
  | Star greedy a => star_loop (run a) greedy (length (rest st)) st
  | Group a =>
      List.map (fun st' => MState (seen st') (rest st') (Some (consumed st st')))
               (run a st)
  | WordB => if at_word_boundary st then [st] else []
  | Bol => match seen st with [] => [st] | _ => [] end
  | Eol => match rest st with [] => [st] | _ => [] end
  | Look a =>
      match run a st with
      | st' :: _ => [MState (seen st) (rest st) (cap st')]
      | [] => []
      end
  end.

(** The match at one position: the first success. *)
Definition match_at (r : regex) (sn rs : js_string) : option mstate :=
  hd_error (run r (start_at sn rs)).

(** The leftmost match at or after a position, with the position it starts at. *)
Fixpoint search (r : regex) (sn rs : js_string) {struct rs}
  : option (mstate * mstate) :=
  match match_at r sn rs with
  | Some st' => Some (start_at sn rs, st')
  | None =>
      match rs with
      | [] => None
      | c :: t => search r (c :: sn) t
      end
  end.

(** The result of [s.match(r)] for a regex without the [g] flag. *)
Record match_result : Type := MatchResult {
  m_before : js_string;          (* the text before the match *)
  m_whole : js_string;           (* match[0] *)
  m_group : option js_string;    (* match[1] *)
  m_after : js_string            (* the text after the match *)
}.

Definition js_match (r : regex) (s : js_string) : option match_result :=
  match search r [] s with
  | Some (st, st') =>
      Some (MatchResult (rev (seen st)) (consumed st st') (cap st') (rest st'))
  | None => None
  end.

(** [r.test(s)] *)
Definition test (r : regex) (s : js_string) : bool :=
  match js_match r s with Some _ => true | None => false end.

(** [s.replace(r, by)] without the [g] flag. *)
Definition replace_first (r : regex) (by_ : js_string) (s : js_string) : js_string :=
  match js_match r s with
  | Some m => m_before m ++ by_ ++ m_after m
  | None => s
  end.

(** The scan of a [g]-flagged regex over the input.  [skip] counts the code
    units of the current match that are still to be passed; a match of the
    empty string moves the scan by one code unit, as the advance of
    [lastIndex] does.  [emit] says what a match contributes and [keep] what a
    code unit outside any match contributes. *)
Section Scan.
Variable A : Type.
Variable r : regex.
Variable emit : js_string -> list A.
Variable keep : N -> list A.

Fixpoint scan (skip : nat) (sn rs : js_string) {struct rs} : list A :=
  match skip with
  | S k =>
      match rs with
      | c :: t => scan k (c :: sn) t
      | [] => []
      end
  | O =>
      match match_at r sn rs with
      | Some st' =>
          let w := consumed (start_at sn rs) st' in
          emit w ++
          match rs with
          | c :: t =>
              (match w with [] => keep c | _ => [] end)
              ++ scan (length w - 1) (c :: sn) t
          | [] => []
          end
      | None =>
          match rs with
          | c :: t => keep c ++ scan 0 (c :: sn) t
          | [] => []
          end
      end
  end.
End Scan.

(** [s.match(r)] with the [g] flag: every match, left to right ([[]] for
    [null]). *)
Definition match_all (r : regex) (s : js_string) : list js_string :=
  scan r (fun w => [w]) (fun _ => []) 0 [] s.

(** [s.replace(r, by)] with the [g] flag. *)
Definition replace_all (r : regex) (by_ : js_string) (s : js_string) : js_string :=
  scan r (fun _ => by_) (fun c => [c]) 0 [] s.

(** ** Notation for patterns *)

Definition chr (c : N) : regex := Chr (N.eqb c).
Definition chr_i (c : N) : regex := Chr (fun x => N.eqb (lower x) (lower c)).
Definition one_of (s : js_string) : regex :=
  Chr (fun x => existsb (N.eqb x) s).
Definition none_of (s : js_string) : regex :=
  Chr (fun x => negb (existsb (N.eqb x) s)).
Definition any : regex := Chr (fun _ => true).
Definition digit : regex := Chr is_digit.
Definition space : regex := Chr is_space.
Definition non_space : regex := Chr (fun x => negb (is_space x)).

Fixpoint seqs (l : list regex) : regex :=
  match l with
  | [] => Eps
  | [r] => r
  | r :: l' => Seq r (seqs l')
  end.

(** A literal, and a literal under the [i] flag. *)
Definition str (s : js_string) : regex := seqs (List.map chr s).
Definition str_i (s : js_string) : regex := seqs (List.map chr_i s).

Definition star (r : regex) : regex := Star true r.
Definition plus (r : regex) : regex := Seq r (Star true r).
Definition lazy_plus (r : regex) : regex := Seq r (Star false r).
Definition opt (r : regex) : regex := Alt r Eps.

(** [r{n}] and [r{n,}] *)
Fixpoint times (n : nat) (r : regex) : regex :=
  match n with
  | O => Eps
  | S O => r
  | S n' => Seq r (times n' r)
  end.
Definition at_least (n : nat) (r : regex) : regex := Seq (times n r) (star r).

End Re.

Import Re.

(* ================================================================== *)
(** * doiLookup.js *)
(* ================================================================== *)

Module DoiLookup.

(** [10\.\d{4,}\/[^\s]+] *)
Definition doi_core : regex :=
  seqs [str (lit "10."); at_least 4 digit; chr 47; plus non_space].

(** The four patterns of [extractDOI], in the order of the array. *)
Definition pat_doi_prefix : regex :=          (* /doi:\s*(10\.\d{4,}\/[^\s]+)/i *)
  seqs [str_i (lit "doi:"); star space; Group doi_core].
Definition pat_doi_url : regex :=   (* /https?:\/\/doi\.org\/(10\.\d{4,}\/[^\s]+)/i *)
  seqs [str_i (lit "http"); opt (chr_i 115); str_i (lit "://doi.org/"); Group doi_core].
Definition pat_DOI_prefix : regex :=          (* /DOI:\s*(10\.\d{4,}\/[^\s]+)/i *)
  seqs [str_i (lit "DOI:"); star space; Group doi_core].
Definition pat_plain : regex :=               (* /\b(10\.\d{4,}\/[^\s]+)\b/ *)
  seqs [WordB; Group doi_core; WordB].

Definition patterns : list regex :=
  [pat_doi_prefix; pat_doi_url; pat_DOI_prefix; pat_plain].

(** [/[.,;:!?]$/] *)
Definition trailing_punct : regex := Seq (one_of (lit ".,;:!?")) Eol.

(** The body of the [for] loop of [extractDOI]: the first pattern whose match
    has a non-empty group decides. *)
Fixpoint first_doi (ps : list regex) (text : js_string) : option js_string :=
  match ps with
  | [] => None
  | p :: ps' =>
      match js_match p text with
      | Some (MatchResult _ _ (Some g) _) =>
          if truthy g
          then Some (replace_first trailing_punct [] (trim g))
          else first_doi ps' text
      | _ => first_doi ps' text
      end
  end.

(** [extractDOI(text)]; [None] is [null]. *)
Definition extractDOI (text : js_string) : option js_string :=
  if truthy text then first_doi patterns text else None.

(** [/^https?:\/\/doi\.org\//] *)
Definition doi_org_prefix : regex :=
  seqs [Bol; str (lit "http"); opt (chr 115); str (lit "://doi.org/")].

(** [isValidDOI(doi)] *)
Definition isValidDOI (doi : js_string) : bool :=
  if truthy doi
  then test (seqs [Bol; str (lit "10."); at_least 4 digit; chr 47; plus non_space; Eol])
            (trim (replace_first doi_org_prefix [] doi))
  else false.

End DoiLookup.

(* ================================================================== *)
(** * cleanAbstract (doiLookup.js and the academic-search module) *)
(* ================================================================== *)

Module Abstract.

Definition gt_sign : js_string := [62%N].

Definition jats_open : regex :=                      (* /<jats:[^>]+>/g *)
  seqs [str (lit "<jats:"); plus (none_of gt_sign); chr 62].
Definition jats_close : regex :=                     (* /<\/jats:[^>]+>/g *)
  seqs [str (lit "</jats:"); plus (none_of gt_sign); chr 62].
Definition any_tag : regex :=                        (* /<[^>]+>/g *)
  seqs [chr 60; plus (none_of gt_sign); chr 62].
Definition spaces : regex := plus space.             (* /\s+/g *)

(** The five entity replacements, in the order of the source. *)
Definition decode_entities (s : js_string) : js_string :=
  let s := replace_all (str (lit "&lt;")) [60%N] s in
  let s := replace_all (str (lit "&gt;")) [62%N] s in
  let s := replace_all (str (lit "&amp;")) [38%N] s in
  let s := replace_all (str (lit "&quot;")) [34%N] s in
  replace_all (str (lit "&apos;")) [39%N] s.

(** [cleanAbstract(text)] for a string argument.  The two copies in the
    source are the same function. *)
Definition cleanAbstract (text : js_string) : js_string :=
  if truthy text then
    let cleaned := replace_all jats_open [] text in
    let cleaned := replace_all jats_close [] cleaned in
    let cleaned := replace_all any_tag [] cleaned in
    let cleaned := decode_entities cleaned in
    trim (replace_all spaces (lit " ") cleaned)
  else [].

(** [cleanAbstract(x)] where [x] may be [undefined] or [null]. *)
Definition cleanAbstract_opt (text : option js_string) : js_string :=
  match text with
  | Some t => cleanAbstract t
  | None => []
  end.

End Abstract.

(* ================================================================== *)
(** * The text heuristics of pdfMetadata.js *)
(* ================================================================== *)

Module Heuristics.

(** [metadata.info] as PDF.js reports it: each entry may be missing. *)
Record PdfInfo : Type := {
  Title : option js_string;
  Author : option js_string;
  CreationDate : option js_string
}.

(** [x && x.trim()] on an entry of [metadata.info]: the trimmed text when the
    entry is there and not blank. *)
Definition non_blank (x : option js_string) : option js_string :=
  match x with
  | Some s => if truthy s && truthy (trim s) then Some (trim s) else None
  | None => None
  end.

(** [l.filter(Boolean)] on strings *)
Definition filter_truthy (l : list js_string) : list js_string :=
  List.filter truthy l.

Definition is_newline (c : N) : bool := N.eqb c 10.

(** ** extractTitle *)

Definition leading_number : regex :=                 (* /^\d+\s*/ *)
  seqs [Bol; plus digit; star space].

Definition extractTitle (info : PdfInfo) (text : js_string) : js_string :=
  match non_blank (Title info) with
  | Some t => t
  | None =>
      let lines :=
        List.filter (fun line => 10 <? length (trim line))
                    (split_on is_newline text) in
      match lines with
      | l0 :: _ =>
          slice0 300
            (replace_all Abstract.spaces (lit " ")
               (replace_first leading_number [] (trim l0)))
      | [] => []
      end
  end.

(** ** extractAuthors *)

Definition alpha : regex := Chr is_alpha.
Definition upper : regex := Chr is_upper.
Definition lower_ : regex := Chr is_lower.

(** [[A-Z][a-z]+] under the [i] flag, where both classes are the letters. *)
Definition name_i : regex := Seq alpha (plus alpha).
(** [[A-Z][a-z]+(?:\s+[A-Z][a-z]+)+] under the [i] flag *)
Definition full_name_i : regex :=
  Seq name_i (plus (Seq (plus space) name_i)).
Definition comma_sep : regex := seqs [star space; chr 44; star space].

(** /(?:by|authors?:)\s*(NAMES)/i, where NAMES is a full name followed by
    any number of [\s*,\s*] and a full name *)
Definition authors_by : regex :=
  seqs [Alt (str_i (lit "by"))
            (seqs [str_i (lit "author"); opt (chr_i 115); chr 58]);
        star space;
        Group (Seq full_name_i (star (Seq comma_sep full_name_i)))].

(** [[A-Z][a-z]+\s+[A-Z]\.\s+[A-Z][a-z]+] *)
Definition name : regex := Seq upper (plus lower_).
Definition initialled : regex :=
  seqs [name; plus space; upper; chr 46; plus space; name].
Definition authors_initials : regex :=
  Group (Seq initialled (star (Seq comma_sep initialled))).

Definition is_comma (c : N) : bool := N.eqb c 44.
Definition is_comma_or_semi (c : N) : bool := N.eqb c 44 || N.eqb c 59.

Fixpoint first_authors (ps : list regex) (text : js_string) : list js_string :=
  match ps with
  | [] => []
  | p :: ps' =>
      match js_match p text with
      | Some m =>
          match m_group m with
          | Some g => filter_truthy (List.map trim (split_on is_comma g))
          | None => []
          end
      | None => first_authors ps' text
      end
  end.

Definition extractAuthors (info : PdfInfo) (text : js_string) : list js_string :=
  match non_blank (Author info) with
  | Some authorStr =>
      filter_truthy (List.map trim (split_on is_comma_or_semi authorStr))
  | None => first_authors [authors_by; authors_initials] text
  end.

(** ** extractYear *)

Definition four_digits : regex := Group (times 4 digit).      (* /(\d{4})/ *)

(** /\b(19\d{2}|20[0-2]\d)\b/g *)
Definition year_pattern : regex :=
  seqs [WordB;
        Group (Alt (Seq (str (lit "19")) (times 2 digit))
                   (seqs [str (lit "20"); Chr (in_range 48 50); digit]));
        WordB].

Definition valid_year (now y : Z) : bool :=
  ((1900 <=? y) && (y <=? now + 1))%Z.

(** [l.sort((a, b) => b - a)]: the numbers in descending order. *)
Fixpoint insert_desc (x : Z) (l : list Z) : list Z :=
  match l with
  | [] => [x]
  | y :: l' => if (y <=? x)%Z then x :: l else y :: insert_desc x l'
  end.

Fixpoint sort_desc (l : list Z) : list Z :=
  match l with
  | [] => []
  | x :: l' => insert_desc x (sort_desc l')
  end.

(** The year of the embedded creation date, when there is a valid one. *)
Definition creation_year (now : Z) (info : PdfInfo) : option Z :=
  match CreationDate info with
  | Some d =>
      if truthy d then
        match js_match four_digits d with
        | Some m =>
            match m_group m with
            | Some g =>
                match parseInt g with
                | Some year => if valid_year now year then Some year else None
                | None => None
                end
            | None => None
            end
        | None => None
        end
      else None
  | None => None
  end.

(** The years of the text that pass the filter, before sorting
    ([parseInt] of a match is never [NaN]; a [NaN] would fail the filter). *)
Definition text_years (now : Z) (text : js_string) : list Z :=
  flat_map
    (fun y => match parseInt y with
              | Some v => if valid_year now v then [v] else []
              | None => []
              end)
    (match_all year_pattern text).

(** [extractYear(metadata, text)]; [now] is [new Date().getFullYear()]. *)
Definition extractYear (now : Z) (info : PdfInfo) (text : js_string) : Z :=
  match creation_year now info with
  | Some year => year
  | None =>
      match sort_desc (text_years now text) with
      | y :: _ => y
      | [] => now
      end
  end.

(** ** extractAbstract *)

Definition colon_or_space : regex := Chr (fun c => N.eqb c 58 || is_space c).
Definition blank_line : regex := seqs [chr 10; star space; chr 10].

(** /abstract[:\s]*(.+?)(?=\n\s*\n|introduction|keywords|1\.|references)/is *)
Definition abstract_pattern : regex :=
  seqs [str_i (lit "abstract"); star colon_or_space;
        Group (lazy_plus any);
        Look (Alt blank_line
             (Alt (str_i (lit "introduction"))
             (Alt (str_i (lit "keywords"))
             (Alt (str (lit "1."))
                  (str_i (lit "references"))))))].

(** /summary[:\s]*(.+?)(?=\n\s*\n|introduction|keywords)/is *)
Definition summary_pattern : regex :=
  seqs [str_i (lit "summary"); star colon_or_space;
        Group (lazy_plus any);
        Look (Alt blank_line
             (Alt (str_i (lit "introduction"))
                  (str_i (lit "keywords"))))].

(** The loop over patterns that returns the first match with a non-empty
    group, after [post]. *)
Fixpoint first_group (post : js_string -> js_string) (ps : list regex)
    (text : js_string) : js_string :=
  match ps with
  | [] => []
  | p :: ps' =>
      match js_match p text with
      | Some (MatchResult _ _ (Some g) _) =>
          if truthy g then post g else first_group post ps' text
      | _ => first_group post ps' text
      end
  end.

Definition extractAbstract (text : js_string) : js_string :=
  first_group
    (fun g => slice0 1000 (trim (replace_all Abstract.spaces (lit " ") g)))
    [abstract_pattern; summary_pattern] text.

(** ** extractDOI (the wrapper of pdfMetadata.js) *)

Definition extractDOI (text : js_string) : js_string :=
  match DoiLookup.extractDOI text with
  | Some d => or_str d []
  | None => []
  end.

(** ** extractJournal *)

Definition not_comma_nl : regex := Chr (fun c => negb (N.eqb c 44 || N.eqb c 10)).

(** /published in\s+([A-Z][^,\n]+(?:Journal|Review|Magazine|Proceedings))/i *)
Definition published_in : regex :=
  seqs [str_i (lit "published in"); plus space;
        Group (seqs [alpha; plus not_comma_nl;
                     Alt (str_i (lit "Journal"))
                    (Alt (str_i (lit "Review"))
                    (Alt (str_i (lit "Magazine"))
                         (str_i (lit "Proceedings"))))])].

(** /(Journal of [A-Z][^,\n]+)/i *)
Definition journal_of : regex :=
  Group (seqs [str_i (lit "Journal of "); alpha; plus not_comma_nl]).

(** /([A-Z][^,\n]+\sJournal)/i *)
Definition x_journal : regex :=
  Group (seqs [alpha; plus not_comma_nl; space; str_i (lit "Journal")]).

Definition extractJournal (text : js_string) : js_string :=
  first_group (fun g => slice0 200 (trim g))
              [published_in; journal_of; x_journal] text.

(** The record built from the heuristics ([pdfExtractedData]). *)
Record PdfGuess : Type := {
  g_title : js_string;
  g_authors : list js_string;
  g_year : Z;
  g_abstract : js_string;
  g_doi : js_string;
  g_journal : js_string
}.

Definition guess (now : Z) (info : PdfInfo) (fullText : js_string) : PdfGuess :=
  {| g_title := extractTitle info fullText;
     g_authors := extractAuthors info fullText;
     g_year := extractYear now info fullText;
     g_abstract := extractAbstract fullText;
     g_doi := extractDOI fullText;
     g_journal := extractJournal fullText |}.

End Heuristics.

(* ================================================================== *)
(** * Effects: exceptions, the network and the clock *)
(* ================================================================== *)

Module Eff.

(** How an expression completes; an [Error] is known by its message. *)
Inductive completion (A : Type) : Type :=
| Normal : A -> completion A
| Throw : js_string -> completion A.
Arguments Normal {A} _.
Arguments Throw {A} _.

(** The remote calls of the program. *)
Inductive Request : Type :=
| CrossRefByTitle : js_string -> Request        (* api.crossref.org/works?query.title= *)
| OpenAlexByTitle : js_string -> Request        (* api.openalex.org/works?search= *)
| SemanticScholarByTitle : js_string -> Request (* api.semanticscholar.org/.../search?query= *)
| OpenAlexSource : js_string -> Request         (* api.openalex.org/sources?search= *)
| CerebrasChat : js_string -> Request.          (* api.cerebras.ai, by model name *)

(** ** The JSON the services answer with, by the fields the program reads.
    A field of type [option] is [None] when it is missing or [null]. *)

Record CrossRefAuthor : Type := {
  given : option js_string;
  family : option js_string
}.

Record CrossRefItem : Type := {
  cr_title0 : option js_string;            (* title?.[0] *)
  cr_author : option (list CrossRefAuthor);
  cr_year : option Z;                      (* published?.['date-parts']?.[0]?.[0] *)
  cr_container0 : option js_string;        (* ['container-title']?.[0] *)
  cr_abstract : option js_string;
  cr_DOI : option js_string;
  cr_type : option js_string;
  cr_volume : option js_string;
  cr_issue : option js_string;
  cr_page : option js_string;
  cr_publisher : option js_string;
  cr_URL : option js_string;
  cr_ISSN0 : option js_string;
  cr_ISBN0 : option js_string;
  cr_language : option js_string;
  cr_references_count : option Z;
  cr_is_referenced_by_count : option Z
}.

Record OpenAlexWork : Type := {
  oa_title : option js_string;
  oa_authorships : option (list (option js_string));   (* a.author?.display_name *)
  oa_publication_year : option Z;
  oa_source_name : option js_string;       (* primary_location?.source?.display_name *)
  oa_abstract_inverted_index : option (list (js_string * list nat));
  oa_doi : option js_string;
  oa_type : option js_string;
  oa_volume : option js_string;
  oa_issue : option js_string;
  oa_first_page : option js_string;
  oa_last_page : option js_string;
  oa_host_organization_name : option js_string;
  oa_landing_page_url : option js_string;
  oa_issn_l : option js_string;
  oa_language : option js_string;
  oa_referenced_works_count : option Z;
  oa_cited_by_count : option Z
}.

Record S2Paper : Type := {
  s2_title : option js_string;
  s2_authors : option (list (option js_string));        (* a.name *)
  s2_year : option Z;
  s2_venue_name : option js_string;        (* publicationVenue?.name *)
  s2_venue : option js_string;
  s2_abstract : option js_string;
  s2_DOI : option js_string;               (* externalIds?.DOI *)
  s2_type0 : option js_string;             (* publicationTypes?.[0] *)
  s2_publisher : option js_string;
  s2_url : option js_string;
  s2_issn : option js_string;
  s2_referenceCount : option Z;
  s2_citationCount : option Z
}.

(** A number read from JSON and then tested with [!== undefined] and
    compared: a missing key, [null], or a number. *)
Inductive jsnum : Type :=
| NUndefined : jsnum
| NNull : jsnum
| NNum : Q -> jsnum.

Record SummaryStats : Type := {
  mean_citedness_2yr : jsnum;              (* ['2yr_mean_citedness'] *)
  h_index : jsnum
}.

Record OpenAlexSourceRec : Type := {
  summary_stats : option SummaryStats;
  works_count : jsnum
}.

Inductive Body : Type :=
| CrossRefBody : option (list CrossRefItem) -> Body        (* message?.items *)
| OpenAlexWorksBody : option (list OpenAlexWork) -> Body   (* results *)
| S2Body : option (list S2Paper) -> Body                   (* data *)
| OpenAlexSourcesBody : option (list OpenAlexSourceRec) -> Body
| ChatBody : option js_string -> Body      (* choices?.[0]?.message?.content *)
| ErrorBody : option js_string -> Body     (* error?.message *)
| NullBody : Body.                         (* the JSON value [null]: reading a
                                              property of it throws *)

Record Response : Type := {
  status : Z;
  statusText : js_string;
  json : completion Body                   (* response.json() *)
}.

(** [response.ok] *)
Definition ok (r : Response) : bool := ((200 <=? status r) && (status r <=? 299))%Z.

Inductive FetchOutcome : Type :=
| NetworkError : js_string -> FetchOutcome
| Responded : Response -> FetchOutcome.

(** What the program cannot decide: the year of the clock and what the
    network answers. *)
Record Env : Type := {
  now : Z;                                 (* new Date().getFullYear() *)
  net : Request -> FetchOutcome
}.

(** A computation: it extends the log of the requests issued and completes. *)
Definition M (A : Type) : Type := list Request -> completion A * list Request.

Definition ret {A} (a : A) : M A := fun log => (Normal a, log).
Definition throw {A} (e : js_string) : M A := fun log => (Throw e, log).

Definition bind {A B} (m : M A) (k : A -> M B) : M B :=
  fun log =>
    match m log with
    | (Normal a, log') => k a log'
    | (Throw e, log') => (Throw e, log')
    end.

(** [try { m } catch (error) { h error }] *)
Definition try_catch {A} (m : M A) (h : js_string -> M A) : M A :=
  fun log =>
    match m log with
    | (Normal a, log') => (Normal a, log')
    | (Throw e, log') => h e log'
    end.

Definition lift {A} (c : completion A) : M A := fun log => (c, log).

(** The step that builds the URL and awaits [fetch(url)].  An exception while
    the URL is built ([encodeURIComponent] on a text with a lone surrogate) is
    among the failures of this step, so the log records the lookups that were
    started; each of them is a request that was sent when the text of the
    request is well-formed UTF-16. *)
Definition fetch (env : Env) (req : Request) : M Response :=
  fun log =>
    match net env req with
    | NetworkError e => (Throw e, log ++ [req])
    | Responded r => (Normal r, log ++ [req])
    end.

End Eff.

Import Eff.

Declare Scope eff_scope.
Delimit Scope eff_scope with eff.
Notation "x <- m ;; k" := (bind m (fun x => k))
  (at level 61, m at next level, right associativity) : eff_scope.
Open Scope eff_scope.

(* ================================================================== *)
(** * The academic-search module *)
(* ================================================================== *)

Module AcademicSearch.

(** [o || d] for a string that may be missing. *)
Definition opt_or (o : option js_string) (d : js_string) : js_string :=
  match o with
  | Some s => or_str s d
  | None => d
  end.

(** [o || d] for a number that may be missing. *)
Definition num_or (o : option Z) (d : Z) : Z :=
  match o with
  | Some 0%Z => d
  | Some n => n
  | None => d
  end.

(** The record an adapter returns.  An object of JavaScript: any property may
    be missing. *)
Record AcademicData : Type := {
  a_title : option js_string;
  a_authors : option (list js_string);
  a_year : option Z;
  a_journal : option js_string;
  a_abstract : option js_string;
  a_doi : option js_string;
  a_type : option js_string;
  a_volume : option js_string;
  a_issue : option js_string;
  a_pages : option js_string;
  a_publisher : option js_string;
  a_url : option js_string;
  a_issn : option js_string;
  a_isbn : option js_string;
  a_language : option js_string;
  a_references : option Z;
  a_citations : option Z;
  a_source : option js_string
}.

Definition doi_url (doi : option js_string) : js_string :=
  match doi with
  | Some d => if truthy d then lit "https://doi.org/" ++ d else []
  | None => []
  end.

(** ** searchCrossRef *)

Definition crossref_author (a : CrossRefAuthor) : js_string :=
  let given := opt_or (given a) [] in
  let family := opt_or (family a) [] in
  if truthy family then trim (family ++ lit ", " ++ given) else given.

Definition crossref_record (env : Env) (item : CrossRefItem) : AcademicData :=
  {| a_title := Some (opt_or (cr_title0 item) []);
     a_authors :=
       Some (match cr_author item with
             | Some l => Heuristics.filter_truthy (List.map crossref_author l)
             | None => []
             end);
     a_year := Some (num_or (cr_year item) (now env));
     a_journal := Some (opt_or (cr_container0 item) []);
     a_abstract := Some (or_str (Abstract.cleanAbstract_opt (cr_abstract item)) []);
     a_doi := Some (opt_or (cr_DOI item) []);
     a_type := Some (opt_or (cr_type item) (lit "journal-article"));
     a_volume := Some (opt_or (cr_volume item) []);
     a_issue := Some (opt_or (cr_issue item) []);
     a_pages := Some (opt_or (cr_page item) []);
     a_publisher := Some (opt_or (cr_publisher item) []);
     a_url := Some (opt_or (cr_URL item) (doi_url (cr_DOI item)));
     a_issn := Some (opt_or (cr_ISSN0 item) []);
     a_isbn := Some (opt_or (cr_ISBN0 item) []);
     a_language := Some (opt_or (cr_language item) []);
     a_references := Some (num_or (cr_references_count item) 0);
     a_citations := Some (num_or (cr_is_referenced_by_count item) 0);
     a_source := Some (lit "CrossRef") |}.

Definition searchCrossRef (env : Env) (title : js_string) : M (option AcademicData) :=
  try_catch
    (response <- fetch env (CrossRefByTitle title) ;;
     if negb (ok response) then ret None
     else
       data <- lift (json response) ;;
       match data with
       | CrossRefBody (Some (item :: _)) => ret (Some (crossref_record env item))
       | _ => ret None
       end)
    (fun _ => ret None).

(** ** reconstructAbstract *)

(** [words[pos] = word] on an array that grows, leaving holes. *)
Fixpoint set_at (pos : nat) (word : js_string) (words : list (option js_string))
  : list (option js_string) :=
  match pos, words with
  | O, [] => [Some word]
  | O, _ :: ws => Some word :: ws
  | S p, [] => None :: set_at p word []
  | S p, w :: ws => w :: set_at p word ws
  end.

Definition place_word (words : list (option js_string))
    (entry : js_string * list nat) : list (option js_string) :=
  fold_left (fun ws pos => set_at pos (fst entry) ws) (snd entry) words.

(** [words.filter(Boolean)]: the holes and the empty strings go. *)
Definition filled (words : list (option js_string)) : list js_string :=
  flat_map (fun w => match w with
                     | Some s => if truthy s then [s] else []
                     | None => []
                     end) words.

Definition reconstructAbstract (invertedIndex : list (js_string * list nat))
  : js_string :=
  slice0 1000 (join (lit " ") (filled (fold_left place_word invertedIndex []))).

(** ** searchOpenAlex *)

Definition openalex_pages (item : OpenAlexWork) : js_string :=
  if truthy (opt_or (oa_first_page item) []) && truthy (opt_or (oa_last_page item) [])
  then opt_or (oa_first_page item) [] ++ lit "-" ++ opt_or (oa_last_page item) []
  else opt_or (oa_first_page item) [].

Definition openalex_record (env : Env) (item : OpenAlexWork) : AcademicData :=
  {| a_title := Some (opt_or (oa_title item) []);
     a_authors :=
       Some (match oa_authorships item with
             | Some l => Heuristics.filter_truthy (List.map (fun n => opt_or n []) l)
             | None => []
             end);
     a_year := Some (num_or (oa_publication_year item) (now env));
     a_journal := Some (opt_or (oa_source_name item) []);
     a_abstract :=
       Some (match oa_abstract_inverted_index item with
             | Some idx => Abstract.cleanAbstract (reconstructAbstract idx)
             | None => []
             end);
     a_doi :=
       Some (opt_or (option_map (replace_first_str (lit "https://doi.org/") [])
                                (oa_doi item)) []);
     a_type := Some (opt_or (oa_type item) (lit "article"));
     a_volume := Some (opt_or (oa_volume item) []);
     a_issue := Some (opt_or (oa_issue item) []);
     a_pages := Some (openalex_pages item);
     a_publisher := Some (opt_or (oa_host_organization_name item) []);
     a_url := Some (opt_or (oa_doi item) (opt_or (oa_landing_page_url item) []));
     a_issn := Some (opt_or (oa_issn_l item) []);
     a_isbn := None;
     a_language := Some (opt_or (oa_language item) []);
     a_references := Some (num_or (oa_referenced_works_count item) 0);
     a_citations := Some (num_or (oa_cited_by_count item) 0);
     a_source := Some (lit "OpenAlex") |}.

Definition searchOpenAlex (env : Env) (title : js_string) : M (option AcademicData) :=
  try_catch
    (response <- fetch env (OpenAlexByTitle title) ;;
     if negb (ok response) then ret None
     else
       data <- lift (json response) ;;
       match data with
       | OpenAlexWorksBody (Some (item :: _)) => ret (Some (openalex_record env item))
       | _ => ret None
       end)
    (fun _ => ret None).

(** ** searchSemanticScholar *)

Definition s2_record (env : Env) (item : S2Paper) : AcademicData :=
  {| a_title := Some (opt_or (s2_title item) []);
     a_authors :=
       Some (match s2_authors item with
             | Some l => Heuristics.filter_truthy (List.map (fun n => opt_or n []) l)
             | None => []
             end);
     a_year := Some (num_or (s2_year item) (now env));
     a_journal := Some (opt_or (s2_venue_name item) (opt_or (s2_venue item) []));
     a_abstract := Some (or_str (Abstract.cleanAbstract_opt (s2_abstract item)) []);
     a_doi := Some (opt_or (s2_DOI item) []);
     a_type := Some (opt_or (s2_type0 item) (lit "article"));
     a_volume := Some [];
     a_issue := Some [];
     a_pages := Some [];
     a_publisher := Some (opt_or (s2_publisher item) []);
     a_url := Some (opt_or (s2_url item) (doi_url (s2_DOI item)));
     a_issn := Some (opt_or (s2_issn item) []);
     a_isbn := None;
     a_language := Some [];
     a_references := Some (num_or (s2_referenceCount item) 0);
     a_citations := Some (num_or (s2_citationCount item) 0);
     a_source := Some (lit "Semantic Scholar") |}.

Definition searchSemanticScholar (env : Env) (title : js_string)
  : M (option AcademicData) :=
  try_catch
    (response <- fetch env (SemanticScholarByTitle title) ;;
     if negb (ok response) then ret None
     else
       data <- lift (json response) ;;
       match data with
       | S2Body (Some (item :: _)) => ret (Some (s2_record env item))
       | _ => ret None
       end)
    (fun _ => ret None).

(** ** searchAcademicDatabases *)

Definition searchAcademicDatabases (env : Env) (title : js_string)
  : M (option AcademicData) :=
  if negb (truthy title) || (length (trim title) <? 10) then ret None
  else
    result <- searchCrossRef env title ;;
    match result with
    | Some _ => ret result
    | None =>
        result <- searchOpenAlex env title ;;
        match result with
        | Some _ => ret result
        | None =>
            result <- searchSemanticScholar env title ;;
            match result with
            | Some _ => ret result
            | None => ret None
            end
        end
    end.

(** ** mapPublicationType *)

Definition typeMap : list (js_string * js_string) :=
  [ (lit "journal-article", lit "Journal Article");
    (lit "article", lit "Journal Article");
    (lit "proceedings-article", lit "Conference Paper");
    (lit "book-chapter", lit "Book Chapter");
    (lit "dissertation", lit "Thesis");
    (lit "report", lit "Technical Report");
    (lit "posted-content", lit "Preprint");
    (lit "preprint", lit "Preprint") ].

(** [table[key]] on an object literal used as a table (own properties). *)
Fixpoint lookup (key : js_string) (table : list (js_string * js_string))
  : option js_string :=
  match table with
  | [] => None
  | (k, v) :: t => if str_eqb k key then Some v else lookup key t
  end.

Definition mapPublicationType (type : option js_string) : js_string :=
  match type with
  | Some t => opt_or (lookup (toLowerCase t) typeMap) (lit "Journal Article")
  | None => lit "Journal Article"
  end.

End AcademicSearch.

(* ================================================================== *)
(** * The journal-ranking module *)
(* ================================================================== *)

Module JournalRanking.

(** [v !== undefined] *)
Definition defined (v : jsnum) : bool :=
  match v with NUndefined => false | _ => true end.

(** [v >= q]: [null] converts to 0 and [undefined] to [NaN]. *)
Definition ge (v : jsnum) (q : Q) : bool :=
  match v with
  | NNum x => Qle_bool q x
  | NNull => Qle_bool q 0
  | NUndefined => false
  end.

(** [v > q] *)
Definition gt (v : jsnum) (q : Q) : bool :=
  match v with
  | NNum x => negb (Qle_bool x q)
  | NNull => negb (Qle_bool 0 q)
  | NUndefined => false
  end.

Definition Q1 : js_string := lit "Q1".
Definition Q2 : js_string := lit "Q2".
Definition Q3 : js_string := lit "Q3".
Definition Q4 : js_string := lit "Q4".

Definition by_citedness (citedness : jsnum) : js_string :=
  if ge citedness 3 then Q1
  else if ge citedness (3 # 2) then Q2
  else if ge citedness (1 # 2) then Q3
  else Q4.

Definition by_h_index (hIndex : jsnum) : js_string :=
  if ge hIndex 100 then Q1
  else if ge hIndex 50 then Q2
  else if ge hIndex 20 then Q3
  else Q4.

(** What [getJournalRankingFromOpenAlex] does with the first source found. *)
Definition rank_source (journal : OpenAlexSourceRec) : option js_string :=
  let by_h :=
    let hIndex :=
      match summary_stats journal with
      | Some s => h_index s
      | None => NUndefined
      end in
    if defined hIndex then Some (by_h_index hIndex) else None in
  match summary_stats journal with
  | Some summaryStats =>
      let citedness := mean_citedness_2yr summaryStats in
      let worksCount := works_count journal in
      if defined citedness && gt worksCount 100
      then Some (by_citedness citedness)
      else by_h
  | None => by_h
  end.

Definition getJournalRankingFromOpenAlex (env : Env) (journalName : js_string)
  : M (option js_string) :=
  try_catch
    (response <- fetch env (OpenAlexSource journalName) ;;
     if negb (ok response) then ret None
     else
       data <- lift (json response) ;;
       match data with
       | OpenAlexSourcesBody (Some (journal :: _)) => ret (rank_source journal)
       | _ => ret None
       end)
    (fun _ => ret None).

Definition q1Patterns : list js_string :=
  List.map lit
    [ "nature"; "science"; "cell"; "lancet"; "jama";
      "new england journal"; "pnas"; "proceedings of the national academy";
      "annual review"; "ieee transactions on pattern analysis";
      "acm computing surveys"; "journal of machine learning research";
      "communications of the acm"; "artificial intelligence" ]%string.

Definition q2Patterns : list js_string :=
  List.map lit
    [ "ieee transactions"; "acm transactions";
      "international journal"; "journal of";
      "european journal"; "american journal" ]%string.

Definition getJournalRankingHeuristic (journalName : js_string) : option js_string :=
  let name := toLowerCase journalName in
  if existsb (includes name) q1Patterns then Some Q1
  else if existsb (includes name) q2Patterns then Some Q2
  else None.

Definition KNOWN_JOURNAL_RANKINGS : list (js_string * js_string) :=
  List.map (fun kv => (lit (fst kv), snd kv))
    [ ("nature", Q1); ("science", Q1); ("nature machine intelligence", Q1);
      ("nature communications", Q1);
      ("journal of machine learning research", Q1);
      ("ieee transactions on pattern analysis and machine intelligence", Q1);
      ("international journal of computer vision", Q1);
      ("artificial intelligence", Q1); ("neural computation", Q1);
      ("acm computing surveys", Q1);
      ("ieee transactions on neural networks and learning systems", Q1);
      ("neural networks", Q1); ("machine learning", Q1);
      ("the lancet", Q1); ("new england journal of medicine", Q1);
      ("jama", Q1); ("british medical journal", Q1); ("plos medicine", Q1);
      ("proceedings of the national academy of sciences", Q1);
      ("scientific reports", Q2); ("plos one", Q2);
      ("ieee access", Q2); ("sensors", Q2); ("applied sciences", Q3) ]%string.

Definition leading_the : regex := seqs [Bol; str (lit "the"); plus space].  (* /^the\s+/ *)
Definition punctuation : regex :=                                    (* /[^\w\s]/g *)
  Chr (fun c => negb (is_word c || is_space c)).

Definition normalizeJournalName (name : js_string) : js_string :=
  trim (replace_all Abstract.spaces (lit " ")
          (replace_all punctuation []
             (replace_first leading_the [] (toLowerCase name)))).

Fixpoint partial_match (normalized : js_string) (table : list (js_string * js_string))
  : option js_string :=
  match table with
  | [] => None
  | (knownJournal, ranking) :: t =>
      if includes normalized knownJournal || includes knownJournal normalized
      then Some ranking
      else partial_match normalized t
  end.

(** The table is read by its own keys; what a JavaScript object inherits is
    not part of it. *)
Definition getJournalRankingFromDatabase (journalName : js_string) : option js_string :=
  let normalized := normalizeJournalName journalName in
  match AcademicSearch.lookup normalized KNOWN_JOURNAL_RANKINGS with
  | Some ranking => Some ranking
  | None => partial_match normalized KNOWN_JOURNAL_RANKINGS
  end.

Definition getJournalRanking (env : Env) (journalName : js_string)
  : M (option js_string) :=
  if negb (truthy journalName) || (length (trim journalName) <? 3) then ret None
  else
    match getJournalRankingFromDatabase journalName with
    | Some dbRanking => ret (Some dbRanking)
    | None =>
        openAlexRanking <- getJournalRankingFromOpenAlex env journalName ;;
        match openAlexRanking with
        | Some r => ret (Some r)
        | None => ret (getJournalRankingHeuristic journalName)
        end
    end.

Definition getJournalRankingTag (env : Env) (journalName : js_string)
  : M (option js_string) :=
  ranking <- getJournalRanking env journalName ;;
  ret (option_map (fun r => r ++ lit " Journal") ranking).

End JournalRanking.

(* ================================================================== *)
(** * extractPDFMetadata *)
(* ================================================================== *)

Module PdfMetadata.

Import Heuristics AcademicSearch.

(** A PDF as PDF.js presents it.  [getPage i] is the list of the [str] of the
    text items of page [i], when the page and its text content can be read. *)
Record PdfDocument : Type := {
  numPages : nat;
  getMetadata : completion PdfInfo;
  getPage : nat -> completion (list js_string)
}.

(** A [File]: its name, and the document that [file.arrayBuffer()] followed by
    [pdfjsLib.getDocument] gives, when both succeed. *)
Record File : Type := {
  name : js_string;
  load : completion PdfDocument
}.

(** The properties the merge adds to the six of the heuristics. *)
Record Enrichment : Type := {
  type : js_string;
  source : option js_string;
  journalRanking : option js_string       (* [None] is [null] *)
}.

(** The record [extractPDFMetadata] returns: six properties, and three more
    when an academic database answered. *)
Record Metadata : Type := {
  title : js_string;
  authors : list js_string;
  year : Z;
  abstract : js_string;
  doi : js_string;
  journal : js_string;
  enrichment : option Enrichment
}.

Definition of_guess (g : PdfGuess) : Metadata :=
  {| title := g_title g; authors := g_authors g; year := g_year g;
     abstract := g_abstract g; doi := g_doi g; journal := g_journal g;
     enrichment := None |}.

(** The record of the [catch] clause. *)
Definition default_record (env : Env) : Metadata :=
  {| title := []; authors := []; year := now env; abstract := []; doi := [];
     journal := []; enrichment := None |}.

(** The loop over the first pages. *)
Fixpoint read_pages (pdf : PdfDocument) (i count : nat) (fullText : js_string)
  : completion js_string :=
  match count with
  | O => Normal fullText
  | S count' =>
      match getPage pdf i with
      | Normal items =>
          read_pages pdf (S i) count' (fullText ++ join (lit " ") items ++ [10%N])
      | Throw e => Throw e
      end
  end.

(** [academicData.authors?.length > 0 ? academicData.authors : fallback] *)
Definition authors_or (a : option (list js_string)) (fallback : list js_string)
  : list js_string :=
  match a with
  | Some (x :: l) => x :: l
  | _ => fallback
  end.

(** The object literal of the merge. *)
Definition merge (academicData : AcademicData) (pdfExtractedData : PdfGuess)
    (journalName : js_string) (journalRankingTag : option js_string) : Metadata :=
  {| title := opt_or (a_title academicData) (g_title pdfExtractedData);
     authors := authors_or (a_authors academicData) (g_authors pdfExtractedData);
     year := num_or (a_year academicData) (g_year pdfExtractedData);
     abstract := opt_or (a_abstract academicData) (g_abstract pdfExtractedData);
     doi := opt_or (a_doi academicData) (g_doi pdfExtractedData);
     journal := journalName;
     enrichment :=
       Some {| type := mapPublicationType (a_type academicData);
               source := a_source academicData;
               journalRanking := journalRankingTag |} |}.

Section Pipeline.

(** The two imports that reach the network. *)
Variable searchAcademicDatabases : js_string -> M (option AcademicData).
Variable getJournalRankingTag : js_string -> M (option js_string).

(** From line 60 on: what is done with [pdfExtractedData]. *)
Definition refine (pdfExtractedData : PdfGuess) : M Metadata :=
  if truthy (g_title pdfExtractedData) && (10 <? length (g_title pdfExtractedData))
  then
    academicData <- searchAcademicDatabases (g_title pdfExtractedData) ;;
    match academicData with
    | Some academicData =>
        let journalName :=
          opt_or (a_journal academicData) (g_journal pdfExtractedData) in
        journalRankingTag <-
          (if truthy journalName && (0 <? length (trim journalName))
           then getJournalRankingTag journalName
           else ret None) ;;
        ret (merge academicData pdfExtractedData journalName journalRankingTag)
    | None => ret (of_guess pdfExtractedData)
    end
  else ret (of_guess pdfExtractedData).

(** The body of the [try] block. *)
Definition extract_body (env : Env) (file : File) : M Metadata :=
  pdf <- lift (load file) ;;
  info <- lift (getMetadata pdf) ;;
  fullText <- lift (read_pages pdf 1 (Nat.min 3 (numPages pdf)) []) ;;
  refine (guess (now env) info fullText).

Definition extractPDFMetadata_with (env : Env) (file : File) : M Metadata :=
  try_catch (extract_body env file) (fun _ => ret (default_record env)).

End Pipeline.

(** [extractPDFMetadata(file)] with the imports of the source. *)
Definition extractPDFMetadata (env : Env) (file : File) : M Metadata :=
  extractPDFMetadata_with (searchAcademicDatabases env)
                          (JournalRanking.getJournalRankingTag env) env file.

End PdfMetadata.

(* ================================================================== *)
(** * cerebrasService.js *)
(* ================================================================== *)

Module Cerebras.

Definition modelsToTry : list js_string :=
  [lit "llama-3.3-70b"; lit "llama3.1-70b"; lit "llama3.1-8b"].

Definition key_invalid : js_string := lit "API Key Invalid".

(** The number of a status in a template literal. *)
Definition decimal (z : Z) : js_string :=
  lit (DecimalString.NilEmpty.string_of_int (Z.to_int z)).

(** The message of the [TypeError] that reading the property [p] of [null]
    throws (the wording is V8's; the program only tests it for the phrase
    "API Key Invalid" and reports it as the last error). *)
Definition null_read (p : js_string) : js_string :=
  lit "Cannot read properties of null (reading '" ++ p ++ lit "')".

(** /\{[\s\S]*\}/ *)
Definition json_object : regex := seqs [chr 123; star any; chr 125].

(** How one turn of the loop ends without an exception. *)
Inductive turn (A : Type) : Type :=
| Continue : js_string -> turn A           (* [lastError] is set; [continue] *)
| Return : A -> turn A.
Arguments Continue {A} _.
Arguments Return {A} _.

Section Analyze.

(** [JSON.parse], and the values it builds. *)
Variable Json : Type.
Variable JSON_parse : js_string -> completion Json.

(** [errorData.error?.message], where [errorData] is the body of the
    response, or [{}] when it cannot be read.  When the body is [null] the
    read of [error] throws. *)
Definition error_message (response : Response) : completion (option js_string) :=
  match json response with
  | Normal (ErrorBody m) => Normal m
  | Normal NullBody => Throw (null_read (lit "error"))
  | _ => Normal None
  end.

(** The body of the [try] block, for one model. *)
Definition attempt (env : Env) (modelName : js_string) : M (turn Json) :=
  response <- fetch env (CerebrasChat modelName) ;;
  if negb (ok response) then
    if (status response =? 404)%Z || (status response =? 400)%Z
    then ret (Continue (lit "Model " ++ modelName ++ lit " not available"))
    else if (status response =? 401)%Z
    then
      message <- lift (error_message response) ;;
      throw (lit "API Key Invalid: " ++
             AcademicSearch.opt_or message
               (lit "Check your Cerebras API key in Settings"))
    else
      message <- lift (error_message response) ;;
      throw (lit "API Error " ++ decimal (status response) ++ lit ": " ++
             AcademicSearch.opt_or message (statusText response))
  else
    data <- lift (json response) ;;
    match data with
    | NullBody => throw (null_read (lit "choices"))
    | _ =>
        let responseText :=
          match data with
          | ChatBody c => AcademicSearch.opt_or c []
          | _ => []
          end in
        if negb (truthy responseText) then throw (lit "Empty response from Cerebras")
        else
          match js_match json_object responseText with
          | None => throw (lit "No JSON object found in Cerebras response")
          | Some jsonMatch =>
              parsed <- lift (JSON_parse (m_whole jsonMatch)) ;;
              ret (Return parsed)
          end
    end.

(** The [for] loop over the models. *)
Fixpoint try_models (env : Env) (models : list js_string)
    (lastError : option js_string) : M Json :=
  match models with
  | [] =>
      throw (lit "Failed to analyze paper with any Cerebras model. Last error: "
             ++ match lastError with
                | Some e => e
                | None => lit "undefined"
                end)
  | modelName :: models' =>
      fun log =>
        match attempt env modelName log with
        | (Normal (Return v), log') => (Normal v, log')
        | (Normal (Continue e), log') => try_models env models' (Some e) log'
        | (Throw e, log') =>
            if includes e key_invalid then (Throw e, log')
            else try_models env models' (Some e) log'
        end
  end.

Definition analyzePaperWithCerebras (env : Env) (text apiKey : js_string)
  : M Json :=
  if negb (truthy apiKey) then throw (lit "API Key is required")
  else try_models env modelsToTry None.

End Analyze.

End Cerebras.


(* ================================================================== *)
(** * doiLookup.js: formatDOIUrl and lookupDOI *)
(* ================================================================== *)

Module DoiUrl.

(** [doi.replace(/^https?:\/\/doi\.org\//, '').trim()] *)
Definition cleanDOI (doi : js_string) : js_string :=
  trim (replace_first DoiLookup.doi_org_prefix [] doi).

(** [formatDOIUrl(doi)] *)
Definition formatDOIUrl (doi : js_string) : js_string :=
  if truthy doi then lit "https://doi.org/" ++ cleanDOI doi else [].

End DoiUrl.

(** [encodeURIComponent] *)
Module Uri.

Definition is_high_surrogate (c : N) : bool := in_range 55296 56319 c.
Definition is_low_surrogate (c : N) : bool := in_range 56320 57343 c.

(** The text has no lone surrogate: [encodeURIComponent] throws a [URIError]
    exactly on the texts that have one. *)
Fixpoint well_formed (s : js_string) : bool :=
  match s with
  | [] => true
  | c :: t =>
      if is_high_surrogate c then
        match t with
        | d :: t' => is_low_surrogate d && well_formed t'
        | [] => false
        end
      else negb (is_low_surrogate c) && well_formed t
  end.

End Uri.

Module DoiNet.

Import AcademicSearch DoiUrl.

(** The answer of [api.crossref.org/works/<doi>]: its status and
    [data.message], the item, when the body can be read. *)
Record DoiResponse : Type := {
  d_status : Z;
  d_json : completion (option CrossRefItem)
}.

Definition d_ok (r : DoiResponse) : bool :=
  ((200 <=? d_status r) && (d_status r <=? 299))%Z.

Inductive DoiFetch : Type :=
| DoiNetworkError : js_string -> DoiFetch
| DoiResponded : DoiResponse -> DoiFetch.

(** The clock and what the service answers for the DOI of the URL. *)
Record DoiEnv : Type := {
  d_now : Z;
  d_net : js_string -> DoiFetch
}.

(** A computation that records the DOIs it asks for. *)
Definition DM (A : Type) : Type :=
  list js_string -> completion A * list js_string.

Definition d_ret {A} (a : A) : DM A := fun log => (Normal a, log).

Definition d_bind {A B} (m : DM A) (k : A -> DM B) : DM B :=
  fun log =>
    match m log with
    | (Normal a, log') => k a log'
    | (Throw e, log') => (Throw e, log')
    end.

Definition d_try_catch {A} (m : DM A) (h : js_string -> DM A) : DM A :=
  fun log =>
    match m log with
    | (Normal a, log') => (Normal a, log')
    | (Throw e, log') => h e log'
    end.

Definition d_lift {A} (c : completion A) : DM A := fun log => (c, log).

(** [encodeURIComponent(cleanDOI)], which throws on a lone surrogate before
    anything is sent, then [await fetch(url)]. *)
Definition d_fetch (env : DoiEnv) (doi : js_string) : DM DoiResponse :=
  fun log =>
    if negb (Uri.well_formed doi) then (Throw (lit "URI malformed"), log)
    else
      match d_net env doi with
      | DoiNetworkError e => (Throw e, log ++ [doi])
      | DoiResponded r => (Normal r, log ++ [doi])
      end.

(** The record [lookupDOI] builds. *)
Definition doi_record (env : DoiEnv) (cleanDOI : js_string) (item : CrossRefItem)
  : AcademicData :=
  {| a_title := Some (opt_or (cr_title0 item) []);
     a_authors :=
       Some (match cr_author item with
             | Some l => Heuristics.filter_truthy (List.map crossref_author l)
             | None => []
             end);
     a_year := Some (num_or (cr_year item) (d_now env));
     a_journal := Some (opt_or (cr_container0 item) []);
     a_abstract := Some (or_str (Abstract.cleanAbstract_opt (cr_abstract item)) []);
     a_doi := Some cleanDOI;
     a_type := Some (opt_or (cr_type item) (lit "journal-article"));
     a_volume := Some (opt_or (cr_volume item) []);
     a_issue := Some (opt_or (cr_issue item) []);
     a_pages := Some (opt_or (cr_page item) []);
     a_publisher := Some (opt_or (cr_publisher item) []);
     a_url := Some (opt_or (cr_URL item) (lit "https://doi.org/" ++ cleanDOI));
     a_issn := None;
     a_isbn := None;
     a_language := None;
     a_references := None;
     a_citations := None;
     a_source := Some (lit "CrossRef (DOI)") |}.

(** [lookupDOI(doi)] *)
Definition lookupDOI (env : DoiEnv) (doi : js_string) : DM (option AcademicData) :=
  if negb (truthy doi) || (length (trim doi) =? 0) then d_ret None
  else
    let cleanDOI := cleanDOI doi in
    d_try_catch
      (d_bind (d_fetch env cleanDOI) (fun response =>
       if negb (d_ok response) then d_ret None
       else
         d_bind (d_lift (d_json response)) (fun message =>
         match message with
         | None => d_ret None
         | Some item => d_ret (Some (doi_record env cleanDOI item))
         end)))
      (fun _ => d_ret None).

End DoiNet.

(* ================================================================== *)
(** * cerebrasService.js: enhanceSearchQuery *)
(* ================================================================== *)

Module QueryEnhancer.

(** The body of the [try] block, for one model: [None] is [continue], a
    string is what the function returns. *)
Definition enhance_attempt (env : Env) (modelName query : js_string)
  : M (option js_string) :=
  response <- fetch env (CerebrasChat modelName) ;;
  if negb (ok response) then
    if (status response =? 404)%Z || (status response =? 400)%Z
    then ret None
    else throw (lit "API Error: " ++ Cerebras.decimal (status response))
  else
    data <- lift (json response) ;;
    match data with
    | NullBody => throw (Cerebras.null_read (lit "choices"))
    | _ =>
        let enhancedQuery :=
          match data with
          | ChatBody (Some content) => trim content
          | _ => []
          end in
        if truthy enhancedQuery && (0 <? length enhancedQuery)
           && (length enhancedQuery <? 200)
        then ret (Some enhancedQuery)
        else ret (Some query)
    end.

(** The [for] loop: a [catch] clause that goes on to the next model. *)
Fixpoint enhance_models (env : Env) (models : list js_string) (query : js_string)
  : M js_string :=
  match models with
  | [] => ret query
  | modelName :: models' =>
      fun log =>
        match enhance_attempt env modelName query log with
        | (Normal (Some result), log') => (Normal result, log')
        | (Normal None, log') => enhance_models env models' query log'
        | (Throw _, log') => enhance_models env models' query log'
        end
  end.

Definition modelsToTry : list js_string :=
  [lit "llama-3.3-70b"; lit "llama3.1-70b"; lit "llama3.1-8b"].

(** [enhanceSearchQuery(apiKey, query)] *)
Definition enhanceSearchQuery (env : Env) (apiKey query : js_string) : M js_string :=
  if negb (truthy apiKey) then ret query
  else enhance_models env modelsToTry query.

End QueryEnhancer.

(* ================================================================== *)
(** * The application: the handlers of the library *)
(* ================================================================== *)

Module App.

Import AcademicSearch PdfMetadata.

(** A reference of the library, with the properties [handleFilesDrop] gives
    it.  [collectionIds] may be missing on a reference made elsewhere. *)
Record Reference : Type := {
  r_id : js_string;
  r_title : js_string;
  r_authors : list js_string;
  r_year : Z;
  r_journal : js_string;
  r_type : js_string;
  r_volume : js_string;
  r_issue : js_string;
  r_pages : js_string;
  r_publisher : js_string;
  r_doi : js_string;
  r_url : js_string;
  r_abstract : js_string;
  r_tags : list js_string;
  r_collectionIds : option (list js_string);
  r_pdfId : js_string;
  r_hasPDF : bool;
  r_isFavorite : bool;
  r_dateAdded : js_string
}.

Record Collection : Type := {
  c_id : js_string;
  c_name : js_string;
  c_color : js_string
}.

(** The state of [App] that the handlers below read or write. *)
Record AppState : Type := {
  references : list Reference;
  collections : list Collection;
  selectedCollection : option js_string;       (* [None] is [null] *)
  selectedReference : option Reference;
  isAddModalOpen : bool;
  droppedFiles : list File;
  currentFileIndex : nat
}.

(** [a !== b] on strings *)
Definition differs (a b : js_string) : bool := negb (str_eqb a b).

(** [deleteReference(id)] *)
Definition deleteReference (id : js_string) (s : AppState) : AppState :=
  {| references := List.filter (fun ref => differs (r_id ref) id) (references s);
     collections := collections s;
     selectedCollection := selectedCollection s;
     selectedReference :=
       match selectedReference s with
       | Some sel => if str_eqb (r_id sel) id then None else Some sel
       | None => None
       end;
     isAddModalOpen := isAddModalOpen s;
     droppedFiles := droppedFiles s;
     currentFileIndex := currentFileIndex s |}.

(** [{ ...ref, collectionIds: ref.collectionIds?.filter(cId => cId !== id) || [] }] *)
Definition without_collection (id : js_string) (ref : Reference) : Reference :=
  {| r_id := r_id ref; r_title := r_title ref; r_authors := r_authors ref;
     r_year := r_year ref; r_journal := r_journal ref; r_type := r_type ref;
     r_volume := r_volume ref; r_issue := r_issue ref; r_pages := r_pages ref;
     r_publisher := r_publisher ref; r_doi := r_doi ref; r_url := r_url ref;
     r_abstract := r_abstract ref; r_tags := r_tags ref;
     r_collectionIds :=
       Some (match r_collectionIds ref with
             | Some l => List.filter (fun cId => differs cId id) l
             | None => []
             end);
     r_pdfId := r_pdfId ref; r_hasPDF := r_hasPDF ref;
     r_isFavorite := r_isFavorite ref; r_dateAdded := r_dateAdded ref |}.

(** [deleteCollection(id)] *)
Definition deleteCollection (id : js_string) (s : AppState) : AppState :=
  {| references := List.map (without_collection id) (references s);
     collections := List.filter (fun c => differs (c_id c) id) (collections s);
     selectedCollection :=
       match selectedCollection s with
       | Some sel => if str_eqb sel id then None else Some sel
       | None => None
       end;
     selectedReference := selectedReference s;
     isAddModalOpen := isAddModalOpen s;
     droppedFiles := droppedFiles s;
     currentFileIndex := currentFileIndex s |}.

(** What [handleFilesDrop] cannot decide: the identifier and the date drawn
    in the iteration for the file of index [i], and whether the PDF can be
    stored under an identifier. *)
Record Browser : Type := {
  new_id : nat -> js_string;       (* Date.now().toString() + Math.random()... *)
  toISOString : nat -> js_string;  (* new Date().toISOString() *)
  savePDF : js_string -> File -> completion unit
}.

(** The object literal [reference] of [handleFilesDrop].  The record of
    [extractPDFMetadata] has no [volume], [issue], [pages], [publisher] or
    [url]: these read [undefined]. *)
Definition reference_of (env : Env) (file : File) (referenceId date : js_string)
    (metadata : Metadata) : Reference :=
  {| r_id := referenceId;
     r_title := or_str (title metadata) (replace_first_str (lit ".pdf") [] (name file));
     r_authors := match authors metadata with
                  | a :: l => a :: l
                  | [] => []
                  end;
     r_year := num_or (Some (year metadata)) (now env);
     r_journal := or_str (journal metadata) [];
     r_type := match enrichment metadata with
               | Some e => or_str (type e) (lit "Journal Article")
               | None => lit "Journal Article"
               end;
     r_volume := [];
     r_issue := [];
     r_pages := [];
     r_publisher := [];
     r_doi := or_str (doi metadata) [];
     r_url := [];
     r_abstract := or_str (abstract metadata) [];
     r_tags := match enrichment metadata with
               | Some e =>
                   match journalRanking e with
                   | Some tag => if truthy tag then [tag] else []
                   | None => []
                   end
               | None => []
               end;
     r_collectionIds := Some [];
     r_pdfId := referenceId;
     r_hasPDF := true;
     r_isFavorite := false;
     r_dateAdded := date |}.

(** One iteration of the loop: the body of the [try] block and its [catch]
    clause, on the references so far. *)
Definition drop_file (env : Env) (b : Browser) (i : nat) (file : File)
    (prev : list Reference) : M (list Reference) :=
  try_catch
    (let referenceId := new_id b i in
     bind (lift (savePDF b referenceId file)) (fun _ =>
     metadata <- extractPDFMetadata env file ;;
     ret (reference_of env file referenceId (toISOString b i) metadata :: prev)))
    (fun _ => ret prev).

Fixpoint drop_files (env : Env) (b : Browser) (i : nat) (files : list File)
    (prev : list Reference) : M (list Reference) :=
  match files with
  | [] => ret prev
  | file :: files' =>
      prev' <- drop_file env b i file prev ;;
      drop_files env b (S i) files' prev'
  end.

(** [handleFilesDrop(files)] *)
Definition handleFilesDrop (env : Env) (b : Browser) (files : list File)
    (s : AppState) : M AppState :=
  refs <- drop_files env b 0 files (references s) ;;
  ret {| references := refs;
         collections := collections s;
         selectedCollection := selectedCollection s;
         selectedReference := selectedReference s;
         isAddModalOpen := false;
         droppedFiles := [];
         currentFileIndex := 0 |}.

End App.

(* ================================================================== *)
(** * Vocabulary of the specification *)
(* ================================================================== *)

Module Spec.

Import AcademicSearch Heuristics PdfMetadata.

(** What a computation returns when it is run on its own. *)
Definition answer {A} (m : M A) : completion A := fst (m []).

(** A statistic that is a number above [q]. *)
Definition exceeds (v : jsnum) (q : Q) : Prop :=
  exists x, v = NNum x /\ (q < x)%Q.

(** A property of a record that is there and not empty: a non-empty string, a
    non-empty list, a year other than 0. *)
Definition present_str (o : option js_string) : Prop :=
  exists c s, o = Some (c :: s).
Definition present_list (o : option (list js_string)) : Prop :=
  exists x l, o = Some (x :: l).
Definition present_num (o : option Z) : Prop :=
  exists n, o = Some n /\ n <> 0%Z.

(** ** Regular expressions, declaratively *)

(** Zero or more steps of a relation. *)
Inductive steps (R : mstate -> mstate -> Prop) : mstate -> mstate -> Prop :=
| steps_nil : forall st, steps R st st
| steps_cons : forall st st1 st', R st st1 -> steps R st1 st' -> steps R st st'.

(** [denotes r st st']: the regex [r] can take the matcher from [st] to
    [st'], whatever the order in which the alternatives are tried. *)
Fixpoint denotes (r : regex) (st st' : mstate) : Prop :=
  match r with
  | Eps => st' = st
  | Chr p =>
      exists c t, rest st = c :: t /\ p c = true
                  /\ st' = MState (c :: seen st) t (cap st)
  | Seq a b => exists st1, denotes a st st1 /\ denotes b st1 st'
  | Alt a b => denotes a st st' \/ denotes b st st'
  | Star _ a => steps (denotes a) st st'
  | Group a =>
      exists st1, denotes a st st1
                  /\ st' = MState (seen st1) (rest st1) (Some (consumed st st1))
  | WordB => at_word_boundary st = true /\ st' = st
  | Bol => seen st = [] /\ st' = st
  | Eol => rest st = [] /\ st' = st
  | Look a =>
      exists st1, denotes a st st1
                  /\ st' = MState (seen st) (rest st) (cap st1)
  end.

(** Every code unit of [w] is in the class [p]. *)
Definition all_in (p : N -> bool) (w : js_string) : Prop :=
  Forall (fun c => p c = true) w.

(** The class [p] cannot take the next code unit of [rs]. *)
Definition blocked (p : N -> bool) (rs : js_string) : Prop :=
  match rs with
  | [] => True
  | c :: _ => p c = false
  end.

(** [w] is what lies between two positions of the matcher. *)
Definition passes (w : js_string) (st st' : mstate) : Prop :=
  rest st = w ++ rest st'.

(** The first match of [r] on the input [rs], with the group in state [k],
    leaves [rs'] ahead and the group in state [k'], whatever was passed
    before. *)
Definition lands (r : regex) (rs : js_string) (k : option js_string)
    (rs' : js_string) (k' : option js_string) : Prop :=
  forall sn, exists sn',
    hd_error (run r (MState sn rs k)) = Some (MState sn' rs' k').

(** ** DOIs *)

Definition not_space (c : N) : bool := negb (is_space c).

(** The whole of [d] matches [10\.\d{4,}/\S+]. *)
Definition is_doi (d : js_string) : Prop :=
  exists ds suffix,
    d = lit "10." ++ ds ++ [47%N] ++ suffix
    /\ 4 <= length ds /\ all_in is_digit ds
    /\ suffix <> [] /\ all_in not_space suffix.

(** The same with a suffix that may be empty: [10\.\d{4,}/\S*]. *)
Definition is_doi_stem (d : js_string) : Prop :=
  exists ds suffix,
    d = lit "10." ++ ds ++ [47%N] ++ suffix
    /\ 4 <= length ds /\ all_in is_digit ds /\ all_in not_space suffix.

(** One of [. , ; : ! ?] *)
Definition is_punct (c : N) : bool := existsb (N.eqb c) (lit ".,;:!?").

(** [d] without its last code unit when that is a punctuation mark. *)
Definition strip_punct (d : js_string) : js_string :=
  match rev d with
  | c :: t => if is_punct c then rev t else d
  | [] => d
  end.

(** The last code unit of [d] is a punctuation mark. *)
Definition ends_with_punct (d : js_string) : Prop :=
  exists d' c, d = d' ++ [c] /\ is_punct c = true.

(** ** Sorted lists *)

(** The head of a list dominates it. *)
Definition headed (l : list Z) : Prop :=
  match l with
  | [] => True
  | y :: _ => forall x, In x l -> (x <= y)%Z
  end.

(** ** Plain text *)

(** [e] occurs in [y]. *)
Definition occurs (e y : js_string) : Prop := exists a b, y = a ++ e ++ b.

(** [y] has a tag: a "<", then at least one code unit and none that is ">",
    then a ">". *)
Definition has_tag (y : js_string) : Prop :=
  exists a body b,
    y = a ++ [60%N] ++ body ++ [62%N] ++ b /\ body <> [] /\ ~ In 62%N body.

(** The five entities [cleanAbstract] decodes. *)
Definition entities : list js_string :=
  [lit "&lt;"; lit "&gt;"; lit "&amp;"; lit "&quot;"; lit "&apos;"].

(** A text with no tag and none of the five entities. *)
Definition plain (y : js_string) : Prop :=
  ~ has_tag y /\ forall e, In e entities -> ~ occurs e y.

(** Every run of white space becomes one space; [in_run] says that the code
    unit before was white space. *)
Fixpoint collapse_aux (in_run : bool) (s : js_string) : js_string :=
  match s with
  | [] => []
  | c :: t =>
      if is_space c
      then if in_run then collapse_aux true t else 32%N :: collapse_aux true t
      else c :: collapse_aux false t
  end.

Definition collapse (s : js_string) : js_string := collapse_aux false s.

(** The white space of [y] is single spaces. *)
Fixpoint clean (y : js_string) : Prop :=
  match y with
  | [] => True
  | c :: t => (is_space c = true -> c = 32%N /\ blocked is_space t) /\ clean t
  end.

(** What the [try] block reads from the file before the heuristics run: the
    embedded metadata and the text of the first pages. *)
Definition read_document (file : File) : completion (PdfInfo * js_string) :=
  match load file with
  | Throw e => Throw e
  | Normal pdf =>
      match getMetadata pdf with
      | Throw e => Throw e
      | Normal info =>
          match read_pages pdf 1 (Nat.min 3 (numPages pdf)) [] with
          | Throw e => Throw e
          | Normal fullText => Normal (info, fullText)
          end
      end
  end.

(** The model is not available: the service answers 400 or 404. *)
Definition unavailable (env : Env) (modelName : js_string) : Prop :=
  exists r, net env (CerebrasChat modelName) = Responded r
            /\ (status r = 400 \/ status r = 404)%Z.

(** The credential is refused: the service answers 401. *)
Definition refused (env : Env) (modelName : js_string) : Prop :=
  exists r, net env (CerebrasChat modelName) = Responded r /\ status r = 401%Z.

(** The error of a refused credential. *)
Definition invalid_credential (e : js_string) : Prop :=
  exists detail, e = lit "API Key Invalid: " ++ detail.

End Spec.

(* ================================================================== *)
(** * Sample inputs *)
(* ================================================================== *)

Module Samples.

Import AcademicSearch Heuristics PdfMetadata.

(** A network where nothing answers. *)
Definition offline (year : Z) : Env :=
  {| now := year; net := fun _ => NetworkError (lit "Failed to fetch") |}.

(** A response with a status and a body. *)
Definition respond (code : Z) (body : Body) : FetchOutcome :=
  Responded {| status := code; statusText := []; json := Normal body |}.

(** A source with citedness 3.0, h-index 10 and a given works count. *)
Definition sample_source (works : Q) : OpenAlexSourceRec :=
  {| summary_stats := Some {| mean_citedness_2yr := NNum 3; h_index := NNum 10 |};
     works_count := NNum works |}.

Definition sample_env (works : Q) : Env :=
  {| now := 2024;
     net := fun _ => respond 200 (OpenAlexSourcesBody (Some [sample_source works])) |}.

(** A network where only OpenAlex knows the paper. *)
Definition only_openalex (work : OpenAlexWork) : Env :=
  {| now := 2024;
     net := fun req =>
              match req with
              | OpenAlexByTitle _ => respond 200 (OpenAlexWorksBody (Some [work]))
              | _ => NetworkError (lit "Failed to fetch")
              end |}.

Definition bare_work : OpenAlexWork :=
  {| oa_title := Some (lit "A study of things");
     oa_authorships := None; oa_publication_year := None; oa_source_name := None;
     oa_abstract_inverted_index := None; oa_doi := None; oa_type := None;
     oa_volume := None; oa_issue := None; oa_first_page := None;
     oa_last_page := None; oa_host_organization_name := None;
     oa_landing_page_url := None; oa_issn_l := None; oa_language := None;
     oa_referenced_works_count := None; oa_cited_by_count := None |}.

(** The first model is not found and the others refuse the credential. *)
Definition second_refuses : Env :=
  {| now := 2024;
     net := fun req =>
              match req with
              | CerebrasChat m =>
                  if str_eqb m (lit "llama-3.3-70b")
                  then respond 404 (ErrorBody None)
                  else respond 401 (ErrorBody (Some (lit "Wrong API key")))
              | _ => NetworkError (lit "Failed to fetch")
              end |}.

(** A PDF without pages whose embedded metadata give a title and the
    creation date of 2020. *)
Definition titled (t : js_string) : File :=
  {| name := lit "paper.pdf";
     load := Normal
       {| numPages := 0;
          getMetadata := Normal {| Title := Some t; Author := None;
                                   CreationDate := Some (lit "D:20200101000000") |};
          getPage := fun _ => Normal [] |} |}.

(** Embedded metadata with no entry. *)
Definition no_info : PdfInfo :=
  {| Title := None; Author := None; CreationDate := None |}.

(** A PDF that cannot be opened. *)
Definition corrupt : File :=
  {| name := lit "broken.pdf"; load := Throw (lit "Invalid PDF structure") |}.

(** The academic hit of the merge example: a title and a DOI, no year. *)
Definition hit_T2 : AcademicData :=
  {| a_title := Some (lit "T2"); a_authors := None; a_year := None;
     a_journal := None; a_abstract := None; a_doi := Some (lit "10.1/x");
     a_type := None; a_volume := None; a_issue := None; a_pages := None;
     a_publisher := None; a_url := None; a_issn := None; a_isbn := None;
     a_language := None; a_references := None; a_citations := None;
     a_source := None |}.

(** A search that always finds [hit_T2]. *)
Definition always_hit_T2 : js_string -> M (option AcademicData) :=
  fun _ => ret (Some hit_T2).

(** A work whose DOI the service reports with another URL scheme. *)
Definition http_doi_work : OpenAlexWork :=
  {| oa_title := Some (lit "A study of things");
     oa_authorships := None; oa_publication_year := None; oa_source_name := None;
     oa_abstract_inverted_index := None;
     oa_doi := Some (lit "http://doi.org/10.1234/ab");
     oa_type := None;
     oa_volume := None; oa_issue := None; oa_first_page := None;
     oa_last_page := None; oa_host_organization_name := None;
     oa_landing_page_url := None; oa_issn_l := None; oa_language := None;
     oa_referenced_works_count := None; oa_cited_by_count := None |}.

End Samples.

(* ================================================================== *)
(** * Further vocabulary *)
(* ================================================================== *)

Module Notions.

Import AcademicSearch Heuristics PdfMetadata Spec.

(** [a] begins [s]. *)
Definition prefix_of {A} (a s : list A) : Prop := exists b, s = a ++ b.

(** The states a greedy [[\s\S]*] offers, the longest match first. *)
Fixpoint suffix_states (sn rs : js_string) (k : option js_string) : list mstate :=
  match rs with
  | [] => [MState sn [] k]
  | c :: t => suffix_states (c :: sn) t k ++ [MState sn rs k]
  end.

(** The states a greedy [p*] offers on the run [w] of the class [p], which
    [rs] follows, the longest match first. *)
Fixpoint run_states (sn w rs : js_string) (k : option js_string) : list mstate :=
  match w with
  | [] => [MState sn rs k]
  | c :: t => run_states (c :: sn) t rs k ++ [MState sn (w ++ rs) k]
  end.

(** ** Where a text holds a DOI *)

(** [w] is the lower-case text [s] written in any case of its ASCII letters:
    what a pattern under the [i] flag (without the [u] flag) takes for [s].
    No code unit outside ASCII stands for an ASCII letter there. *)
Definition in_any_case (s w : js_string) : Prop := List.map lower w = s.

(** After [pre], the text has the marker "doi:", in any case of its letters,
    then white space or none, then [d]: a DOI that runs up to the next white
    space or to the end of the text. *)
Definition doi_after_marker (text pre d : js_string) : Prop :=
  exists w ws post,
    text = pre ++ w ++ ws ++ d ++ post
    /\ in_any_case (lit "doi:") w
    /\ all_in is_space ws
    /\ is_doi d
    /\ blocked not_space post.

(** After [pre], the text has "http://doi.org/" or "https://doi.org/", in
    any case of its letters, and then [d]: a DOI that runs up to the next
    white space or to the end of the text. *)
Definition doi_in_url (text pre d : js_string) : Prop :=
  exists w post,
    text = pre ++ w ++ d ++ post
    /\ (in_any_case (lit "http://doi.org/") w
        \/ in_any_case (lit "https://doi.org/") w)
    /\ is_doi d
    /\ blocked not_space post.

(** The last code unit of [s] is a letter, a digit or an underscore. *)
Definition ends_in_word (s : js_string) : Prop :=
  exists s' c, s = s' ++ [c] /\ is_word c = true.

(** Neither white space nor a letter, a digit or an underscore. *)
Definition is_mark (c : N) : bool := not_space c && negb (is_word c).

(** After [pre], which does not end with a letter, a digit or an underscore,
    the text has [d]: a DOI that ends with a letter, a digit or an
    underscore, and is followed up to the next white space or the end of the
    text by code units that are none of these. *)
Definition bare_doi (text pre d : js_string) : Prop :=
  exists tail post,
    text = pre ++ d ++ tail ++ post
    /\ ~ ends_in_word pre
    /\ is_doi d
    /\ ends_in_word d
    /\ all_in is_mark tail
    /\ blocked not_space post.

(** Of the places [pre] where a text holds some [d], the first one. *)
Definition first_of (holds : js_string -> js_string -> Prop)
    (pre d : js_string) : Prop :=
  holds pre d
  /\ forall pre' d',
       holds pre' d' ->
       length pre <= length pre' /\ (length pre' = length pre -> d' = d).

(** The call for a model fails: the network fails, the status is not a
    success, or the body cannot be read. *)
Definition fails (env : Env) (modelName : js_string) : Prop :=
  (exists e, net env (CerebrasChat modelName) = NetworkError e)
  \/ (exists r, net env (CerebrasChat modelName) = Responded r
                /\ (ok r = false \/ exists e, json r = Throw e)).

(** The call for a model succeeds with a body. *)
Definition answers (env : Env) (modelName : js_string) (body : Body) : Prop :=
  exists r, net env (CerebrasChat modelName) = Responded r
            /\ ok r = true /\ json r = Normal body.

(** An enhanced query that [enhanceSearchQuery] accepts. *)
Definition usable (q : js_string) : Prop :=
  q <> [] /\ length q < 200 /\ trim q = q.

(** The credential is refused (401) and the body of the answer is the JSON
    value [null]. *)
Definition refused_with_null (env : Env) (modelName : js_string) : Prop :=
  exists r, net env (CerebrasChat modelName) = Responded r
            /\ status r = 401%Z /\ json r = Normal NullBody.

(** A request gets no usable answer: the network fails, the status is not a
    success, or the body cannot be read. *)
Definition no_answer (env : Env) (req : Request) : Prop :=
  (exists e, net env req = NetworkError e)
  \/ (exists r, net env req = Responded r
                /\ (ok r = false \/ exists e, json r = Throw e)).

(** An inverted index of a text: every position it lists for a word holds
    that word in the text, and every position of the text is listed. *)
Definition consistent (words : list js_string)
    (idx : list (js_string * list nat)) : Prop :=
  forall w ps p, In (w, ps) idx -> In p ps -> nth_error words p = Some w.

Definition covering (words : list js_string)
    (idx : list (js_string * list nat)) : Prop :=
  forall p, p < length words -> exists w ps, In (w, ps) idx /\ In p ps.

(** The word at a position of the growing array, when one was put there. *)
Definition cell (ws : list (option js_string)) (p : nat) : option js_string :=
  match nth_error ws p with
  | Some (Some w) => Some w
  | _ => None
  end.

(** The lower-case names that every object of JavaScript inherits: a table
    written as an object literal answers for them too. *)
Definition inherited (s : js_string) : Prop :=
  s = lit "constructor" \/ s = lit "__proto__".

(** A text of ASCII code units: on such a text [toLowerCase] changes the
    letters A to Z and nothing else (outside ASCII it has other mappings,
    such as the Kelvin sign to "k"), and the text can be encoded in a URL. *)
Definition is_ascii (s : js_string) : Prop := all_in (fun c => (c <? 128)%N) s.

(** The grades of a journal. *)
Definition quartiles : list js_string :=
  [JournalRanking.Q1; JournalRanking.Q2; JournalRanking.Q3; JournalRanking.Q4].

(** The first key of the table of known journals. *)
Definition nature : js_string := lit "nature".

(** The states a lazy [[\s\S]*] offers, the shortest match first. *)
Fixpoint prefix_states (sn rs : js_string) (k : option js_string) : list mstate :=
  MState sn rs k ::
  match rs with
  | [] => []
  | c :: t => prefix_states (c :: sn) t k
  end.

(** A regex that looks neither behind nor ahead and has no group. *)
Fixpoint plain_regex (r : regex) : bool :=
  match r with
  | Eps | Chr _ | Eol => true
  | Seq a b | Alt a b => plain_regex a && plain_regex b
  | Star _ a => plain_regex a
  | Group _ | WordB | Bol | Look _ => false
  end.

(** The state [st] seen from further on: after [sn] was passed, with the
    group in state [k]. *)
Definition moved (sn : js_string) (k : option js_string) (st : mstate) : mstate :=
  MState (seen st ++ sn) (rest st) k.

(** [r] matches at the start of [rs]. *)
Definition ahead (r : regex) (rs : js_string) : bool :=
  match match_at r [] rs with Some _ => true | None => false end.

(** What ends an abstract: [\n\s*\n|introduction|keywords|1\.|references]
    under the [i] flag. *)
Definition abstract_stop : regex :=
  Alt Heuristics.blank_line
 (Alt (str_i (lit "introduction"))
 (Alt (str_i (lit "keywords"))
 (Alt (str (lit "1."))
      (str_i (lit "references"))))).

(** No position of [body] is one where the abstract ends, [tail] being what
    follows the body. *)
Fixpoint stop_free (body tail : js_string) : bool :=
  match body with
  | [] => true
  | _ :: body' => negb (ahead abstract_stop (body ++ tail)) && stop_free body' tail
  end.

(** The identifiers of the files that can be stored, from the index [i] on. *)
Fixpoint stored_ids (b : App.Browser) (i : nat) (files : list File) : list js_string :=
  match files with
  | [] => []
  | file :: files' =>
      match App.savePDF b (App.new_id b i) file with
      | Normal _ => App.new_id b i :: stored_ids b (S i) files'
      | Throw _ => stored_ids b (S i) files'
      end
  end.

(** What every reference made from a dropped file has. *)
Definition fresh_reference (r : App.Reference) : Prop :=
  App.r_pdfId r = App.r_id r
  /\ App.r_hasPDF r = true
  /\ App.r_isFavorite r = false
  /\ App.r_collectionIds r = Some []
  /\ App.r_volume r = [] /\ App.r_issue r = [] /\ App.r_pages r = []
  /\ App.r_publisher r = [] /\ App.r_url r = []
  /\ App.r_type r <> []
  /\ length (App.r_tags r) <= 1.

End Notions.

Module Inputs.

Import AcademicSearch Heuristics PdfMetadata Spec Samples DoiNet.

(** A CrossRef item with a title only. *)
Definition titled_item : CrossRefItem :=
  {| cr_title0 := Some (lit "A study of things"); cr_author := None;
     cr_year := None; cr_container0 := None; cr_abstract := None;
     cr_DOI := Some (lit "10.9999/other"); cr_type := None; cr_volume := None;
     cr_issue := None; cr_page := None; cr_publisher := None; cr_URL := None;
     cr_ISSN0 := None; cr_ISBN0 := None; cr_language := None;
     cr_references_count := None; cr_is_referenced_by_count := None |}.

(** A DOI service that knows every DOI as [titled_item]. *)
Definition doi_service : DoiEnv :=
  {| d_now := 2024;
     d_net := fun _ => DoiResponded {| d_status := 200;
                                       d_json := Normal (Some titled_item) |} |}.

(** Every model answers with the same text. *)
Definition chat (content : js_string) : Env :=
  {| now := 2024; net := fun _ => respond 200 (ChatBody (Some content)) |}.

(** The first model refuses the credential with the body [null]; the others
    answer with a JSON object. *)
Definition null_refusal : Env :=
  {| now := 2024;
     net := fun req =>
              match req with
              | CerebrasChat m =>
                  if str_eqb m (lit "llama-3.3-70b")
                  then Responded {| status := 401; statusText := lit "Unauthorized";
                                    json := Normal NullBody |}
                  else respond 200 (ChatBody (Some (lit "{}")))
              | _ => NetworkError (lit "Failed to fetch")
              end |}.

(** An item of type "journal-article", in volume 12. *)
Definition typed_item : CrossRefItem :=
  {| cr_title0 := Some (lit "A study of things"); cr_author := None;
     cr_year := None; cr_container0 := None; cr_abstract := None;
     cr_DOI := Some (lit "10.9999/other");
     cr_type := Some (lit "journal-article"); cr_volume := Some (lit "12");
     cr_issue := None; cr_page := None; cr_publisher := None; cr_URL := None;
     cr_ISSN0 := None; cr_ISBN0 := None; cr_language := None;
     cr_references_count := None; cr_is_referenced_by_count := None |}.

(** A network where CrossRef finds [typed_item] for every title and nothing
    else answers. *)
Definition crossref_knows : Env :=
  {| now := 2024;
     net := fun req =>
              match req with
              | CrossRefByTitle _ => respond 200 (CrossRefBody (Some [typed_item]))
              | _ => NetworkError (lit "Failed to fetch")
              end |}.

(** A source whose citedness is the JSON value [null], with h-index 200
    and 500 works. *)
Definition null_citedness_source : OpenAlexSourceRec :=
  {| summary_stats := Some {| mean_citedness_2yr := NNull; h_index := NNum 200 |};
     works_count := NNum 500 |}.

Definition null_citedness_env : Env :=
  {| now := 2024;
     net := fun _ => respond 200 (OpenAlexSourcesBody (Some [null_citedness_source])) |}.

(** Every model answers with the same status and no readable body. *)
Definition always_status (code : Z) : Env :=
  {| now := 2024;
     net := fun _ => Responded {| status := code; statusText := [];
                                  json := Throw (lit "Unexpected end of JSON input") |} |}.

(** The inverted index of "the cat saw the dog". *)
Definition cat_index : list (js_string * list nat) :=
  [ (lit "the", [0; 3]); (lit "cat", [1]); (lit "saw", [2]); (lit "dog", [4]) ].

(** A browser that counts the files and stores every PDF but those named
    "locked.pdf". *)
Definition counting_browser : App.Browser :=
  {| App.new_id := fun i => lit "id" ++ Cerebras.decimal (Z.of_nat i);
     App.toISOString := fun _ => lit "2024-05-01T00:00:00.000Z";
     App.savePDF := fun _ file =>
       if str_eqb (name file) (lit "locked.pdf")
       then Throw (lit "QuotaExceededError") else Normal tt |}.

Definition locked : File :=
  {| name := lit "locked.pdf"; load := Throw (lit "Invalid PDF structure") |}.

(** A library with nothing in it. *)
Definition empty_library : App.AppState :=
  {| App.references := []; App.collections := []; App.selectedCollection := None;
     App.selectedReference := None; App.isAddModalOpen := true;
     App.droppedFiles := [corrupt]; App.currentFileIndex := 0 |}.

End Inputs.

(* ================================================================== *)
(** * Facts about the matcher *)
(* ================================================================== *)

Module ReFacts.

Import Spec Notions.

(** ** Every match of the matcher is a match of the declarative reading *)

Lemma star_loop_sound (step : mstate -> list mstate) (R : mstate -> mstate -> Prop) :
  (forall s s', In s' (step s) -> R s s') ->
  forall greedy n st st',
    In st' (star_loop step greedy n st) -> steps R st st'.
Proof.
  intros Hstep greedy n. induction n as [|n IH]; intros st st' Hin.
  - destruct Hin as [<- | []]. constructor.
  - simpl in Hin.
    assert (Hcases : st' = st \/
              In st' (flat_map
                        (fun s => if length (rest s) <? length (rest st)
                                  then star_loop step greedy n s else [])
                        (step st))).
    { destruct greedy.
      - apply in_app_or in Hin. destruct Hin as [H | [<- | []]]; auto.
      - destruct Hin as [<- | H]; auto. }
    destruct Hcases as [-> | H]; [constructor|].
    apply in_flat_map in H. destruct H as (s & Hs & Hin').
    destruct (length (rest s) <? length (rest st)); [|contradiction].
    apply steps_cons with (st1 := s); auto.
Qed.

Lemma run_sound : forall r st st', In st' (run r st) -> denotes r st st'.
Proof.
  induction r as [|p|a IHa b IHb|a IHa b IHb|g a IHa|a IHa| | | |a IHa];
    intros st st' Hin; simpl in *.
  - destruct Hin as [<- | []]. reflexivity.
  - destruct (rest st) as [|c t] eqn:Hr; [contradiction|].
    destruct (p c) eqn:Hp; [|contradiction].
    destruct Hin as [<- | []]. now exists c, t.
  - apply in_flat_map in Hin. destruct Hin as (s & Hs & Hin). eauto.
  - apply in_app_or in Hin. destruct Hin; auto.
  - eapply star_loop_sound; [|exact Hin]. exact IHa.
  - apply in_map_iff in Hin. destruct Hin as (s & <- & Hs). eauto.
  - destruct (at_word_boundary st); [|contradiction].
    destruct Hin as [<- | []]. auto.
  - destruct (seen st); [|contradiction]. destruct Hin as [<- | []]. auto.
  - destruct (rest st); [|contradiction]. destruct Hin as [<- | []]. auto.
  - destruct (run a st) as [|s l] eqn:Hrun; [contradiction|].
    destruct Hin as [<- | []]. exists s. split; [|reflexivity].
    apply IHa. rewrite Hrun. now left.
Qed.

(** What a star over a class of code units can pass. *)
Lemma steps_class p st st' :
  steps (denotes (Chr p)) st st' ->
  exists w, all_in p w /\ rest st = w ++ rest st'
            /\ seen st' = rev w ++ seen st /\ cap st' = cap st.
Proof.
  induction 1 as [st | st st1 st' Hstep _ IH].
  - exists []. repeat split. constructor.
  - destruct Hstep as (c & t & Hr & Hp & ->).
    destruct IH as (w & Hw & Hrest & Hseen & Hcap). simpl in *.
    exists (c :: w). repeat split.
    + now constructor.
    + rewrite Hr, Hrest. reflexivity.
    + rewrite Hseen. simpl. now rewrite <- app_assoc.
    + exact Hcap.
Qed.

(** ** The first match *)

Lemma first_seq a b st st1 st' :
  hd_error (run a st) = Some st1 ->
  hd_error (run b st1) = Some st' ->
  hd_error (run (Seq a b) st) = Some st'.
Proof.
  simpl. destruct (run a st) as [|x l]; simpl; [discriminate|].
  intros [= ->]. destruct (run b st1); simpl; [discriminate|]. auto.
Qed.

Lemma first_chr p c sn t k :
  p c = true ->
  hd_error (run (Chr p) (MState sn (c :: t) k)) = Some (MState (c :: sn) t k).
Proof. intro H. simpl. now rewrite H. Qed.

Lemma first_grouped a st st1 :
  hd_error (run a st) = Some st1 ->
  hd_error (run (Group a) st)
  = Some (MState (seen st1) (rest st1) (Some (consumed st st1))).
Proof. simpl. destruct (run a st); simpl; [discriminate|]. now intros [= ->]. Qed.

Lemma none_seq a b st : run a st = [] -> run (Seq a b) st = [].
Proof. simpl. now intros ->. Qed.

Lemma none_chr p sn rs k : blocked p rs -> run (Chr p) (MState sn rs k) = [].
Proof. destruct rs as [|c t]; simpl; [reflexivity|]. now intros ->. Qed.

Lemma star_loop_S step greedy n st :
  star_loop step greedy (S n) st
  = let more :=
      flat_map (fun st' => if length (rest st') <? length (rest st)
                           then star_loop step greedy n st' else [])
               (step st) in
    if greedy then more ++ [st] else st :: more.
Proof. reflexivity. Qed.

Lemma run_chr_cons p sn c t k :
  run (Chr p) (MState sn (c :: t) k)
  = if p c then [MState (c :: sn) t k] else [].
Proof. reflexivity. Qed.

(** A greedy star over a class first passes the longest run of the class. *)
Lemma star_loop_class_first p w :
  all_in p w ->
  forall n sn rs k,
    blocked p rs ->
    length (w ++ rs) <= n ->
    hd_error (star_loop (run (Chr p)) true n (MState sn (w ++ rs) k))
    = Some (MState (rev w ++ sn) rs k).
Proof.
  induction 1 as [|c w Hc Hw IH]; intros n sn rs k Hb Hn.
  - simpl app. destruct n as [|n]; [reflexivity|].
    rewrite star_loop_S, none_chr by exact Hb. reflexivity.
  - destruct n as [|n]; [simpl in Hn; lia|].
    rewrite star_loop_S. simpl app. rewrite run_chr_cons, Hc.
    cbv zeta. cbn [flat_map rest]. rewrite app_nil_r.
    assert (Hlt : (length (w ++ rs) <? length (c :: w ++ rs)) = true).
    { apply Nat.ltb_lt. simpl. lia. }
    rewrite Hlt.
    specialize (IH n (c :: sn) rs k Hb).
    assert (Hn' : length (w ++ rs) <= n) by (simpl in Hn; lia).
    specialize (IH Hn').
    destruct (star_loop (run (Chr p)) true n (MState (c :: sn) (w ++ rs) k));
      simpl in *; [discriminate|].
    rewrite IH. simpl. now rewrite <- app_assoc.
Qed.

Lemma first_star_class p w sn rs k :
  all_in p w ->
  blocked p rs ->
  hd_error (run (Star true (Chr p)) (MState sn (w ++ rs) k))
  = Some (MState (rev w ++ sn) rs k).
Proof.
  intros Hw Hb. cbn [run rest].
  now apply star_loop_class_first.
Qed.

(** ** What the pieces of the patterns pass *)

Lemma passes_trans w1 w2 st st1 st' :
  passes w1 st st1 -> passes w2 st1 st' -> passes (w1 ++ w2) st st'.
Proof. unfold passes. intros -> ->. now rewrite app_assoc. Qed.

Lemma consumed_passes w st st' : passes w st st' -> consumed st st' = w.
Proof.
  unfold passes, consumed. intros ->. rewrite length_app.
  replace (length w + length (rest st') - length (rest st')) with (length w) by lia.
  rewrite firstn_app, firstn_all, Nat.sub_diag. simpl. apply app_nil_r.
Qed.

Lemma denotes_class p st st' :
  denotes (Chr p) st st' -> exists c, p c = true /\ passes [c] st st'.
Proof. intros (c & t & Hr & Hp & ->). exists c. split; [exact Hp | exact Hr]. Qed.

Lemma denotes_chr c st st' : denotes (chr c) st st' -> passes [c] st st'.
Proof.
  intro H. apply denotes_class in H. destruct H as (x & Hx & Hp).
  apply N.eqb_eq in Hx. now subst.
Qed.

Lemma denotes_star_class g p st st' :
  denotes (Star g (Chr p)) st st' -> exists w, all_in p w /\ passes w st st'.
Proof.
  intro H. apply steps_class in H. destruct H as (w & Hw & Hr & _).
  now exists w.
Qed.

Lemma denotes_str s : forall st st', denotes (str s) st st' -> passes s st st'.
Proof.
  induction s as [|c s IH]; intros st st' H.
  - simpl in H. subst. reflexivity.
  - destruct s as [|c' s'].
    + now apply denotes_chr.
    + change (str (c :: c' :: s')) with (Seq (chr c) (str (c' :: s'))) in H.
      destruct H as (st1 & H1 & H2).
      apply (passes_trans (w1 := [c]) (st1 := st1)); [now apply denotes_chr | now apply IH].
Qed.

Lemma denotes_times p n : forall st st',
  denotes (times n (Chr p)) st st' ->
  exists w, length w = n /\ all_in p w /\ passes w st st'.
Proof.
  induction n as [|n IH]; intros st st' H.
  - simpl in H. subst. exists []. repeat split. constructor.
  - destruct n as [|n'].
    + apply denotes_class in H. destruct H as (c & Hc & Hp).
      exists [c]. repeat split; [|exact Hp]. now repeat constructor.
    + change (times (S (S n')) (Chr p))
        with (Seq (Chr p) (times (S n') (Chr p))) in H.
      destruct H as (st1 & H1 & H2).
      apply denotes_class in H1. destruct H1 as (c & Hc & Hp1).
      apply IH in H2. destruct H2 as (w & Hlen & Hw & Hp2).
      exists (c :: w). repeat split.
      * simpl. now rewrite Hlen.
      * now constructor.
      * exact (passes_trans Hp1 Hp2).
Qed.

(** ** The first match, piece by piece *)

Lemma lands_seq a b rs k rs1 k1 rs' k' :
  lands a rs k rs1 k1 -> lands b rs1 k1 rs' k' -> lands (Seq a b) rs k rs' k'.
Proof.
  intros Ha Hb sn. destruct (Ha sn) as (sn1 & H1). destruct (Hb sn1) as (sn' & H2).
  exists sn'. exact (first_seq _ _ _ H1 H2).
Qed.

Lemma lands_class p c t k : p c = true -> lands (Chr p) (c :: t) k t k.
Proof. intros Hp sn. exists (c :: sn). now apply first_chr. Qed.

Lemma lands_star p w rs k :
  all_in p w -> blocked p rs -> lands (Star true (Chr p)) (w ++ rs) k rs k.
Proof. intros Hw Hb sn. exists (rev w ++ sn). now apply first_star_class. Qed.

Lemma lands_str_i s : forall R k, lands (str_i s) (s ++ R) k R k.
Proof.
  induction s as [|c s IH]; intros R k.
  - intro sn. exists sn. reflexivity.
  - destruct s as [|c' s'].
    + apply lands_class. apply N.eqb_refl.
    + change (str_i (c :: c' :: s')) with (Seq (chr_i c) (str_i (c' :: s'))).
      apply lands_seq with (rs1 := (c' :: s') ++ R) (k1 := k); [|apply IH].
      apply lands_class. apply N.eqb_refl.
Qed.

(** A literal under the [i] flag passes the same letters in any case. *)
Lemma lands_str_ci s : forall w R k,
  toLowerCase w = toLowerCase s -> lands (str_i s) (w ++ R) k R k.
Proof.
  induction s as [|c s IH]; intros w R k Hw.
  - destruct w; [|discriminate]. intro sn. exists sn. reflexivity.
  - destruct w as [|x w]; [discriminate|]. simpl in Hw.
    inversion Hw as [[Hx Hrest]].
    assert (Hc : N.eqb (lower x) (lower c) = true) by (apply N.eqb_eq; exact Hx).
    destruct s as [|c' s'].
    + destruct w; [|discriminate]. now apply lands_class.
    + change (str_i (c :: c' :: s')) with (Seq (chr_i c) (str_i (c' :: s'))).
      apply lands_seq with (rs1 := w ++ R) (k1 := k).
      * now apply lands_class.
      * now apply IH.
Qed.

Lemma lands_str s : forall R k, lands (str s) (s ++ R) k R k.
Proof.
  induction s as [|c s IH]; intros R k.
  - intro sn. exists sn. reflexivity.
  - destruct s as [|c' s'].
    + apply lands_class. apply N.eqb_refl.
    + change (str (c :: c' :: s')) with (Seq (chr c) (str (c' :: s'))).
      apply lands_seq with (rs1 := (c' :: s') ++ R) (k1 := k); [|apply IH].
      apply lands_class. apply N.eqb_refl.
Qed.

Lemma lands_times p n : forall w R k,
  length w = n -> all_in p w -> lands (times n (Chr p)) (w ++ R) k R k.
Proof.
  induction n as [|n IH]; intros w R k Hlen Hw.
  - destruct w; [|discriminate]. intro sn. exists sn. reflexivity.
  - destruct w as [|c w]; [discriminate|]. inversion Hw as [|? ? Hc Hw']; subst.
    destruct n as [|n'].
    + destruct w; [|discriminate]. now apply lands_class.
    + change (times (S (S n')) (Chr p))
        with (Seq (Chr p) (times (S n') (Chr p))).
      apply lands_seq with (rs1 := w ++ R) (k1 := k).
      * now apply lands_class.
      * apply IH; [simpl in Hlen; lia | exact Hw'].
Qed.

Lemma lands_group a w R k k' :
  lands a (w ++ R) k R k' -> lands (Group a) (w ++ R) k R (Some w).
Proof.
  intros Ha sn. destruct (Ha sn) as (sn' & H). exists sn'.
  rewrite (first_grouped _ _ H). cbn [seen rest].
  rewrite (@consumed_passes w); [reflexivity | reflexivity].
Qed.

(** ** The leftmost match *)

Lemma search_found r sn rs st' :
  match_at r sn rs = Some st' ->
  search r sn rs = Some (start_at sn rs, st').
Proof. intro H. destruct rs; simpl; now rewrite H. Qed.

Lemma search_skip r pre :
  forall sn rs,
    (forall a b, pre = a ++ b -> b <> [] ->
                 match_at r (rev a ++ sn) (b ++ rs) = None) ->
    search r sn (pre ++ rs) = search r (rev pre ++ sn) rs.
Proof.
  induction pre as [|c pre IH]; intros sn rs Hnone; [reflexivity|].
  simpl app. cbn [search].
  assert (H0 : match_at r sn (c :: pre ++ rs) = None).
  { apply (Hnone [] (c :: pre) eq_refl). discriminate. }
  rewrite H0, IH.
  - simpl. now rewrite <- app_assoc.
  - intros a b -> Hb. specialize (Hnone (c :: a) b eq_refl Hb).
    simpl in Hnone. now rewrite <- app_assoc in Hnone.
Qed.

(** What [search] finds is a match of the regex at some position. *)
Lemma search_sound r : forall rs sn st st',
  search r sn rs = Some (st, st') ->
  In st' (run r st) /\ cap st = None
  /\ exists pre, rev (seen st) ++ rest st = rev sn ++ rs
                 /\ seen st = rev pre ++ sn.
Proof.
  induction rs as [|c rs IH]; intros sn st st' H; cbn [search] in H.
  - unfold match_at in H.
    destruct (run r (start_at sn [])) as [|x l] eqn:Hrun; simpl in H; [discriminate|].
    inversion H; subst. rewrite Hrun. split; [now left|]. split; [reflexivity|].
    exists []. split; reflexivity.
  - unfold match_at in H.
    destruct (run r (start_at sn (c :: rs))) as [|x l] eqn:Hrun; simpl in H.
    + apply IH in H. destruct H as (Hin & Hcap & pre & Heq & Hseen).
      split; [exact Hin|]. split; [exact Hcap|].
      exists (c :: pre). split.
      * rewrite Heq. simpl. now rewrite <- app_assoc.
      * rewrite Hseen. simpl. now rewrite <- app_assoc.
    + inversion H; subst. rewrite Hrun. split; [now left|]. split; [reflexivity|].
      exists []. split; reflexivity.
Qed.

Lemma search_none_at r : forall rs sn,
  search r sn rs = None ->
  forall a b, rs = a ++ b -> match_at r (rev a ++ sn) b = None.
Proof.
  induction rs as [|c rs IH]; intros sn H a b Hs; cbn [search] in H.
  - destruct (match_at r sn []) eqn:E; [discriminate|].
    destruct a; [|discriminate]. simpl in Hs. now subst b.
  - destruct (match_at r sn (c :: rs)) eqn:E; [discriminate|].
    destruct a as [|x a]; simpl in Hs.
    + now subst b.
    + inversion Hs; subst. simpl. rewrite <- app_assoc.
      now apply (IH (x :: sn) H a b).
Qed.

(** What [search] finds is the match at the first position that has one. *)
Lemma search_first r : forall rs sn st st',
  search r sn rs = Some (st, st') ->
  exists a b,
    rs = a ++ b /\ st = start_at (rev a ++ sn) b
    /\ match_at r (rev a ++ sn) b = Some st'
    /\ forall a' b', rs = a' ++ b' -> length a' < length a ->
                     match_at r (rev a' ++ sn) b' = None.
Proof.
  induction rs as [|c rs IH]; intros sn st st' H; cbn [search] in H.
  - destruct (match_at r sn []) as [x|] eqn:E; [|discriminate].
    inversion H; subst. exists [], []. repeat split; auto.
    intros a' b' _ Hlt. simpl in Hlt. lia.
  - destruct (match_at r sn (c :: rs)) as [x|] eqn:E.
    + inversion H; subst. exists [], (c :: rs). repeat split; auto.
      intros a' b' _ Hlt. simpl in Hlt. lia.
    + apply IH in H. destruct H as (a & b & -> & -> & Hat & Hmin).
      exists (c :: a), b. simpl. rewrite <- app_assoc. repeat split; auto.
      intros a' b' Hs Hlt. destruct a' as [|x a'].
      * simpl in Hs. subst b'. exact E.
      * simpl in Hs. inversion Hs; subst. simpl. rewrite <- app_assoc.
        apply Hmin; [assumption | simpl in Hlt; lia].
Qed.

(** ** All the matches of a piece *)

Lemma run_seq_only a b st st1 : run a st = [st1] -> run (Seq a b) st = run b st1.
Proof. simpl. intros ->. simpl. apply app_nil_r. Qed.

Lemma run_str_only s : forall sn R k,
  run (str s) (MState sn (s ++ R) k) = [MState (rev s ++ sn) R k].
Proof.
  induction s as [|c s IH]; intros sn R k; [reflexivity|].
  destruct s as [|c' s'].
  - simpl. now rewrite N.eqb_refl.
  - change (str (c :: c' :: s')) with (Seq (chr c) (str (c' :: s'))).
    rewrite (@run_seq_only _ _ _ (MState (c :: sn) ((c' :: s') ++ R) k)).
    + rewrite IH. simpl. now rewrite <- !app_assoc.
    + simpl. now rewrite N.eqb_refl.
Qed.

Lemma run_times_only p n : forall w sn R k,
  length w = n -> all_in p w ->
  run (times n (Chr p)) (MState sn (w ++ R) k) = [MState (rev w ++ sn) R k].
Proof.
  induction n as [|n IH]; intros w sn R k Hlen Hw.
  - destruct w; [reflexivity | discriminate].
  - destruct w as [|c w]; [discriminate|]. inversion Hw as [|? ? Hc Hw']; subst.
    destruct n as [|n'].
    + destruct w; [|discriminate]. simpl. now rewrite Hc.
    + change (times (S (S n')) (Chr p))
        with (Seq (Chr p) (times (S n') (Chr p))).
      rewrite (@run_seq_only _ _ _ (MState (c :: sn) (w ++ R) k)).
      * rewrite IH; [|simpl in Hlen; lia | exact Hw'].
        simpl. now rewrite <- app_assoc.
      * simpl. now rewrite Hc.
Qed.

(** A greedy star over a class offers every prefix of the run of the class,
    the longest first. *)
Lemma star_loop_class_states p w :
  all_in p w ->
  forall n sn rs k,
    blocked p rs ->
    length (w ++ rs) <= n ->
    star_loop (run (Chr p)) true n (MState sn (w ++ rs) k) = run_states sn w rs k.
Proof.
  induction 1 as [|c w Hc Hw IH]; intros n sn rs k Hb Hn.
  - simpl app. destruct n as [|n]; [reflexivity|].
    rewrite star_loop_S, none_chr by exact Hb. reflexivity.
  - destruct n as [|n]; [simpl in Hn; lia|].
    rewrite star_loop_S. simpl app. rewrite run_chr_cons, Hc.
    cbv zeta. cbn [flat_map rest]. rewrite app_nil_r.
    assert (Hlt : (length (w ++ rs) <? length (c :: w ++ rs)) = true).
    { apply Nat.ltb_lt. simpl. lia. }
    rewrite Hlt, IH; [reflexivity | exact Hb | simpl in Hn; lia].
Qed.

Lemma star_class_states p w sn rs k :
  all_in p w -> blocked p rs ->
  run (Star true (Chr p)) (MState sn (w ++ rs) k) = run_states sn w rs k.
Proof.
  intros Hw Hb. cbn [run rest]. now apply star_loop_class_states.
Qed.

Lemma run_states_app k rs : forall a b sn,
  exists shorter,
    run_states sn (a ++ b) rs k = run_states (rev a ++ sn) b rs k ++ shorter.
Proof.
  induction a as [|c a IH]; intros b sn.
  - exists []. simpl. now rewrite app_nil_r.
  - destruct (IH b (c :: sn)) as (l & Hl).
    exists (l ++ [MState sn (((c :: a) ++ b) ++ rs) k]).
    simpl. rewrite Hl, <- !app_assoc. reflexivity.
Qed.

(** ** What a match leaves of the input *)

(** A match moves code units from what is ahead to what was passed. *)
Lemma denotes_input : forall r st st',
  denotes r st st' -> rev (seen st') ++ rest st' = rev (seen st) ++ rest st.
Proof.
  induction r as [|p|a IHa b IHb|a IHa b IHb|g a IHa|a IHa| | | |a IHa];
    intros st st' H; simpl in H.
  - now subst.
  - destruct H as (c & t & Hr & _ & ->). simpl. rewrite Hr, <- app_assoc.
    reflexivity.
  - destruct H as (st1 & H1 & H2). rewrite (IHb _ _ H2). now apply IHa.
  - destruct H as [H | H]; [now apply IHa | now apply IHb].
  - induction H as [st | st st1 st' Hstep _ IH]; [reflexivity|].
    rewrite IH. now apply IHa.
  - destruct H as (st1 & H1 & ->). simpl. now apply IHa.
  - destruct H as (_ & ->). reflexivity.
  - destruct H as (_ & ->). reflexivity.
  - destruct H as (_ & ->). reflexivity.
  - destruct H as (st1 & _ & ->). reflexivity.
Qed.

Lemma passes_seen w st st' :
  rev (seen st') ++ rest st' = rev (seen st) ++ rest st ->
  passes w st st' -> seen st' = rev w ++ seen st.
Proof.
  unfold passes. intros Hin Hp. rewrite Hp, app_assoc in Hin.
  apply app_inv_tail in Hin. apply (f_equal (@rev N)) in Hin.
  rewrite rev_involutive, rev_app_distr, rev_involutive in Hin. exact Hin.
Qed.

(** A literal under the [i] flag passes its letters, in some case. *)
Lemma denotes_str_i s : forall st st',
  denotes (str_i s) st st' ->
  exists w, toLowerCase w = toLowerCase s /\ passes w st st'.
Proof.
  induction s as [|c s IH]; intros st st' H.
  - simpl in H. subst. exists []. split; reflexivity.
  - destruct s as [|c' s'].
    + apply denotes_class in H. destruct H as (x & Hx & Hp).
      apply N.eqb_eq in Hx. exists [x]. split; [simpl; now rewrite Hx | exact Hp].
    + change (str_i (c :: c' :: s')) with (Seq (chr_i c) (str_i (c' :: s'))) in H.
      destruct H as (st1 & H1 & H2).
      apply denotes_class in H1. destruct H1 as (x & Hx & Hp1).
      apply N.eqb_eq in Hx.
      apply IH in H2. destruct H2 as (w & Hw & Hp2).
      exists (x :: w). split.
      * change (toLowerCase (x :: w)) with (lower x :: toLowerCase w).
        rewrite Hx, Hw. reflexivity.
      * exact (passes_trans Hp1 Hp2).
Qed.

End ReFacts.

(* ================================================================== *)
(** * Properties of the journal-ranking lookup *)
(* ================================================================== *)

Module RankingProofs.

Import JournalRanking Spec Samples Inputs.

Lemma ge_num_true (x q : Q) : (q <= x)%Q -> ge (NNum x) q = true.
Proof. intro H. simpl. now apply Qle_bool_iff. Qed.

Lemma ge_num_false (x q : Q) : (x < q)%Q -> ge (NNum x) q = false.
Proof.
  intro H. simpl. destruct (Qle_bool q x) eqn:E; [|reflexivity].
  apply Qle_bool_iff in E. exfalso. exact (Qlt_not_le _ _ H E).
Qed.

Lemma gt_exceeds (v : jsnum) (q : Q) : exceeds v q -> gt v q = true.
Proof.
  intros (x & -> & H). simpl. destruct (Qle_bool x q) eqn:E; [|reflexivity].
  apply Qle_bool_iff in E. exfalso. exact (Qlt_not_le _ _ H E).
Qed.

Lemma gt_not_exceeds (v : jsnum) : ~ exceeds v 100 -> gt v 100 = false.
Proof.
  intro H. destruct v as [| |x]; try reflexivity. simpl.
  destruct (Qle_bool x 100) eqn:E; [reflexivity|]. exfalso. apply H.
  exists x. split; [reflexivity|]. apply Qnot_le_lt. intro L.
  apply Qle_bool_iff in L. congruence.
Qed.

(** The lookup, when the service answers with at least one source. *)
Lemma openalex_source_found (env : Env) name resp journal others log :
  net env (OpenAlexSource name) = Responded resp ->
  ok resp = true ->
  json resp = Normal (OpenAlexSourcesBody (Some (journal :: others))) ->
  getJournalRankingFromOpenAlex env name log
  = (Normal (rank_source journal), log ++ [OpenAlexSource name]).
Proof.
  intros Hnet Hok Hjson.
  unfold getJournalRankingFromOpenAlex, try_catch, bind, fetch, lift, ret.
  rewrite Hnet, Hok, Hjson. reflexivity.
Qed.

Lemma rank_by_citedness journal stats c :
  summary_stats journal = Some stats ->
  mean_citedness_2yr stats = NNum c ->
  exceeds (works_count journal) 100 ->
  rank_source journal = Some (by_citedness (NNum c)).
Proof.
  intros Hs Hc Hw. unfold rank_source. rewrite Hs, Hc.
  rewrite (gt_exceeds Hw). reflexivity.
Qed.

Lemma rank_by_h_index journal stats h :
  summary_stats journal = Some stats ->
  mean_citedness_2yr stats = NUndefined \/ ~ exceeds (works_count journal) 100 ->
  h_index stats = NNum h ->
  rank_source journal = Some (by_h_index (NNum h)).
Proof.
  intros Hs Hno Hh. unfold rank_source. rewrite Hs, Hh.
  destruct Hno as [Hu | Hw].
  - rewrite Hu. reflexivity.
  - rewrite (gt_not_exceeds Hw), andb_false_r. reflexivity.
Qed.

Lemma rank_null_citedness journal stats :
  summary_stats journal = Some stats ->
  mean_citedness_2yr stats = NNull ->
  exceeds (works_count journal) 100 ->
  rank_source journal = Some Q4.
Proof.
  intros Hs Hc Hw. unfold rank_source. rewrite Hs, Hc, (gt_exceeds Hw).
  reflexivity.
Qed.

(** C6.  With the first source the bibliometric service reports, the lookup
    grades by the 2-year mean citedness when the works count exceeds 100
    (at least 3.0: Q1, at least 1.5: Q2, at least 0.5: Q3, below: Q4); when
    the key of the citedness is missing or the works count does not exceed
    100, and there is an h-index, it grades by the h-index (at least 100: Q1,
    at least 50: Q2, at least 20: Q3, below: Q4).  The failing input: a
    citedness that is the JSON value [null] is not [undefined]; when the
    works count exceeds 100 the lookup stays in the citedness branch, where
    [null] compares as 0, and answers Q4 whatever the h-index is. *)
Theorem openalex_ranking_thresholds :
  forall (env : Env) name resp journal others stats log,
    net env (OpenAlexSource name) = Responded resp ->
    ok resp = true ->
    json resp = Normal (OpenAlexSourcesBody (Some (journal :: others))) ->
    summary_stats journal = Some stats ->
    let result := fst (getJournalRankingFromOpenAlex env name log) in
    (forall c,
        mean_citedness_2yr stats = NNum c ->
        exceeds (works_count journal) 100 ->
        (3 <= c -> result = Normal (Some Q1)) /\
        (3 # 2 <= c -> c < 3 -> result = Normal (Some Q2)) /\
        (1 # 2 <= c -> c < 3 # 2 -> result = Normal (Some Q3)) /\
        (c < 1 # 2 -> result = Normal (Some Q4)))%Q
    /\
    (forall h,
        mean_citedness_2yr stats = NUndefined \/
          ~ exceeds (works_count journal) 100 ->
        h_index stats = NNum h ->
        (100 <= h -> result = Normal (Some Q1)) /\
        (50 <= h -> h < 100 -> result = Normal (Some Q2)) /\
        (20 <= h -> h < 50 -> result = Normal (Some Q3)) /\
        (h < 20 -> result = Normal (Some Q4)))%Q
    /\
    (mean_citedness_2yr stats = NNull ->
     exceeds (works_count journal) 100 ->
     result = Normal (Some Q4)).
Proof.
  intros env name resp journal others stats log Hnet Hok Hjson Hs result.
  subst result. erewrite openalex_source_found by eassumption. simpl fst.
  split; [|split].
  - intros c Hc Hw. erewrite rank_by_citedness by eassumption. unfold by_citedness.
    repeat split; intros.
    + now rewrite ge_num_true.
    + rewrite ge_num_false by assumption. now rewrite ge_num_true.
    + rewrite ge_num_false by (eapply Qlt_trans; [eassumption|reflexivity]).
      rewrite ge_num_false by assumption. now rewrite ge_num_true.
    + rewrite ge_num_false by (eapply Qlt_trans; [eassumption|reflexivity]).
      rewrite ge_num_false by (eapply Qlt_trans; [eassumption|reflexivity]).
      now rewrite ge_num_false.
  - intros h Hno Hh. erewrite rank_by_h_index by eassumption. unfold by_h_index.
    repeat split; intros.
    + now rewrite ge_num_true.
    + rewrite ge_num_false by assumption. now rewrite ge_num_true.
    + rewrite ge_num_false by (eapply Qlt_trans; [eassumption|reflexivity]).
      rewrite ge_num_false by assumption. now rewrite ge_num_true.
    + rewrite ge_num_false by (eapply Qlt_trans; [eassumption|reflexivity]).
      rewrite ge_num_false by (eapply Qlt_trans; [eassumption|reflexivity]).
      now rewrite ge_num_false.
  - intros Hc Hw. now rewrite (rank_null_citedness _ Hs Hc Hw).
Qed.

(** Citedness 3.0 with works count 150 is Q1; with works count 50 the
    citedness is left aside and the h-index 10 gives Q4.  A source with
    citedness [null], 500 works and h-index 200 is graded Q4, where the
    h-index thresholds give Q1. *)
Lemma openalex_ranking_thresholds_witness :
  fst (getJournalRankingFromOpenAlex (sample_env 150) (lit "Some Journal") [])
    = Normal (Some Q1)
  /\ fst (getJournalRankingFromOpenAlex (sample_env 50) (lit "Some Journal") [])
    = Normal (Some Q4)
  /\ (fst (getJournalRankingFromOpenAlex null_citedness_env (lit "Some Journal") [])
      = Normal (Some Q4)
      /\ by_h_index (NNum 200) = Q1).
Proof.
  split; [|split; [|split; [|reflexivity]]].
  - refine (proj1 (proj1 (@openalex_ranking_thresholds (sample_env 150)
      (lit "Some Journal") _ (sample_source 150) [] _ [] eq_refl eq_refl eq_refl eq_refl)
      3%Q eq_refl _) _).
    + exists 150%Q. split; reflexivity.
    + discriminate.
  - refine (proj2 (proj2 (proj2 (proj1 (proj2 (@openalex_ranking_thresholds
      (sample_env 50)
      (lit "Some Journal") _ (sample_source 50) [] _ [] eq_refl eq_refl eq_refl eq_refl))
      10%Q _ eq_refl))) _).
    + right. intros (x & Hx & Hlt). inversion Hx; subst. revert Hlt. now vm_compute.
    + reflexivity.
  - refine (proj2 (proj2 (@openalex_ranking_thresholds null_citedness_env
      (lit "Some Journal") _ null_citedness_source [] _ [] eq_refl eq_refl eq_refl
      eq_refl)) eq_refl _).
    exists 500%Q. split; reflexivity.
Defined.

End RankingProofs.

(* ================================================================== *)
(** * Properties of the academic search *)
(* ================================================================== *)

Module SearchProofs.

Import AcademicSearch Spec Samples.

(** Unfolding of the monad, for the proofs by cases on what the network
    answers. *)
Ltac run_eff :=
  unfold answer, try_catch, bind, fetch, lift, ret, throw; simpl.

Ltac by_cases_on_net env :=
  run_eff;
  repeat match goal with
         | |- context [net env ?r] => destruct (net env r) as [?e | ?resp]; simpl
         | |- context [negb (ok ?r)] => destruct (ok r); simpl
         | |- context [json ?r] => destruct (json r) as [[[[|? ?]|]|[[|? ?]|]|[[|? ?]|]|?|?|?|] | ?e]; simpl
         end;
  try reflexivity.

(** Each adapter issues exactly one request and completes normally: what it
    returns does not depend on the requests made before. *)
Lemma searchCrossRef_run (env : Env) title log :
  searchCrossRef env title log
  = (answer (searchCrossRef env title), log ++ [CrossRefByTitle title]).
Proof. unfold searchCrossRef. by_cases_on_net env. Qed.

Lemma searchOpenAlex_run (env : Env) title log :
  searchOpenAlex env title log
  = (answer (searchOpenAlex env title), log ++ [OpenAlexByTitle title]).
Proof. unfold searchOpenAlex. by_cases_on_net env. Qed.

Lemma searchSemanticScholar_run (env : Env) title log :
  searchSemanticScholar env title log
  = (answer (searchSemanticScholar env title), log ++ [SemanticScholarByTitle title]).
Proof. unfold searchSemanticScholar. by_cases_on_net env. Qed.

Lemma searchCrossRef_total (env : Env) title :
  exists r, answer (searchCrossRef env title) = Normal r.
Proof. unfold searchCrossRef. by_cases_on_net env; eauto. Qed.

Lemma searchOpenAlex_total (env : Env) title :
  exists r, answer (searchOpenAlex env title) = Normal r.
Proof. unfold searchOpenAlex. by_cases_on_net env; eauto. Qed.

Lemma searchSemanticScholar_total (env : Env) title :
  exists r, answer (searchSemanticScholar env title) = Normal r.
Proof. unfold searchSemanticScholar. by_cases_on_net env; eauto. Qed.

(** The orchestrator on a title long enough, by what the adapters answer. *)
Lemma search_long (env : Env) title log :
  10 <= length (trim title) ->
  searchAcademicDatabases env title log =
  match answer (searchCrossRef env title) with
  | Normal (Some hit) => (Normal (Some hit), log ++ [CrossRefByTitle title])
  | _ =>
      match answer (searchOpenAlex env title) with
      | Normal (Some hit) =>
          (Normal (Some hit), log ++ [CrossRefByTitle title; OpenAlexByTitle title])
      | _ =>
          (answer (searchSemanticScholar env title),
           log ++ [CrossRefByTitle title; OpenAlexByTitle title;
                   SemanticScholarByTitle title])
      end
  end.
Proof.
  intro Hlen. unfold searchAcademicDatabases.
  assert (Ht : truthy title = true).
  { destruct title; [simpl in Hlen; lia | reflexivity]. }
  rewrite Ht. simpl negb. rewrite orb_false_l.
  destruct (Nat.ltb_spec (length (trim title)) 10) as [Hlt | _]; [lia|].
  unfold bind at 1. rewrite searchCrossRef_run.
  destruct (searchCrossRef_total env title) as [r1 ->].
  destruct r1 as [hit|]; [reflexivity|].
  unfold bind at 1. rewrite searchOpenAlex_run.
  destruct (searchOpenAlex_total env title) as [r2 ->].
  rewrite <- app_assoc. simpl app.
  destruct r2 as [hit|]; [reflexivity|].
  unfold bind at 1. rewrite searchSemanticScholar_run.
  destruct (searchSemanticScholar_total env title) as [r3 ->].
  rewrite <- app_assoc. simpl app.
  destruct r3; reflexivity.
Qed.

Lemma search_short (env : Env) title log :
  length (trim title) < 10 ->
  searchAcademicDatabases env title log = (Normal None, log).
Proof.
  intro Hlt. unfold searchAcademicDatabases.
  destruct (Nat.ltb_spec (length (trim title)) 10) as [_ | Hge]; [|lia].
  rewrite orb_true_r. reflexivity.
Qed.

(** C3.  A title whose trimmed length is below 10 gives absence and no request
    is issued.  For a longer title the adapters are asked in the order
    CrossRef, OpenAlex, Semantic Scholar; the first record found is returned
    and no adapter is asked after the one that found it. *)
Theorem search_order_and_short_circuit :
  forall (env : Env) title log,
    (length (trim title) < 10 ->
     searchAcademicDatabases env title log = (Normal None, log))
    /\
    (10 <= length (trim title) ->
     (forall hit,
         answer (searchCrossRef env title) = Normal (Some hit) ->
         searchAcademicDatabases env title log
         = (Normal (Some hit), log ++ [CrossRefByTitle title]))
     /\
     (forall hit,
         answer (searchCrossRef env title) = Normal None ->
         answer (searchOpenAlex env title) = Normal (Some hit) ->
         searchAcademicDatabases env title log
         = (Normal (Some hit),
            log ++ [CrossRefByTitle title; OpenAlexByTitle title]))
     /\
     (forall result,
         answer (searchCrossRef env title) = Normal None ->
         answer (searchOpenAlex env title) = Normal None ->
         answer (searchSemanticScholar env title) = Normal result ->
         searchAcademicDatabases env title log
         = (Normal result,
            log ++ [CrossRefByTitle title; OpenAlexByTitle title;
                    SemanticScholarByTitle title]))).
Proof.
  intros env title log. split.
  - apply search_short.
  - intro Hge. rewrite (search_long env title log Hge).
    repeat split.
    + intros hit ->. reflexivity.
    + intros hit -> ->. reflexivity.
    + intros result -> -> ->. reflexivity.
Qed.

(** The title "ab" reaches no adapter; with a long title and a record in
    OpenAlex only, CrossRef and OpenAlex are asked and Semantic Scholar is
    not. *)
Lemma search_order_and_short_circuit_witness :
  searchAcademicDatabases (only_openalex bare_work) (lit "ab") [] = (Normal None, [])
  /\ searchAcademicDatabases (only_openalex bare_work) (lit "A study of things") []
     = (Normal (Some (openalex_record (only_openalex bare_work) bare_work)),
        [CrossRefByTitle (lit "A study of things");
         OpenAlexByTitle (lit "A study of things")]).
Proof.
  split.
  - apply (proj1 (search_order_and_short_circuit
                    (only_openalex bare_work) (lit "ab") [])).
    simpl. lia.
  - refine (proj1 (proj2 (proj2 (search_order_and_short_circuit
                    (only_openalex bare_work) (lit "A study of things") []) _)) _ _ _).
    + simpl. lia.
    + reflexivity.
    + reflexivity.
Defined.

End SearchProofs.

(* ================================================================== *)
(** * Properties of the AI summarizer *)
(* ================================================================== *)

Module CerebrasProofs.

Import Cerebras Spec Notions Samples Inputs.

Section Fallback.

Variable Json : Type.
Variable JSON_parse : js_string -> completion Json.
Variable env : Env.

Lemma skip_unavailable modelName models lastError log :
  unavailable env modelName ->
  try_models JSON_parse env (modelName :: models) lastError log
  = try_models JSON_parse env models
      (Some (lit "Model " ++ modelName ++ lit " not available"))
      (log ++ [CerebrasChat modelName]).
Proof.
  intros (r & Hnet & Hst). simpl.
  unfold attempt, bind, fetch, ret. rewrite Hnet.
  assert (Hok : ok r = false) by (unfold ok; destruct Hst as [-> | ->]; reflexivity).
  rewrite Hok. simpl negb. cbv iota.
  destruct Hst as [-> | ->]; reflexivity.
Qed.

(** A refusal whose body is not [null] ends the loop. *)
Lemma abort_refused modelName models lastError log :
  (exists r, net env (CerebrasChat modelName) = Responded r
             /\ status r = 401%Z /\ json r <> Normal NullBody) ->
  exists e,
    invalid_credential e /\
    try_models JSON_parse env (modelName :: models) lastError log
    = (Throw e, log ++ [CerebrasChat modelName]).
Proof.
  intros (r & Hnet & Hst & Hbody).
  assert (Hm : exists m, error_message r = Normal m).
  { unfold error_message. destruct (json r) as [[o|o|o|o|o|o|]|e]; eauto.
    congruence. }
  destruct Hm as (m & Hm).
  exists (lit "API Key Invalid: " ++
          AcademicSearch.opt_or m (lit "Check your Cerebras API key in Settings")).
  split; [eexists; reflexivity|].
  simpl. unfold attempt, bind, fetch, lift, ret, throw. rewrite Hnet.
  unfold ok. rewrite Hst, Hm. reflexivity.
Qed.

Lemma skip_all_unavailable pre models lastError log :
  Forall (unavailable env) pre ->
  pre <> [] ->
  exists lastError',
    try_models JSON_parse env (pre ++ models) lastError log
    = try_models JSON_parse env models (Some lastError')
        (log ++ List.map CerebrasChat pre).
Proof.
  intros Hall. revert lastError log.
  induction Hall as [|m pre Hm Hall IH]; intros lastError log Hne; [congruence|].
  simpl app. rewrite (skip_unavailable _ _ _ Hm).
  destruct pre as [|m' pre'].
  - simpl. eexists. reflexivity.
  - destruct (IH (Some (lit "Model " ++ m ++ lit " not available"))
                 (log ++ [CerebrasChat m])) as [e He]; [discriminate|].
    exists e. rewrite He. rewrite <- app_assoc. reflexivity.
Qed.

(** A refusal whose body is [null] does not end the loop: the read of
    [errorData.error] throws, the [catch] clause finds no "API Key Invalid"
    in the message, and the next model is tried. *)
Lemma skip_refused_with_null modelName models lastError log :
  refused_with_null env modelName ->
  try_models JSON_parse env (modelName :: models) lastError log
  = try_models JSON_parse env models (Some (null_read (lit "error")))
      (log ++ [CerebrasChat modelName]).
Proof.
  intros (r & Hnet & Hst & Hbody). simpl.
  unfold attempt, bind, fetch, lift, ret, throw. rewrite Hnet.
  unfold ok, error_message. rewrite Hst, Hbody. reflexivity.
Qed.

(** C9.  What a turn of the loop does, whatever the turns before it did
    (whatever the last error and the requests so far are).  A model that
    answers 400 or 404 is skipped: the loop goes on with the next one.  A
    model that answers 401 with a body other than [null] ends the call at
    once with the error of an invalid credential, and no model after it is
    asked.  The failing input: a model that answers 401 with the body [null]
    does not end the call; the read of the error message throws an error
    that does not say "API Key Invalid", and the loop goes on with the
    models that follow, as after any other failure.  The call is this loop
    over the list of models, started without a last error. *)
Theorem credential_refusal_turn :
  forall modelName models lastError log,
    (unavailable env modelName ->
     try_models JSON_parse env (modelName :: models) lastError log
     = try_models JSON_parse env models
         (Some (lit "Model " ++ modelName ++ lit " not available"))
         (log ++ [CerebrasChat modelName]))
    /\
    (refused env modelName ->
     ~ refused_with_null env modelName ->
     exists e,
       invalid_credential e /\
       try_models JSON_parse env (modelName :: models) lastError log
       = (Throw e, log ++ [CerebrasChat modelName]))
    /\
    (refused_with_null env modelName ->
     try_models JSON_parse env (modelName :: models) lastError log
     = try_models JSON_parse env models (Some (null_read (lit "error")))
         (log ++ [CerebrasChat modelName])
     /\ includes (null_read (lit "error")) key_invalid = false)
    /\
    (forall text apiKey,
        truthy apiKey = true ->
        analyzePaperWithCerebras JSON_parse env text apiKey log
        = try_models JSON_parse env modelsToTry None log).
Proof.
  intros m models lastError log. split; [|split; [|split]].
  - apply skip_unavailable.
  - intros (r & Hnet & Hst) Hnot. apply abort_refused.
    exists r. repeat split; [exact Hnet | exact Hst|].
    intro Hnull. apply Hnot. now exists r.
  - intro Hm. split; [now apply skip_refused_with_null | reflexivity].
  - intros text apiKey Hkey. unfold analyzePaperWithCerebras.
    now rewrite Hkey.
Qed.

End Fallback.

(** Two calls.  The first model is not found and the second refuses the
    credential with a message: the call ends with the error of an invalid
    credential after two requests, and the third model is not asked.  The
    first model refuses the credential with the body [null] and the second
    answers "{}": the call returns what the second model gave, after two
    requests, and no error reaches the caller. *)
Lemma credential_refusal_turn_witness :
  (exists e,
      invalid_credential e /\
      analyzePaperWithCerebras (fun s => Normal s) second_refuses
        (lit "paper text") (lit "key") []
      = (Throw e, [CerebrasChat (lit "llama-3.3-70b");
                   CerebrasChat (lit "llama3.1-70b")]))
  /\ analyzePaperWithCerebras (fun s => Normal s) null_refusal
       (lit "paper text") (lit "key") []
     = (Normal (lit "{}"),
        [CerebrasChat (lit "llama-3.3-70b"); CerebrasChat (lit "llama3.1-70b")]).
Proof.
  split.
  - destruct (@credential_refusal_turn js_string (fun s => Normal s) second_refuses
                (lit "llama-3.3-70b") [lit "llama3.1-70b"; lit "llama3.1-8b"]
                None [])
      as (Hskip & _ & _ & Hcall).
    destruct (@credential_refusal_turn js_string (fun s => Normal s) second_refuses
                (lit "llama3.1-70b") [lit "llama3.1-8b"]
                (Some (lit "Model " ++ lit "llama-3.3-70b" ++ lit " not available"))
                [CerebrasChat (lit "llama-3.3-70b")])
      as (_ & Habort & _ & _).
    destruct Habort as (e & He & Hrun).
    + eexists. split; reflexivity.
    + intros (r & Hnet & _ & Hbody). injection Hnet as <-. discriminate Hbody.
    + exists e. split; [exact He|].
      rewrite (Hcall (lit "paper text") (lit "key") eq_refl).
      change modelsToTry
        with [lit "llama-3.3-70b"; lit "llama3.1-70b"; lit "llama3.1-8b"].
      rewrite Hskip; [exact Hrun|].
      eexists. split; [reflexivity|]. right. reflexivity.
  - destruct (@credential_refusal_turn js_string (fun s => Normal s) null_refusal
                (lit "llama-3.3-70b") [lit "llama3.1-70b"; lit "llama3.1-8b"]
                None [])
      as (_ & _ & Hnull & Hcall).
    rewrite (Hcall (lit "paper text") (lit "key") eq_refl).
    change modelsToTry
      with [lit "llama-3.3-70b"; lit "llama3.1-70b"; lit "llama3.1-8b"].
    destruct Hnull as [Hgo _].
    + eexists. split; [reflexivity|]. split; reflexivity.
    + rewrite Hgo. reflexivity.
Defined.

End CerebrasProofs.

(* ================================================================== *)
(** * Properties of extractPDFMetadata *)
(* ================================================================== *)

Module PipelineProofs.

Import Heuristics AcademicSearch JournalRanking PdfMetadata Spec Samples Inputs.

(** ** What the [||] of the merge keeps *)

Lemma opt_or_present o d : present_str o -> Some (opt_or o d) = o.
Proof. intros (c & s & ->). reflexivity. Qed.

Lemma opt_or_absent o d : ~ present_str o -> opt_or o d = d.
Proof.
  intro H. destruct o as [[|c s]|]; try reflexivity.
  exfalso. apply H. now exists c, s.
Qed.

Lemma num_or_present o d : present_num o -> Some (num_or o d) = o.
Proof. intros (n & -> & Hn). destruct n; [congruence | reflexivity | reflexivity]. Qed.

Lemma num_or_absent o d : ~ present_num o -> num_or o d = d.
Proof.
  intro H. destruct o as [[|p|p]|]; try reflexivity;
    exfalso; apply H; eexists; (split; [reflexivity | discriminate]).
Qed.

Lemma authors_or_present o d : present_list o -> Some (authors_or o d) = o.
Proof. intros (x & l & ->). reflexivity. Qed.

Lemma authors_or_absent o d : ~ present_list o -> authors_or o d = d.
Proof.
  intro H. destruct o as [[|x l]|]; try reflexivity.
  exfalso. apply H. now exists x, l.
Qed.

(** ** The [try] block and its [catch] *)

Section AnyImports.

Variable search : js_string -> M (option AcademicData).
Variable rankingTag : js_string -> M (option js_string).

Lemma extract_body_read env file log info fullText :
  read_document file = Normal (info, fullText) ->
  extract_body search rankingTag env file log
  = refine search rankingTag (guess (now env) info fullText) log.
Proof.
  unfold read_document, extract_body, bind, lift. intro H.
  destruct (load file) as [pdf|e]; [|discriminate].
  destruct (getMetadata pdf) as [info'|e]; [|discriminate].
  destruct (read_pages pdf 1 (Nat.min 3 (numPages pdf)) []) as [t|e]; [|discriminate].
  inversion H; subst. reflexivity.
Qed.

Lemma extract_body_unreadable env file log e :
  read_document file = Throw e ->
  extract_body search rankingTag env file log = (Throw e, log).
Proof.
  unfold read_document, extract_body, bind, lift. intro H.
  destruct (load file) as [pdf|e1]; [|congruence].
  destruct (getMetadata pdf) as [info'|e2]; [|congruence].
  destruct (read_pages pdf 1 (Nat.min 3 (numPages pdf)) []) as [t|e3];
    [discriminate | congruence].
Qed.


Lemma extractPDFMetadata_with_unreadable env file log e :
  read_document file = Throw e ->
  extractPDFMetadata_with search rankingTag env file log
  = (Normal (default_record env), log).
Proof.
  intro H. unfold extractPDFMetadata_with, try_catch.
  now rewrite (extract_body_unreadable env file log H).
Qed.

End AnyImports.



(** ** The merge *)

(** The ranking resolver never throws. *)
Lemma getJournalRankingTag_returns (env : Env) journalName log :
  exists tag log', getJournalRankingTag env journalName log = (Normal tag, log').
Proof.
  unfold getJournalRankingTag, getJournalRanking, bind, ret.
  destruct (negb (truthy journalName) || (length (trim journalName) <? 3)).
  - eauto.
  - destruct (getJournalRankingFromDatabase journalName); [eauto|].
    unfold getJournalRankingFromOpenAlex, try_catch, bind, fetch, lift, ret.
    destruct (net env (OpenAlexSource journalName)) as [e|resp]; [eauto|].
    destruct (negb (ok resp)); [eauto|].
    destruct (json resp) as [[| | |[[|j l]|]| | |]|e]; try (eauto; fail).
    destruct (rank_source j); eauto.
Qed.

(** C1, counterexample.  CrossRef finds, for the title "A study of things"
    that the heuristics read in the file, an item of type "journal-article"
    in volume "12".  Both values of the hit are present and not empty; the
    type of the record returned is "Journal Article", not the value of the
    hit, and the record has no volume: the reference built from it has an
    empty one. *)
Lemma merge_is_not_field_by_field :
  exists hit r log1 log',
    searchAcademicDatabases crossref_knows (lit "A study of things") []
    = (Normal (Some hit), log1)
    /\ extractPDFMetadata crossref_knows (titled (lit "A study of things")) []
       = (Normal r, log')
    /\ present_str (a_type hit)
    /\ a_type hit = Some (lit "journal-article")
    /\ option_map type (enrichment r) = Some (lit "Journal Article")
    /\ option_map type (enrichment r) <> a_type hit
    /\ present_str (a_volume hit)
    /\ a_volume hit = Some (lit "12")
    /\ forall referenceId date,
         App.r_volume (App.reference_of crossref_knows
                         (titled (lit "A study of things")) referenceId date r) = [].
Proof.
  eexists _, _, _, _.
  split; [vm_compute; reflexivity|].
  split; [vm_compute; reflexivity|].
  split; [now exists 106%N, (lit "ournal-article")|].
  split; [reflexivity|].
  split; [reflexivity|].
  split; [vm_compute; discriminate|].
  split; [now exists 49%N, [50%N]|].
  split; reflexivity.
Qed.

(** C1, amended.  When the academic search returns a hit (it is made when the
    title of the heuristics is longer than 10 code units), the record
    returned takes, for each of title, authors, year, abstract, DOI and
    journal, the value of the hit when it is there and not empty (a non-empty
    string, a non-empty list of authors, a year other than 0), and the value
    of the heuristics otherwise; its type is [mapPublicationType] of the type
    of the hit, its source is the source of the hit, and its journal ranking
    is the ranking tag of the journal of the record, [null] when that journal
    is blank.  The merge of the heuristics' title "T", year 2020 and empty
    DOI with a hit of title "T2", no year and DOI "10.1/x" has the title
    "T2", the year 2020 and the DOI "10.1/x". *)
Theorem merge_precedence :
  (forall search (env : Env) (file : File) log info fullText hit log1,
    read_document file = Normal (info, fullText) ->
    let g := guess (now env) info fullText in
    10 < length (g_title g) ->
    search (g_title g) log = (Normal (Some hit), log1) ->
    exists r log' tag,
      extractPDFMetadata_with search (getJournalRankingTag env) env file log
      = (Normal r, log')
      /\ (present_str (a_title hit) -> Some (title r) = a_title hit)
      /\ (~ present_str (a_title hit) -> title r = g_title g)
      /\ (present_list (a_authors hit) -> Some (authors r) = a_authors hit)
      /\ (~ present_list (a_authors hit) -> authors r = g_authors g)
      /\ (present_num (a_year hit) -> Some (year r) = a_year hit)
      /\ (~ present_num (a_year hit) -> year r = g_year g)
      /\ (present_str (a_abstract hit) -> Some (abstract r) = a_abstract hit)
      /\ (~ present_str (a_abstract hit) -> abstract r = g_abstract g)
      /\ (present_str (a_doi hit) -> Some (doi r) = a_doi hit)
      /\ (~ present_str (a_doi hit) -> doi r = g_doi g)
      /\ (present_str (a_journal hit) -> Some (journal r) = a_journal hit)
      /\ (~ present_str (a_journal hit) -> journal r = g_journal g)
      /\ enrichment r = Some {| type := mapPublicationType (a_type hit);
                                source := a_source hit;
                                journalRanking := tag |}
      /\ (trim (journal r) <> [] ->
          getJournalRankingTag env (journal r) log1 = (Normal tag, log'))
      /\ (trim (journal r) = [] -> tag = None /\ log' = log1))
  /\
  (forall pdfGuess academicHit journalName rankingTag,
    g_title pdfGuess = lit "T" ->
    g_year pdfGuess = 2020%Z ->
    g_doi pdfGuess = [] ->
    a_title academicHit = Some (lit "T2") ->
    a_year academicHit = None ->
    a_doi academicHit = Some (lit "10.1/x") ->
    let r := merge academicHit pdfGuess journalName rankingTag in
    title r = lit "T2" /\ year r = 2020%Z /\ doi r = lit "10.1/x").
Proof.
  split.
  2:{ intros g hit j t Ht Hy Hd Hat Hay Had. simpl.
      now rewrite Hat, Hay, Had, Hy. }
  intros search env file log info fullText hit log1 Hread g Hlen Hsearch.
  set (journalName := opt_or (a_journal hit) (g_journal g)).
  assert (Htag : exists tag log',
             (if truthy journalName && (0 <? length (trim journalName))
              then getJournalRankingTag env journalName
              else ret None) log1 = (Normal tag, log')).
  { destruct (truthy journalName && (0 <? length (trim journalName))).
    - apply getJournalRankingTag_returns.
    - unfold ret. eauto. }
  destruct Htag as (tag & log' & Htag).
  exists (merge hit g journalName tag), log', tag.
  split.
  - unfold extractPDFMetadata_with, try_catch.
    rewrite (extract_body_read search _ env file log Hread).
    fold g. unfold refine.
    assert (Ht : truthy (g_title g) = true).
    { destruct (g_title g); [simpl in Hlen; lia | reflexivity]. }
    rewrite Ht. destruct (Nat.ltb_spec 10 (length (g_title g))) as [_|]; [|lia].
    cbn [andb]. unfold bind at 1. rewrite Hsearch.
    fold journalName. unfold bind. rewrite Htag. reflexivity.
  - cbn [title authors year abstract doi journal enrichment merge].
    assert (Hblank : truthy journalName && (0 <? length (trim journalName)) = true
                     <-> trim journalName <> []).
    { destruct (trim journalName) as [|c t] eqn:Etrim.
      - simpl. rewrite andb_false_r. split; [discriminate | congruence].
      - assert (Htr : truthy journalName = true).
        { destruct journalName; [discriminate Etrim | reflexivity]. }
        rewrite Htr. simpl. split; [discriminate | reflexivity]. }
    subst journalName.
    repeat split; intros;
      auto using opt_or_present, opt_or_absent, num_or_present, num_or_absent,
                 authors_or_present, authors_or_absent.
    + apply Hblank in H. rewrite H in Htag. exact Htag.
    + assert (E : truthy (opt_or (a_journal hit) (g_journal g)) &&
                  (0 <? length (trim (opt_or (a_journal hit) (g_journal g)))) = false)
        by (apply not_true_is_false; intro E; apply Hblank in E; congruence).
      rewrite E in Htag. unfold ret in Htag. congruence.
    + assert (E : truthy (opt_or (a_journal hit) (g_journal g)) &&
                  (0 <? length (trim (opt_or (a_journal hit) (g_journal g)))) = false)
        by (apply not_true_is_false; intro E; apply Hblank in E; congruence).
      rewrite E in Htag. unfold ret in Htag. congruence.
Qed.

(** Three merges.  CrossRef finds an item for the title read in the file:
    the record has the title and the DOI of the item, the type "Journal
    Article" and the source "CrossRef".  A search that finds the hit of the
    example (title "T2", no year, DOI "10.1/x") for the title "A study of
    things" of a file of 2020: the record has the title "T2", the year 2020
    and the DOI "10.1/x".  The merge of the example gives the same three
    values. *)
Lemma merge_precedence_witness :
  (exists r log',
    extractPDFMetadata crossref_knows (titled (lit "A study of things")) []
    = (Normal r, log')
    /\ title r = lit "A study of things" /\ doi r = lit "10.9999/other"
    /\ enrichment r = Some {| type := lit "Journal Article";
                              source := Some (lit "CrossRef");
                              journalRanking := None |})
  /\ (exists r log',
    extractPDFMetadata_with always_hit_T2 (getJournalRankingTag (offline 2024))
      (offline 2024) (titled (lit "A study of things")) []
    = (Normal r, log')
    /\ title r = lit "T2" /\ year r = 2020%Z /\ doi r = lit "10.1/x"
    /\ option_map type (enrichment r) = Some (lit "Journal Article"))
  /\ (let r := merge hit_T2
                 {| g_title := lit "T"; g_authors := []; g_year := 2020;
                    g_abstract := []; g_doi := []; g_journal := [] |} [] None in
      title r = lit "T2" /\ year r = 2020%Z /\ doi r = lit "10.1/x").
Proof.
  split; [|split].
  - destruct (proj1 merge_precedence (searchAcademicDatabases crossref_knows)
                crossref_knows (titled (lit "A study of things")) []
                {| Title := Some (lit "A study of things"); Author := None;
                   CreationDate := Some (lit "D:20200101000000") |} []
                (crossref_record crossref_knows typed_item)
                [CrossRefByTitle (lit "A study of things")]
                eq_refl)
      as (r & log' & tag & Hrun & Ht & _ & _ & _ & _ & _ & _ & _ & Hd & _ & _ & Hj
          & He & _ & Htag).
    + vm_compute. lia.
    + reflexivity.
    + exists r, log'. split; [exact Hrun|].
      assert (Ht' : Some (title r) = Some (lit "A study of things")).
      { apply Ht. now exists 65%N, (lit " study of things"). }
      assert (Hd' : Some (doi r) = Some (lit "10.9999/other")).
      { apply Hd. now exists 49%N, (lit "0.9999/other"). }
      assert (Hj' : journal r = []).
      { rewrite Hj; [reflexivity|]. intros (c & t & Hc). discriminate Hc. }
      assert (Htag' : tag = None).
      { apply Htag. now rewrite Hj'. }
      inversion Ht'. inversion Hd'. rewrite He, Htag'. repeat split.
  - destruct (proj1 merge_precedence always_hit_T2 (offline 2024)
                (titled (lit "A study of things")) []
                {| Title := Some (lit "A study of things"); Author := None;
                   CreationDate := Some (lit "D:20200101000000") |} [] hit_T2 []
                eq_refl)
      as (r & log' & tag & Hrun & Ht & _ & _ & _ & _ & Hy & _ & _ & Hd & _ & _ & _
          & He & _).
    + vm_compute. lia.
    + reflexivity.
    + exists r, log'. split; [exact Hrun|].
      assert (Ht' : Some (title r) = Some (lit "T2")).
      { apply Ht. now exists 84%N, [50%N]. }
      assert (Hd' : Some (doi r) = Some (lit "10.1/x")).
      { apply Hd. now exists 49%N, (lit "0.1/x"). }
      assert (Hy' : year r = 2020%Z).
      { rewrite Hy; [reflexivity|]. intros (n & Hn & _). discriminate Hn. }
      inversion Ht'. inversion Hd'. rewrite Hy', He. repeat split.
  - exact (proj2 merge_precedence
             {| g_title := lit "T"; g_authors := []; g_year := 2020;
                g_abstract := []; g_doi := []; g_journal := [] |} hit_T2 [] None
             eq_refl eq_refl eq_refl eq_refl eq_refl eq_refl).
Defined.

End PipelineProofs.

(* ================================================================== *)
(** * The year of a record found by an adapter *)
(* ================================================================== *)

Module YearProofs.

Import Heuristics AcademicSearch JournalRanking PdfMetadata Spec Samples.
Import SearchProofs PipelineProofs.









End YearProofs.

(* ================================================================== *)
(** * Properties of extractYear *)
(* ================================================================== *)

Module YearExtraction.

Import Heuristics Spec Samples.

(** ** The descending sort *)

Lemma insert_desc_In x l y : In y (insert_desc x l) <-> y = x \/ In y l.
Proof.
  induction l as [|z l IH]; simpl.
  - intuition.
  - destruct (z <=? x)%Z; simpl; [intuition|].
    rewrite IH. intuition.
Qed.

Lemma sort_desc_In l y : In y (sort_desc l) <-> In y l.
Proof.
  induction l as [|x l IH]; simpl; [tauto|].
  rewrite insert_desc_In, IH. intuition.
Qed.

Lemma insert_desc_headed x l : headed l -> headed (insert_desc x l).
Proof.
  destruct l as [|y l]; simpl.
  - intros _ z [<- | []]. lia.
  - intro H. destruct (Z.leb_spec y x) as [Hle | Hgt].
    + intros z [<- | Hz]; [lia|]. specialize (H z Hz). lia.
    + intros z [<- | Hz]; [lia|].
      apply insert_desc_In in Hz. destruct Hz as [-> | Hz]; [lia|].
      apply H. now right.
Qed.

Lemma sort_desc_headed l : headed (sort_desc l).
Proof.
  induction l as [|x l IH]; simpl; [exact I|]. now apply insert_desc_headed.
Qed.

(** The first element of the sorted list is the maximum of the list. *)
Lemma sort_desc_head l y ys :
  sort_desc l = y :: ys -> In y l /\ forall x, In x l -> (x <= y)%Z.
Proof.
  intro H. split.
  - apply sort_desc_In. rewrite H. now left.
  - intros x Hx. pose proof (sort_desc_headed l) as Hh. rewrite H in Hh.
    apply Hh. rewrite <- H. now apply sort_desc_In.
Qed.

(** ** The years kept from the text *)

Lemma text_years_spec now text y :
  In y (text_years now text) <->
  exists token, In token (match_all year_pattern text)
                /\ parseInt token = Some y
                /\ (1900 <= y <= now + 1)%Z.
Proof.
  unfold text_years. rewrite in_flat_map. split.
  - intros (token & Hin & Hy). exists token. split; [exact Hin|].
    destruct (parseInt token) as [v|]; [|contradiction].
    unfold valid_year in Hy.
    destruct (Z.leb_spec 1900 v); destruct (Z.leb_spec v (now + 1));
      simpl in Hy; try contradiction.
    destruct Hy as [<- | []]. split; [reflexivity | lia].
  - intros (token & Hin & Hp & Hr). exists token. split; [exact Hin|].
    rewrite Hp. unfold valid_year.
    destruct (Z.leb_spec 1900 y); destruct (Z.leb_spec y (now + 1)); try lia.
    now left.
Qed.

(** C8.  When the embedded creation date gives no valid year, the years kept
    are those of the tokens of the text that match
    [\b(19\d{2}|20[0-2]\d)\b] and lie between 1900 and the current year plus
    one; the extractor returns the greatest of them, and the current year
    when there is none. *)
Theorem extractYear_latest_valid_year :
  forall now info text,
    creation_year now info = None ->
    (forall y,
        In y (text_years now text) <->
        exists token, In token (match_all year_pattern text)
                      /\ parseInt token = Some y
                      /\ (1900 <= y <= now + 1)%Z)
    /\
    (text_years now text <> [] ->
     In (extractYear now info text) (text_years now text)
     /\ forall y, In y (text_years now text) ->
                  (y <= extractYear now info text)%Z)
    /\
    (text_years now text = [] -> extractYear now info text = now).
Proof.
  intros now info text Hc. split; [|split].
  - intro y. apply text_years_spec.
  - intro Hne. unfold extractYear. rewrite Hc.
    destruct (sort_desc (text_years now text)) as [|y ys] eqn:Hs.
    + exfalso. destruct (text_years now text) as [|x l]; [congruence|].
      assert (Hin : In x (sort_desc (x :: l))) by (apply sort_desc_In; now left).
      rewrite Hs in Hin. exact Hin.
    + now apply sort_desc_head with (ys := ys).
  - intro He. unfold extractYear. rewrite Hc, He. reflexivity.
Qed.

(** With the current year 2024 and no creation date, a text that mentions
    1995, 2010 and 2099 gives 2010. *)
Lemma extractYear_latest_valid_year_witness :
  extractYear 2024 no_info (lit "Cited in 1995 and 2010; expected by 2099.") = 2010%Z.
Proof.
  destruct (@extractYear_latest_valid_year 2024 no_info
              (lit "Cited in 1995 and 2010; expected by 2099.") eq_refl)
    as (_ & Hmax & _).
  destruct Hmax as [Hin Hge]; [vm_compute; discriminate|].
  assert (Hy : text_years 2024 (lit "Cited in 1995 and 2010; expected by 2099.")
               = [1995; 2010]%Z) by (vm_compute; reflexivity).
  rewrite Hy in Hin, Hge.
  specialize (Hge 2010%Z (or_intror (or_introl eq_refl))).
  simpl in Hin. lia.
Defined.

End YearExtraction.

(* ================================================================== *)
(** * Properties of extractDOI *)
(* ================================================================== *)

Module DoiProofs.

Import DoiLookup AcademicSearch Spec Notions Samples ReFacts.

(** ** The shape of the group *)

(** What the core of the patterns passes is a DOI. *)
Lemma doi_core_shape st st' :
  denotes doi_core st st' -> is_doi (consumed st st').
Proof.
  unfold doi_core.
  change (seqs [str (lit "10."); at_least 4 digit; chr 47; plus non_space])
    with (Seq (str (lit "10."))
              (Seq (Seq (times 4 digit) (Star true digit))
                   (Seq (chr 47) (Seq non_space (Star true non_space))))).
  intros (s1 & H1 & s2 & (s2a & H2a & H2b) & s3 & H3 & s4 & H4 & H5).
  apply denotes_str in H1.
  apply denotes_times in H2a. destruct H2a as (w1 & Hlen & Hw1 & Hp1).
  apply denotes_star_class in H2b. destruct H2b as (w2 & Hw2 & Hp2).
  apply denotes_chr in H3.
  apply denotes_class in H4. destruct H4 as (c & Hc & Hp4).
  apply denotes_star_class in H5. destruct H5 as (w3 & Hw3 & Hp5).
  pose proof (passes_trans H1 (passes_trans (passes_trans Hp1 Hp2)
                (passes_trans H3 (passes_trans Hp4 Hp5)))) as Hall.
  rewrite (consumed_passes Hall).
  exists (w1 ++ w2), (c :: w3). repeat split.
  - rewrite length_app. lia.
  - apply Forall_app. now split.
  - discriminate.
  - now constructor.
Qed.

(** The group of a match of any of the four patterns is a DOI. *)
Lemma pattern_group p st st' :
  In p patterns -> In st' (run p st) -> exists g, cap st' = Some g /\ is_doi g.
Proof.
  intros Hp Hin. apply run_sound in Hin.
  destruct Hp as [<- | [<- | [<- | [<- | []]]]].
  - change pat_doi_prefix
      with (Seq (str_i (lit "doi:")) (Seq (star space) (Group doi_core))) in Hin.
    destruct Hin as (s1 & _ & s2 & _ & s3 & Hcore & ->).
    eexists. split; [reflexivity|]. now apply doi_core_shape.
  - change pat_doi_url
      with (Seq (str_i (lit "http"))
                (Seq (opt (chr_i 115))
                     (Seq (str_i (lit "://doi.org/")) (Group doi_core)))) in Hin.
    destruct Hin as (s1 & _ & s2 & _ & s3 & _ & s4 & Hcore & ->).
    eexists. split; [reflexivity|]. now apply doi_core_shape.
  - change pat_DOI_prefix
      with (Seq (str_i (lit "DOI:")) (Seq (star space) (Group doi_core))) in Hin.
    destruct Hin as (s1 & _ & s2 & _ & s3 & Hcore & ->).
    eexists. split; [reflexivity|]. now apply doi_core_shape.
  - change pat_plain with (Seq WordB (Seq (Group doi_core) WordB)) in Hin.
    destruct Hin as (s1 & _ & s2 & (s3 & Hcore & ->) & (_ & ->)).
    eexists. split; [reflexivity|]. now apply doi_core_shape.
Qed.

Lemma js_match_group p text m :
  In p patterns -> js_match p text = Some m ->
  exists g, m_group m = Some g /\ is_doi g.
Proof.
  intros Hp. unfold js_match.
  destruct (search p [] text) as [[st st']|] eqn:Hs; [|discriminate].
  intros [= <-]. simpl. apply search_sound in Hs. destruct Hs as (Hin & _).
  exact (pattern_group _ _ Hp Hin).
Qed.

(** ** Trimming and stripping a DOI *)

Lemma is_doi_truthy g : is_doi g -> truthy g = true.
Proof. intros (ds & suf & -> & _). reflexivity. Qed.

Lemma trimEnd_last a c : is_space c = false -> trimEnd (a ++ [c]) = a ++ [c].
Proof.
  intro H. unfold trimEnd. rewrite rev_app_distr. simpl. rewrite H.
  simpl. now rewrite rev_involutive.
Qed.

Lemma is_doi_trim g : is_doi g -> trim g = g.
Proof.
  intros (ds & suf & -> & _ & _ & Hne & Hsuf). unfold trim.
  change (trimStart (lit "10." ++ ds ++ [47%N] ++ suf))
    with (lit "10." ++ ds ++ [47%N] ++ suf).
  destruct (exists_last Hne) as (suf0 & c & ->).
  apply Forall_app in Hsuf. destruct Hsuf as [_ Hc].
  inversion Hc as [|? ? Hc' _]; subst.
  replace (lit "10." ++ ds ++ [47%N] ++ suf0 ++ [c])
    with ((lit "10." ++ ds ++ [47%N] ++ suf0) ++ [c])
    by (now rewrite <- !app_assoc).
  apply trimEnd_last. unfold not_space in Hc'. now destruct (is_space c).
Qed.

Lemma trailing_punct_run sn c rs k :
  run trailing_punct (MState sn (c :: rs) k)
  = if is_punct c
    then match rs with [] => [MState (c :: sn) [] k] | _ :: _ => [] end
    else [].
Proof.
  unfold trailing_punct.
  change (one_of (lit ".,;:!?")) with (Chr is_punct).
  change (run (Seq (Chr is_punct) Eol) (MState sn (c :: rs) k))
    with (flat_map (run Eol) (run (Chr is_punct) (MState sn (c :: rs) k))).
  rewrite run_chr_cons. destruct (is_punct c); [|reflexivity].
  destruct rs; reflexivity.
Qed.

Lemma trailing_punct_inside sn c b rs :
  rs <> [] -> match_at trailing_punct sn (c :: b ++ rs) = None.
Proof.
  intro Hne. unfold match_at, start_at. rewrite trailing_punct_run.
  destruct (is_punct c); [|reflexivity].
  destruct (b ++ rs) eqn:E; [|reflexivity].
  apply app_eq_nil in E. destruct E. contradiction.
Qed.

(** The replacement by [/[.,;:!?]$/] strips one trailing punctuation mark. *)
Lemma strip_trailing_punct g :
  replace_first trailing_punct [] g = strip_punct g.
Proof.
  unfold replace_first, js_match, strip_punct.
  destruct g as [|x g' _] using rev_ind; [reflexivity|].
  rewrite rev_app_distr. simpl rev. cbn [app].
  rewrite (@search_skip trailing_punct g' [] [x]).
  - cbn [search]. unfold match_at at 1, start_at. rewrite trailing_punct_run.
    destruct (is_punct x); cbn [hd_error].
    + cbn [seen rest m_before m_after app]. rewrite !app_nil_r. reflexivity.
    + reflexivity.
  - intros a b -> Hb. destruct b as [|c b]; [congruence|].
    simpl app. apply trailing_punct_inside. discriminate.
Qed.

Lemma strip_punct_stem g : is_doi g -> is_doi_stem (strip_punct g).
Proof.
  intros (ds & suf & -> & Hlen & Hds & Hne & Hsuf). unfold strip_punct.
  destruct (exists_last Hne) as (suf0 & c & ->).
  replace (lit "10." ++ ds ++ [47%N] ++ suf0 ++ [c])
    with ((lit "10." ++ ds ++ [47%N] ++ suf0) ++ [c])
    by (now rewrite <- !app_assoc).
  set (body := lit "10." ++ ds ++ [47%N] ++ suf0).
  rewrite rev_app_distr. change (rev [c] ++ rev body) with (c :: rev body).
  cbv beta iota. destruct (is_punct c).
  - rewrite rev_involutive. exists ds, suf0. repeat split; auto.
    unfold all_in in *. apply Forall_app in Hsuf. now destruct Hsuf.
  - exists ds, (suf0 ++ [c]). subst body. repeat split; auto.
    now rewrite <- !app_assoc.
Qed.

(** ** The loop over the patterns *)

Lemma first_doi_shape text : forall ps,
  (forall p, In p ps -> In p patterns) ->
  forall d, first_doi ps text = Some d ->
  exists g, is_doi g /\ d = strip_punct g.
Proof.
  induction ps as [|p ps IH]; intros Hps d H; [discriminate|].
  cbn [first_doi] in H.
  assert (IH' : first_doi ps text = Some d -> exists g, is_doi g /\ d = strip_punct g).
  { apply IH. intros q Hq. apply Hps. now right. }
  destruct (js_match p text) as [m|] eqn:Hm; [|auto].
  destruct (@js_match_group p text m (Hps p (or_introl eq_refl)) Hm) as (g & Hg & Hdoi).
  destruct m as [mb mw mg ma]. simpl in Hg. subst mg.
  rewrite (is_doi_truthy Hdoi) in H. inversion H; subst.
  exists g. split; [exact Hdoi|].
  now rewrite (is_doi_trim Hdoi), strip_trailing_punct.
Qed.

Lemma first_doi_skip text before p after m g :
  In p patterns ->
  (forall q, In q before -> js_match q text = None) ->
  js_match p text = Some m -> m_group m = Some g ->
  first_doi (before ++ p :: after) text = Some (strip_punct g).
Proof.
  intros Hp Hnone Hm Hg. induction before as [|q before IH].
  - simpl app. cbn [first_doi]. rewrite Hm.
    destruct (@js_match_group p text m Hp Hm) as (g' & Hg' & Hdoi).
    rewrite Hg in Hg'. inversion Hg'; subst g'.
    destruct m as [mb mw mg ma]. simpl in Hg. subst mg.
    rewrite (is_doi_truthy Hdoi), (is_doi_trim Hdoi), strip_trailing_punct.
    reflexivity.
  - simpl app. cbn [first_doi]. rewrite (Hnone q (or_introl eq_refl)).
    apply IH. intros q' Hq'. apply Hnone. now right.
Qed.

Lemma first_doi_none text ps :
  (forall q, In q ps -> js_match q text = None) -> first_doi ps text = None.
Proof.
  induction ps as [|q ps IH]; intro Hnone; [reflexivity|].
  cbn [first_doi]. rewrite (Hnone q (or_introl eq_refl)).
  apply IH. intros q' Hq'. apply Hnone. now right.
Qed.


(** ** The first match of the core *)

(** The core passes a DOI that is followed by white space or by nothing. *)
Lemma lands_doi_core d post k :
  is_doi d -> blocked not_space post -> lands doi_core (d ++ post) k post k.
Proof.
  intros (ds & suf & -> & Hlen & Hds & Hne & Hsuf) Hpost.
  destruct suf as [|c suf']; [congruence|].
  inversion Hsuf as [|? ? Hc Hsuf']; subst.
  change doi_core
    with (Seq (str (lit "10."))
              (Seq (Seq (times 4 digit) (Star true digit))
                   (Seq (chr 47) (Seq non_space (Star true non_space))))).
  replace ((lit "10." ++ ds ++ [47%N] ++ c :: suf') ++ post)
    with (lit "10." ++ (firstn 4 ds ++ skipn 4 ds ++ 47%N :: c :: suf' ++ post)).
  2:{ rewrite <- !app_assoc. f_equal.
      rewrite (app_assoc (firstn 4 ds)), firstn_skipn. reflexivity. }
  assert (Hsplit : all_in is_digit (firstn 4 ds) /\ all_in is_digit (skipn 4 ds)).
  { unfold all_in in *. apply Forall_app. now rewrite firstn_skipn. }
  destruct Hsplit as [Hhead Htail].
  eapply lands_seq; [apply lands_str|].
  eapply lands_seq.
  - eapply lands_seq.
    + apply lands_times; [|exact Hhead].
      apply firstn_length_le. exact Hlen.
    + apply lands_star; [exact Htail | reflexivity].
  - eapply lands_seq; [apply lands_class; reflexivity|].
    eapply lands_seq; [apply lands_class; exact Hc|].
    apply lands_star; [exact Hsuf' | exact Hpost].
Qed.

(** ** No match of the [doi:] pattern before the first colon *)

Lemma lower_colon c : lower c = 58%N -> c = 58%N.
Proof.
  unfold lower, is_upper, in_range.
  destruct (N.leb_spec 65 c); destruct (N.leb_spec c 90); simpl; lia.
Qed.

Lemma doi_prefix_needs_colon sn rs st' :
  match_at pat_doi_prefix sn rs = Some st' ->
  exists c1 c2 c3 R, rs = c1 :: c2 :: c3 :: 58%N :: R.
Proof.
  unfold match_at. intro H.
  assert (Hin : In st' (run pat_doi_prefix (start_at sn rs))).
  { destruct (run pat_doi_prefix (start_at sn rs)); [discriminate|].
    inversion H. now left. }
  apply run_sound in Hin.
  change pat_doi_prefix
    with (Seq (Seq (chr_i 100) (Seq (chr_i 111) (Seq (chr_i 105) (chr_i 58))))
              (Seq (star space) (Group doi_core))) in Hin.
  destruct Hin as (s4 & (s1 & H1 & s2 & H2 & s3 & H3 & H4) & _).
  apply denotes_class in H1, H2, H3, H4.
  destruct H1 as (c1 & _ & P1). destruct H2 as (c2 & _ & P2).
  destruct H3 as (c3 & _ & P3). destruct H4 as (c4 & Hc4 & P4).
  apply N.eqb_eq in Hc4. apply lower_colon in Hc4. subst c4.
  exists c1, c2, c3, (rest s4).
  unfold passes in *. simpl in P1. rewrite P1, P2, P3, P4. reflexivity.
Qed.

Lemma doi_prefix_not_before_colon sn b R :
  b <> [] -> ~ In 58%N b ->
  match_at pat_doi_prefix sn (b ++ lit "doi:" ++ R) = None.
Proof.
  intros Hb Hno.
  destruct (match_at pat_doi_prefix sn (b ++ lit "doi:" ++ R)) as [st'|] eqn:E;
    [exfalso|reflexivity].
  apply doi_prefix_needs_colon in E. destruct E as (c1 & c2 & c3 & R' & Heq).
  change (lit "doi:") with [100; 111; 105; 58]%N in Heq.
  destruct b as [|b1 [|b2 [|b3 [|b4 b']]]]; simpl in Heq; try congruence.
  inversion Heq; subst. apply Hno. simpl. tauto.
Qed.

(** The match of the [doi:] pattern on a text with a prefixed DOI. *)
Lemma doi_prefix_match pre ws d post :
  ~ In 58%N pre -> all_in is_space ws -> is_doi d -> blocked not_space post ->
  exists m, js_match pat_doi_prefix (pre ++ lit "doi:" ++ ws ++ d ++ post) = Some m
            /\ m_group m = Some d.
Proof.
  intros Hpre Hws Hd Hpost. unfold js_match.
  rewrite (@search_skip pat_doi_prefix pre [] (lit "doi:" ++ ws ++ d ++ post)).
  2:{ intros a b -> Hb. apply doi_prefix_not_before_colon; [exact Hb|].
      intro Hin. apply Hpre. apply in_or_app. now right. }
  assert (Hl : lands pat_doi_prefix (lit "doi:" ++ ws ++ d ++ post) None post (Some d)).
  { change pat_doi_prefix
      with (Seq (str_i (lit "doi:")) (Seq (star space) (Group doi_core))).
    eapply lands_seq; [apply lands_str_i|].
    eapply lands_seq.
    - apply lands_star; [exact Hws|].
      destruct Hd as (ds & suf & -> & _). reflexivity.
    - apply lands_group with (k' := None). now apply lands_doi_core. }
  destruct (Hl (rev pre ++ [])) as (sn' & Hfirst).
  rewrite (search_found pat_doi_prefix _ _ Hfirst).
  eexists. split; reflexivity.
Qed.

(** ** Where the patterns match *)

Lemma first_is_a_match r sn rs st' :
  match_at r sn rs = Some st' -> In st' (run r (start_at sn rs)).
Proof.
  unfold match_at. destruct (run r (start_at sn rs)); [discriminate|].
  intros [= ->]. now left.
Qed.

(** What the core of the patterns passes is a DOI. *)
Lemma doi_core_passes st st' :
  denotes doi_core st st' -> exists d, is_doi d /\ passes d st st'.
Proof.
  unfold doi_core.
  change (seqs [str (lit "10."); at_least 4 digit; chr 47; plus non_space])
    with (Seq (str (lit "10."))
              (Seq (Seq (times 4 digit) (Star true digit))
                   (Seq (chr 47) (Seq non_space (Star true non_space))))).
  intros (s1 & H1 & s2 & (s2a & H2a & H2b) & s3 & H3 & s4 & H4 & H5).
  apply denotes_str in H1.
  apply denotes_times in H2a. destruct H2a as (w1 & Hlen & Hw1 & Hp1).
  apply denotes_star_class in H2b. destruct H2b as (w2 & Hw2 & Hp2).
  apply denotes_chr in H3.
  apply denotes_class in H4. destruct H4 as (c & Hc & Hp4).
  apply denotes_star_class in H5. destruct H5 as (w3 & Hw3 & Hp5).
  pose proof (passes_trans H1 (passes_trans (passes_trans Hp1 Hp2)
                (passes_trans H3 (passes_trans Hp4 Hp5)))) as Hall.
  eexists. split; [|exact Hall].
  exists (w1 ++ w2), (c :: w3). repeat split.
  - rewrite length_app. lia.
  - apply Forall_app. now split.
  - discriminate.
  - now constructor.
Qed.

(** A text is a run of a class and then something the class cannot take. *)
Lemma run_split (p : N -> bool) : forall rs,
  exists x post, rs = x ++ post /\ all_in p x /\ blocked p post.
Proof.
  induction rs as [|c rs IH].
  - exists [], []. repeat split. constructor.
  - destruct (p c) eqn:E.
    + destruct IH as (x & post & -> & Hx & Hb).
      exists (c :: x), post. repeat split; [now constructor | exact Hb].
    + exists [], (c :: rs). repeat split; [constructor | exact E].
Qed.

Lemma is_doi_extend d x : is_doi d -> all_in not_space x -> is_doi (d ++ x).
Proof.
  intros (ds & suf & -> & Hlen & Hds & Hne & Hsuf) Hx.
  exists ds, (suf ++ x). repeat split; auto.
  - now rewrite <- !app_assoc.
  - destruct suf; [congruence | discriminate].
  - apply Forall_app. now split.
Qed.

(** *** The marker "doi:" *)

Lemma marker_match sn w ws d post :
  in_any_case (lit "doi:") w -> all_in is_space ws -> is_doi d ->
  blocked not_space post ->
  exists sn',
    match_at pat_doi_prefix sn (w ++ ws ++ d ++ post)
    = Some (MState sn' post (Some d)).
Proof.
  intros Hw Hws Hd Hpost.
  assert (Hl : lands pat_doi_prefix (w ++ ws ++ d ++ post) None post (Some d)).
  { change pat_doi_prefix
      with (Seq (str_i (lit "doi:")) (Seq (star space) (Group doi_core))).
    eapply lands_seq; [apply lands_str_ci; exact Hw|].
    eapply lands_seq.
    - apply lands_star; [exact Hws|].
      destruct Hd as (ds & suf & -> & _). reflexivity.
    - apply lands_group with (k' := None). now apply lands_doi_core. }
  exact (Hl sn).
Qed.

Lemma marker_shape sn rs st' :
  match_at pat_doi_prefix sn rs = Some st' ->
  exists w ws d post,
    rs = w ++ ws ++ d ++ post /\ in_any_case (lit "doi:") w
    /\ all_in is_space ws /\ is_doi d /\ blocked not_space post.
Proof.
  intro H. apply first_is_a_match, run_sound in H.
  change pat_doi_prefix
    with (Seq (str_i (lit "doi:")) (Seq (star space) (Group doi_core))) in H.
  destruct H as (s1 & H1 & s2 & H2 & s3 & H3 & _).
  apply denotes_str_i in H1. destruct H1 as (w & Hw & P1).
  apply denotes_star_class in H2. destruct H2 as (ws & Hws & P2).
  apply doi_core_passes in H3. destruct H3 as (d0 & Hd0 & P3).
  destruct (run_split not_space (rest s3)) as (x & post & Hr & Hx & Hb).
  exists w, ws, (d0 ++ x), post. repeat split; auto.
  - unfold passes in *. simpl in P1. rewrite P1, P2, P3, Hr, <- !app_assoc.
    reflexivity.
  - now apply is_doi_extend.
Qed.

(** *** The address at doi.org *)

Lemma lands_opt_skip p rs k : blocked p rs -> lands (opt (Chr p)) rs k rs k.
Proof.
  intros Hb sn. exists sn. unfold opt.
  change (run (Alt (Chr p) Eps) (MState sn rs k))
    with (run (Chr p) (MState sn rs k) ++ [MState sn rs k]).
  now rewrite none_chr.
Qed.

Lemma lands_opt_take p c t k : p c = true -> lands (opt (Chr p)) (c :: t) k t k.
Proof.
  intros Hp sn. exists (c :: sn). unfold opt.
  change (run (Alt (Chr p) Eps) (MState sn (c :: t) k))
    with (run (Chr p) (MState sn (c :: t) k) ++ [MState sn (c :: t) k]).
  rewrite run_chr_cons, Hp. reflexivity.
Qed.

Lemma url_match sn w d post :
  in_any_case (lit "http://doi.org/") w \/ in_any_case (lit "https://doi.org/") w ->
  is_doi d -> blocked not_space post ->
  exists sn',
    match_at pat_doi_url sn (w ++ d ++ post) = Some (MState sn' post (Some d)).
Proof.
  intros Hw Hd Hpost.
  assert (Hl : lands pat_doi_url (w ++ d ++ post) None post (Some d)).
  { change pat_doi_url
      with (Seq (str_i (lit "http"))
                (Seq (opt (chr_i 115))
                     (Seq (str_i (lit "://doi.org/")) (Group doi_core)))).
    destruct Hw as [Hw | Hw]; unfold in_any_case in Hw.
    - change (lit "http://doi.org/") with (lit "http" ++ lit "://doi.org/") in Hw.
      apply map_eq_app in Hw. destruct Hw as (w1 & w2 & -> & Hw1 & Hw2).
      rewrite <- app_assoc.
      eapply lands_seq; [apply lands_str_ci; exact Hw1|].
      eapply lands_seq.
      + apply lands_opt_skip. destruct w2 as [|x w2]; [discriminate|].
        pose proof Hw2 as Hx. simpl in Hx. injection Hx as Hx _.
        change (N.eqb (lower x) (lower 115) = false).
        apply N.eqb_neq. rewrite Hx. discriminate.
      + eapply lands_seq; [apply lands_str_ci; exact Hw2|].
        apply lands_group with (k' := None). now apply lands_doi_core.
    - change (lit "https://doi.org/")
        with (lit "http" ++ [115%N] ++ lit "://doi.org/") in Hw.
      apply map_eq_app in Hw. destruct Hw as (w1 & w' & -> & Hw1 & Hw').
      apply map_eq_app in Hw'. destruct Hw' as (ws & w2 & -> & Hs & Hw2).
      destruct ws as [|x [|? ?]]; try discriminate.
      simpl in Hs. injection Hs as Hx.
      rewrite <- !app_assoc.
      eapply lands_seq; [apply lands_str_ci; exact Hw1|].
      eapply lands_seq.
      + simpl app. apply lands_opt_take. apply N.eqb_eq.
        change (lower 115) with 115%N. exact Hx.
      + eapply lands_seq; [apply lands_str_ci; exact Hw2|].
        apply lands_group with (k' := None). now apply lands_doi_core. }
  exact (Hl sn).
Qed.

Lemma url_shape sn rs st' :
  match_at pat_doi_url sn rs = Some st' ->
  exists w d post,
    rs = w ++ d ++ post
    /\ (in_any_case (lit "http://doi.org/") w
        \/ in_any_case (lit "https://doi.org/") w)
    /\ is_doi d /\ blocked not_space post.
Proof.
  intro H. apply first_is_a_match, run_sound in H.
  change pat_doi_url
    with (Seq (str_i (lit "http"))
              (Seq (Alt (chr_i 115) Eps)
                   (Seq (str_i (lit "://doi.org/")) (Group doi_core)))) in H.
  destruct H as (s1 & H1 & s2 & H2 & s3 & H3 & s4 & H4 & _).
  apply denotes_str_i in H1. destruct H1 as (w1 & Hw1 & P1).
  apply denotes_str_i in H3. destruct H3 as (w2 & Hw2 & P3).
  apply doi_core_passes in H4. destruct H4 as (d0 & Hd0 & P4).
  destruct (run_split not_space (rest s4)) as (x & post & Hr & Hx & Hb).
  destruct H2 as [H2 | H2].
  - apply denotes_class in H2. destruct H2 as (c & Hc & P2).
    apply N.eqb_eq in Hc.
    exists (w1 ++ [c] ++ w2), (d0 ++ x), post. repeat split; auto.
    + unfold passes in *. simpl in P1. rewrite P1, P2, P3, P4, Hr, <- !app_assoc.
      reflexivity.
    + right. unfold in_any_case, toLowerCase in *.
      rewrite !map_app, Hw1, Hw2. simpl. rewrite Hc. reflexivity.
    + now apply is_doi_extend.
  - simpl in H2. subst s2.
    exists (w1 ++ w2), (d0 ++ x), post. repeat split; auto.
    + unfold passes in *. simpl in P1. rewrite P1, P3, P4, Hr, <- !app_assoc.
      reflexivity.
    + left. unfold in_any_case, toLowerCase in *.
      rewrite !map_app, Hw1, Hw2. reflexivity.
    + now apply is_doi_extend.
Qed.

(** *** The bare DOI *)

Lemma word_not_space c : is_word c = true -> is_space c = false.
Proof.
  intro H. apply not_true_is_false. intro Hs. revert H Hs.
  unfold is_word, is_alpha, is_upper, is_lower, is_digit, is_space, in_range.
  rewrite !orb_true_iff, !andb_true_iff, !N.leb_le, !N.eqb_eq. lia.
Qed.

Lemma space_not_word c : is_space c = true -> is_word c = false.
Proof.
  intro H. destruct (is_word c) eqn:E; [|reflexivity].
  apply word_not_space in E. congruence.
Qed.

Lemma word_not_punct c : is_word c = true -> is_punct c = false.
Proof.
  intro H. apply not_true_is_false. intro Hp. revert H Hp.
  unfold is_word, is_alpha, is_upper, is_lower, is_digit, in_range, is_punct.
  simpl existsb.
  rewrite !orb_true_iff, !andb_true_iff, !N.leb_le, !N.eqb_eq. lia.
Qed.

Lemma digit_not_slash c : is_digit c = true -> N.eqb 47 c = false.
Proof.
  unfold is_digit, in_range. rewrite andb_true_iff, !N.leb_le.
  intro H. apply N.eqb_neq. lia.
Qed.

Lemma mark_not_space c : is_mark c = true -> not_space c = true.
Proof. unfold is_mark. now intros [H _]%andb_true_iff. Qed.

Lemma mark_not_word c : is_mark c = true -> is_word c = false.
Proof.
  unfold is_mark. intros [_ H]%andb_true_iff. now apply negb_true_iff in H.
Qed.

Lemma blocked_not_word post :
  blocked not_space post ->
  match post with c :: _ => is_word c | [] => false end = false.
Proof.
  destruct post as [|c t]; [reflexivity|]. simpl. unfold not_space.
  intro H. apply negb_false_iff in H. now apply space_not_word.
Qed.

(** The test [\b] before a text: what was passed does not end with a word
    unit. *)
Lemma word_before pre :
  match rev pre with c :: _ => is_word c | [] => false end = false
  <-> ~ ends_in_word pre.
Proof.
  destruct pre as [|x pre' _] using rev_ind.
  - simpl. split; [|reflexivity]. intros _ (s' & c & H & _).
    destruct s'; discriminate H.
  - rewrite rev_app_distr. simpl. split.
    + intros Hx (s' & c & H & Hc). apply app_inj_tail in H.
      destruct H as [_ ->]. congruence.
    + intro Hn. apply not_true_is_false. intro Hx. apply Hn.
      now exists pre', x.
Qed.

Lemma flat_map_map_comp {A B C} (f : B -> list C) (g : A -> B) l :
  flat_map f (List.map g l) = flat_map (fun x => f (g x)) l.
Proof. induction l as [|x l IH]; simpl; [reflexivity | now rewrite IH]. Qed.

Lemma run_seq a b st : run (Seq a b) st = flat_map (run b) (run a st).
Proof. reflexivity. Qed.

Lemma run_wordb st : run WordB st = if at_word_boundary st then [st] else [].
Proof. reflexivity. Qed.

(** After the digits, only the state that passed all of them finds the
    slash. *)
Lemma digits_then_slash W k R : forall ds sn,
  all_in is_digit ds ->
  flat_map (run (Seq (chr 47) W)) (run_states sn ds (47%N :: R) k)
  = run W (MState (47%N :: rev ds ++ sn) R k).
Proof.
  induction ds as [|c ds IH]; intros sn Hds.
  - cbn [run_states flat_map rev app]. rewrite app_nil_r, run_seq.
    change (run (chr 47) (MState sn (47%N :: R) k)) with [MState (47%N :: sn) R k].
    cbn [flat_map]. apply app_nil_r.
  - inversion Hds as [|? ? Hc Hds']; subst.
    cbn [run_states]. rewrite flat_map_app, IH by exact Hds'.
    cbn [flat_map].
    assert (Hno : run (Seq (chr 47) W) (MState sn ((c :: ds) ++ 47%N :: R) k) = []).
    { apply none_seq. apply none_chr. simpl. now apply digit_not_slash. }
    rewrite Hno. cbn [rev]. rewrite !app_nil_r, <- app_assoc. reflexivity.
Qed.

(** All the matches of the core on a DOI: one for each non-empty prefix of
    what follows the slash, the longest first. *)
Lemma doi_core_states sn ds c r post k :
  4 <= length ds -> all_in is_digit ds ->
  not_space c = true -> all_in not_space r -> blocked not_space post ->
  run doi_core (MState sn (lit "10." ++ ds ++ 47%N :: c :: r ++ post) k)
  = run_states (c :: 47%N :: rev ds ++ rev (lit "10.") ++ sn) r post k.
Proof.
  intros Hlen Hds Hc Hr Hpost.
  change doi_core
    with (Seq (str (lit "10."))
              (Seq (Seq (times 4 digit) (Star true digit))
                   (Seq (chr 47) (Seq non_space (Star true non_space))))).
  rewrite (@run_seq_only _ _ _ _ (run_str_only (lit "10.") sn _ k)).
  rewrite run_seq.
  assert (Hsplit : all_in is_digit (firstn 4 ds) /\ all_in is_digit (skipn 4 ds)).
  { unfold all_in in *. apply Forall_app. now rewrite firstn_skipn. }
  destruct Hsplit as [Hhead Htail].
  assert (Hdigits :
    run (Seq (times 4 digit) (Star true digit))
        (MState (rev (lit "10.") ++ sn) (ds ++ 47%N :: c :: r ++ post) k)
    = run_states (rev (firstn 4 ds) ++ rev (lit "10.") ++ sn) (skipn 4 ds)
                 (47%N :: c :: r ++ post) k).
  { rewrite <- (firstn_skipn 4 ds) at 1. rewrite <- app_assoc.
    rewrite (@run_seq_only _ _ _ _ (@run_times_only is_digit 4 (firstn 4 ds) _ _ k
                                      (firstn_length_le ds Hlen) Hhead)).
    apply star_class_states; [exact Htail | reflexivity]. }
  rewrite Hdigits, digits_then_slash by exact Htail.
  rewrite (@run_seq_only non_space (Star true non_space) _
             (MState (c :: 47%N :: rev (skipn 4 ds) ++ rev (firstn 4 ds)
                        ++ rev (lit "10.") ++ sn) (r ++ post) k)).
  2:{ unfold non_space. rewrite run_chr_cons. unfold not_space in Hc.
      now rewrite Hc. }
  rewrite (@star_class_states _ _ _ _ k Hr Hpost).
  rewrite (app_assoc (rev (skipn 4 ds))), <- rev_app_distr, firstn_skipn.
  reflexivity.
Qed.

Section Boundary.

(** A state seen through the closing of the group: the same position. *)
Variable cl : mstate -> mstate.
Hypothesis cl_seen : forall st, seen (cl st) = seen st.
Hypothesis cl_rest : forall st, rest (cl st) = rest st.

Variable post : js_string.
Hypothesis post_blocked : blocked not_space post.

Lemma boundary_cl st : at_word_boundary (cl st) = at_word_boundary st.
Proof. unfold at_word_boundary. now rewrite cl_seen, cl_rest. Qed.

(** Between two code units that are no word units there is no boundary. *)
Lemma marks_no_boundary k : forall tail sn z,
  is_word z = false -> all_in is_mark tail ->
  flat_map (fun st => run WordB (cl st)) (run_states (z :: sn) tail post k) = [].
Proof.
  induction tail as [|c t IH]; intros sn z Hz Htail.
  - cbn [run_states flat_map]. rewrite run_wordb, boundary_cl.
    unfold at_word_boundary. cbn [seen rest].
    now rewrite Hz, (blocked_not_word _ post_blocked).
  - inversion Htail as [|? ? Hc Ht]; subst.
    cbn [run_states]. rewrite flat_map_app, IH; [|now apply mark_not_word | exact Ht].
    cbn [flat_map app]. rewrite run_wordb, boundary_cl.
    unfold at_word_boundary. cbn [seen rest app].
    now rewrite Hz, (mark_not_word _ Hc).
Qed.

(** After a word unit and code units that are none, the boundary is at the
    word unit. *)
Lemma word_then_marks k tail sn z :
  is_word z = true -> all_in is_mark tail ->
  flat_map (fun st => run WordB (cl st)) (run_states (z :: sn) tail post k)
  = [cl (MState (z :: sn) (tail ++ post) k)].
Proof.
  intros Hz Htail. destruct tail as [|c t].
  - cbn [run_states flat_map app]. rewrite run_wordb, boundary_cl.
    unfold at_word_boundary. cbn [seen rest].
    now rewrite Hz, (blocked_not_word _ post_blocked).
  - inversion Htail as [|? ? Hc Ht]; subst.
    cbn [run_states]. rewrite flat_map_app.
    rewrite marks_no_boundary; [|now apply mark_not_word | exact Ht].
    cbn [flat_map app]. rewrite run_wordb, boundary_cl.
    unfold at_word_boundary. cbn [seen rest app].
    now rewrite Hz, (mark_not_word _ Hc).
Qed.

End Boundary.

(** A text with a word unit ends, after its last word unit, with code units
    that are none. *)
Lemma last_word_unit : forall r,
  Forall (fun c => is_word c = false) r
  \/ exists x z tail, r = x ++ z :: tail /\ is_word z = true
                      /\ Forall (fun c => is_word c = false) tail.
Proof.
  induction r as [|c r IH]; [left; constructor|].
  destruct IH as [Hall | (x & z & tail & -> & Hz & Htail)].
  - destruct (is_word c) eqn:Hc.
    + right. exists [], c, r. repeat split; assumption.
    + left. now constructor.
  - right. exists (c :: x), z, tail. repeat split; assumption.
Qed.

(** The bare pattern at a DOI: the group ends at the last word unit of the
    run. *)
Lemma bare_match pre d tail post :
  ~ ends_in_word pre -> is_doi d -> ends_in_word d ->
  all_in is_mark tail -> blocked not_space post ->
  exists sn',
    match_at pat_plain (rev pre) (d ++ tail ++ post)
    = Some (MState sn' (tail ++ post) (Some d)).
Proof.
  intros Hpre (ds & suf & Hd & Hlen & Hds & Hne & Hsuf) (d' & z & Hz & Hword)
         Htail Hpost.
  destruct (exists_last Hne) as (s0 & z0 & Hs0).
  assert (z0 = z).
  { rewrite Hd, Hs0 in Hz. rewrite !app_assoc in Hz.
    apply app_inj_tail in Hz. now destruct Hz. }
  subst z0.
  destruct suf as [|c x']; [congruence|].
  apply Forall_cons_iff in Hsuf. destruct Hsuf as [Hc Hx'].
  set (st0 := start_at (rev pre) (d ++ tail ++ post)).
  set (cl := fun st' => MState (seen st') (rest st') (Some (consumed st0 st'))).
  set (S0 := 47%N :: rev ds ++ rev (lit "10.") ++ rev pre).
  assert (Hrest : d ++ tail ++ post
                  = lit "10." ++ ds ++ 47%N :: c :: (x' ++ tail) ++ post).
  { rewrite Hd, <- ?app_assoc. simpl. rewrite <- ?app_assoc. reflexivity. }
  assert (Hrun : run (Group doi_core) st0
                 = List.map cl (run_states (c :: S0) (x' ++ tail) post None)).
  { change (run (Group doi_core) st0) with (List.map cl (run doi_core st0)).
    f_equal. unfold st0, start_at. rewrite Hrest.
    apply doi_core_states; auto.
    apply Forall_app. split; [exact Hx'|].
    eapply Forall_impl; [|exact Htail]. apply mark_not_space. }
  assert (Hb0 : at_word_boundary st0 = true).
  { unfold at_word_boundary, st0, start_at. cbn [seen rest].
    rewrite (proj2 (word_before pre) Hpre), Hrest. reflexivity. }
  destruct (run_states_app None post x' tail (c :: S0)) as (shorter & Hsh).
  assert (Hseen : rev x' ++ c :: S0 = z :: rev s0 ++ S0).
  { change (rev x' ++ c :: S0) with (rev x' ++ [c] ++ S0).
    rewrite app_assoc. change (rev x' ++ [c]) with (rev (c :: x')).
    rewrite Hs0, rev_app_distr. reflexivity. }
  unfold match_at. fold st0.
  change pat_plain with (Seq WordB (Seq (Group doi_core) WordB)).
  rewrite run_seq, run_wordb, Hb0. cbn [flat_map]. rewrite app_nil_r.
  rewrite run_seq, Hrun, flat_map_map_comp, Hsh, Hseen, flat_map_app.
  rewrite (@word_then_marks cl (fun _ => eq_refl) (fun _ => eq_refl) post Hpost
             None tail (rev s0 ++ S0) z Hword Htail).
  cbn [app hd_error]. unfold cl at 1. cbn [seen rest].
  eexists. do 3 f_equal.
  apply consumed_passes. reflexivity.
Qed.

(** Where the bare pattern matches, there is a DOI between word
    boundaries. *)
Lemma bare_shape pre rs st' :
  match_at pat_plain (rev pre) rs = Some st' ->
  exists d tail post,
    rs = d ++ tail ++ post /\ ~ ends_in_word pre /\ is_doi d
    /\ ends_in_word d /\ all_in is_mark tail /\ blocked not_space post.
Proof.
  intro H. apply first_is_a_match, run_sound in H.
  change pat_plain with (Seq WordB (Seq (Group doi_core) WordB)) in H.
  destruct H as (s1 & (Hb1 & ->) & s2 & (s3 & Hcore & ->) & (Hb2 & _)).
  pose proof (denotes_input _ _ _ Hcore) as Hin.
  apply doi_core_passes in Hcore. destruct Hcore as (d0 & Hd0 & P).
  pose proof (passes_seen Hin P) as Hseen.
  unfold passes in P. cbn [start_at rest seen] in P, Hseen.
  destruct (run_split not_space (rest s3)) as (y & post & Hr & Hy & Hpost).
  destruct Hd0 as (ds & suf & -> & Hlen & Hds & Hne & Hsuf).
  (* the run after the slash has a word unit *)
  destruct (last_word_unit (suf ++ y)) as [Hnone | (x & z & tail & Hxz & Hz & Htail)].
  { exfalso. apply Forall_app in Hnone. destruct Hnone as [Hsufn Hyn].
    destruct (exists_last Hne) as (s0 & z0 & ->).
    apply Forall_app in Hsufn. destruct Hsufn as [_ Hz0].
    apply Forall_cons_iff in Hz0. destruct Hz0 as [Hz0' _].
    unfold at_word_boundary in Hb2. cbn [seen rest] in Hb2.
    rewrite Hseen, Hr in Hb2.
    rewrite !rev_app_distr in Hb2. cbn [rev app] in Hb2.
    rewrite Hz0' in Hb2.
    destruct y as [|c y'].
    - simpl in Hb2. rewrite (blocked_not_word _ Hpost) in Hb2. discriminate.
    - apply Forall_cons_iff in Hyn. destruct Hyn as [Hc _].
      simpl in Hb2. rewrite Hc in Hb2. discriminate. }
  assert (Hrun : all_in not_space (suf ++ y)) by (apply Forall_app; now split).
  rewrite Hxz in Hrun. apply Forall_app in Hrun. destruct Hrun as [Hx Hzt].
  apply Forall_cons_iff in Hzt. destruct Hzt as [Hzs Hts].
  exists (lit "10." ++ ds ++ [47%N] ++ x ++ [z]), tail, post.
  repeat split.
  - rewrite P, Hr. rewrite <- !app_assoc. do 3 f_equal.
    rewrite !app_assoc. rewrite <- (app_assoc x). simpl. rewrite <- Hxz.
    now rewrite <- !app_assoc.
  - apply word_before. unfold at_word_boundary in Hb1.
    cbn [start_at seen rest] in Hb1. rewrite P in Hb1. simpl in Hb1.
    destruct (match rev pre with c :: _ => is_word c | [] => false end);
      [discriminate | reflexivity].
  - exists ds, (x ++ [z]). repeat split; auto.
    + destruct x; discriminate.
    + apply Forall_app. split; [exact Hx | now constructor].
  - exists (lit "10." ++ ds ++ [47%N] ++ x), z. split; [|exact Hz].
    now rewrite <- !app_assoc.
  - unfold all_in. apply Forall_forall. intros c Hc. unfold is_mark.
    rewrite Forall_forall in Hts, Htail.
    rewrite (Hts c Hc), (Htail c Hc). reflexivity.
  - exact Hpost.
Qed.

(** ** The first place where a pattern matches *)

Lemma same_prefix {A} : forall (a a' b b' : list A),
  length a = length a' -> a ++ b = a' ++ b' -> a = a' /\ b = b'.
Proof.
  induction a as [|x a IH]; intros [|x' a'] b b' Hlen H; try discriminate.
  - now split.
  - simpl in H. injection H as -> H. simpl in Hlen.
    destruct (IH a' b b') as [-> ->]; [lia | exact H | now split].
Qed.

Section FirstMatch.

(** A pattern, and what it is to hold a DOI [d] after [pre] in a text. *)
Variable p : regex.
Variable holds : js_string -> js_string -> js_string -> Prop.

Hypothesis holds_split :
  forall text pre d, holds text pre d -> exists rs, text = pre ++ rs.
Hypothesis complete :
  forall pre rs d,
    holds (pre ++ rs) pre d ->
    exists st', match_at p (rev pre) rs = Some st' /\ cap st' = Some d.
Hypothesis shape :
  forall pre rs st',
    match_at p (rev pre) rs = Some st' -> exists d, holds (pre ++ rs) pre d.

Lemma js_match_first text pre d :
  holds text pre d ->
  exists pre0 d0 m,
    first_of (holds text) pre0 d0
    /\ js_match p text = Some m /\ m_group m = Some d0.
Proof.
  intro H. destruct (@holds_split _ _ _ H) as (rs & Htext).
  unfold js_match.
  destruct (search p [] text) as [[st st']|] eqn:Hs.
  - apply search_first in Hs. destruct Hs as (a & b & Heq & -> & Hm & Hmin).
    rewrite app_nil_r in Hm.
    destruct (@shape _ _ _ Hm) as (d0 & Hd0).
    destruct (@complete _ _ _ Hd0) as (st2 & Hat2 & Hcap2).
    rewrite Hm in Hat2. injection Hat2 as <-.
    exists a, d0. eexists. split; [|split; [reflexivity | exact Hcap2]].
    rewrite <- Heq in Hd0. split; [exact Hd0|].
    intros pre' d' H'. destruct (@holds_split _ _ _ H') as (rs' & Hrs').
    assert (Hat' : exists st3, match_at p (rev pre') rs' = Some st3
                               /\ cap st3 = Some d').
    { apply complete. now rewrite <- Hrs'. }
    destruct Hat' as (st3 & Hat3 & Hcap3).
    assert (Hle : length a <= length pre').
    { destruct (Nat.le_gt_cases (length a) (length pre')) as [|Hlt]; [assumption|].
      exfalso. specialize (Hmin pre' rs'). rewrite app_nil_r in Hmin.
      rewrite Hmin in Hat3; [discriminate | congruence | exact Hlt]. }
    split; [exact Hle|]. intro Hlen.
    assert (Hsame : pre' = a /\ rs' = b)
      by (apply same_prefix; [exact Hlen | congruence]).
    destruct Hsame as [-> ->]. rewrite Hm in Hat3. injection Hat3 as <-.
    congruence.
  - exfalso. destruct (@complete pre rs d) as (st1 & Hat & _).
    { now rewrite <- Htext. }
    pose proof (@search_none_at _ _ _ Hs pre rs Htext) as Hn.
    rewrite app_nil_r in Hn. congruence.
Qed.

Lemma js_match_nowhere text :
  (forall pre d, ~ holds text pre d) -> js_match p text = None.
Proof.
  intro Hno. unfold js_match.
  destruct (search p [] text) as [[st st']|] eqn:Hs; [|reflexivity].
  exfalso. apply search_first in Hs. destruct Hs as (a & b & -> & -> & Hm & _).
  rewrite app_nil_r in Hm. destruct (@shape _ _ _ Hm) as (d & Hd).
  exact (Hno a d Hd).
Qed.

Lemma js_match_none_nowhere text :
  js_match p text = None -> forall pre d, ~ holds text pre d.
Proof.
  unfold js_match. intros Hn pre d H.
  destruct (search p [] text) as [[? ?]|] eqn:Hs; [discriminate|].
  destruct (@holds_split _ _ _ H) as (rs & Htext).
  destruct (@complete pre rs d) as (st1 & Hat & _).
  { now rewrite <- Htext. }
  pose proof (@search_none_at _ _ _ Hs pre rs Htext) as Hn'.
  rewrite app_nil_r in Hn'. congruence.
Qed.

End FirstMatch.

(** The three kinds of place, with their patterns. *)

Lemma marker_split text pre d :
  doi_after_marker text pre d -> exists rs, text = pre ++ rs.
Proof. intros (w & ws & post & -> & _). eauto. Qed.

Lemma marker_complete pre rs d :
  doi_after_marker (pre ++ rs) pre d ->
  exists st', match_at pat_doi_prefix (rev pre) rs = Some st' /\ cap st' = Some d.
Proof.
  intros (w & ws & post & Heq & Hw & Hws & Hd & Hpost).
  apply app_inv_head in Heq. subst rs.
  destruct (@marker_match (rev pre) w ws d post Hw Hws Hd Hpost) as (sn' & H).
  eexists. split; [exact H | reflexivity].
Qed.

Lemma marker_place pre rs st' :
  match_at pat_doi_prefix (rev pre) rs = Some st' ->
  exists d, doi_after_marker (pre ++ rs) pre d.
Proof.
  intro H. apply marker_shape in H.
  destruct H as (w & ws & d & post & -> & Hw & Hws & Hd & Hpost).
  exists d, w, ws, post. auto.
Qed.

Lemma url_split text pre d :
  doi_in_url text pre d -> exists rs, text = pre ++ rs.
Proof. intros (w & post & -> & _). eauto. Qed.

Lemma url_complete pre rs d :
  doi_in_url (pre ++ rs) pre d ->
  exists st', match_at pat_doi_url (rev pre) rs = Some st' /\ cap st' = Some d.
Proof.
  intros (w & post & Heq & Hw & Hd & Hpost).
  apply app_inv_head in Heq. subst rs.
  destruct (@url_match (rev pre) w d post Hw Hd Hpost) as (sn' & H).
  eexists. split; [exact H | reflexivity].
Qed.

Lemma url_place pre rs st' :
  match_at pat_doi_url (rev pre) rs = Some st' ->
  exists d, doi_in_url (pre ++ rs) pre d.
Proof.
  intro H. apply url_shape in H.
  destruct H as (w & d & post & -> & Hw & Hd & Hpost).
  exists d, w, post. auto.
Qed.

Lemma bare_split text pre d :
  bare_doi text pre d -> exists rs, text = pre ++ rs.
Proof. intros (tail & post & -> & _). eauto. Qed.

Lemma bare_complete pre rs d :
  bare_doi (pre ++ rs) pre d ->
  exists st', match_at pat_plain (rev pre) rs = Some st' /\ cap st' = Some d.
Proof.
  intros (tail & post & Heq & Hpre & Hd & Hword & Htail & Hpost).
  apply app_inv_head in Heq. subst rs.
  destruct (@bare_match pre d tail post Hpre Hd Hword Htail Hpost) as (sn' & H).
  eexists. split; [exact H | reflexivity].
Qed.

Lemma bare_place pre rs st' :
  match_at pat_plain (rev pre) rs = Some st' ->
  exists d, bare_doi (pre ++ rs) pre d.
Proof.
  intro H. apply bare_shape in H.
  destruct H as (d & tail & post & -> & Hpre & Hd & Hword & Htail & Hpost).
  exists d, tail, post. repeat split; assumption.
Qed.

(** No stripping for a DOI that ends with a word unit. *)
Lemma strip_punct_word d : ends_in_word d -> strip_punct d = d.
Proof.
  intros (d' & z & -> & Hz). unfold strip_punct.
  rewrite rev_app_distr. simpl. now rewrite (word_not_punct _ Hz).
Qed.

(** ** The loop over the four patterns, by name *)

Lemma no_match_in_nothing q : In q patterns -> js_match q [] = None.
Proof.
  intros [<- | [<- | [<- | [<- | []]]]]; vm_compute; reflexivity.
Qed.

Lemma extract_by text before q after m :
  patterns = before ++ q :: after ->
  (forall q', In q' before -> js_match q' text = None) ->
  js_match q text = Some m ->
  extractDOI text = option_map strip_punct (m_group m).
Proof.
  intros Hsplit Hnone Hm.
  assert (Hq : In q patterns)
    by (rewrite Hsplit; apply in_or_app; right; now left).
  destruct (@js_match_group q text m Hq Hm) as (g & Hg & _).
  unfold extractDOI. destruct text as [|c text].
  - rewrite (@no_match_in_nothing q Hq) in Hm. discriminate.
  - cbn [truthy]. rewrite Hsplit, Hg. cbn [option_map].
    now apply first_doi_skip with (m := m).
Qed.

(** ** The claims about DOIs *)

(** C5, counterexample.  The extractor returns a value that still ends with a
    punctuation mark, and a value with nothing after the slash, which the
    pattern [10\.\d{4,}/\S+] does not match; the OpenAlex adapter returns a
    value that keeps a URL prefix. *)
Lemma doi_invariant_fails :
  (extractDOI (lit "doi:10.1234/ab..") = Some (lit "10.1234/ab.")
   /\ ends_with_punct (lit "10.1234/ab."))
  /\ (extractDOI (lit "doi:10.1234/.") = Some (lit "10.1234/")
      /\ test doi_core (lit "10.1234/") = false)
  /\ (a_doi (openalex_record (offline 2024) http_doi_work)
      = Some (lit "http://doi.org/10.1234/ab")
      /\ test (Seq Bol doi_core) (lit "http://doi.org/10.1234/ab") = false).
Proof.
  repeat split; try (vm_compute; reflexivity).
  exists (lit "10.1234/ab"), 46%N. split; reflexivity.
Qed.

(** C5, amended.  A DOI returned by [extractDOI], and so a non-empty DOI of
    the heuristics, is "10." followed by at least four digits, a slash and
    code units that are not white space: it has no URL prefix.  The adapters
    return the DOI of the remote record: CrossRef and Semantic Scholar as it
    is, OpenAlex after the removal of the first "https://doi.org/". *)
Theorem extracted_doi_shape :
  (forall text d, extractDOI text = Some d -> is_doi_stem d)
  /\ (forall text,
        Heuristics.extractDOI text <> [] ->
        is_doi_stem (Heuristics.extractDOI text))
  /\ (forall env item,
        a_doi (crossref_record env item) = Some (opt_or (cr_DOI item) []))
  /\ (forall env item,
        a_doi (s2_record env item) = Some (opt_or (s2_DOI item) []))
  /\ (forall env item,
        a_doi (openalex_record env item)
        = Some (opt_or (option_map (replace_first_str (lit "https://doi.org/") [])
                                   (oa_doi item)) [])).
Proof.
  assert (Hshape : forall text d, extractDOI text = Some d -> is_doi_stem d).
  { intros text d H. unfold extractDOI in H.
    destruct (truthy text); [|discriminate].
    apply first_doi_shape in H; [|auto].
    destruct H as (g & Hg & ->). now apply strip_punct_stem. }
  split; [exact Hshape|]. split; [|repeat split].
  intros text Hne. unfold Heuristics.extractDOI in *.
  destruct (extractDOI text) as [d|] eqn:E; [|congruence].
  apply Hshape in E. destruct d; unfold or_str, truthy in *; [congruence | exact E].
Qed.

(** The DOI extracted from "see doi:10.1234/ab.. here" has that shape. *)
Lemma extracted_doi_shape_witness :
  is_doi_stem (lit "10.1234/ab.")
  /\ is_doi_stem (Heuristics.extractDOI (lit "see doi:10.1234/ab.. here")).
Proof.
  split.
  - apply (proj1 extracted_doi_shape (lit "see doi:10.1234/ab.. here")).
    vm_compute. reflexivity.
  - apply (proj1 (proj2 extracted_doi_shape)). vm_compute. discriminate.
Defined.

(** C7.  The four patterns are tried in the order of the array: the marker
    "doi:", the address at doi.org, the marker "DOI:", the bare DOI.  The
    first pattern that matches gives its group, which is a DOI, with one
    trailing punctuation mark stripped, and there is no result when no
    pattern matches.  What the patterns find: a text that holds a DOI after
    the marker "doi:" (in any case) gives the first such DOI, whatever else
    it holds and wherever; without one, a text that holds a DOI in an address
    at doi.org gives the first such DOI; without either, a text that holds a
    bare DOI between word boundaries gives the first such DOI; a text that
    holds none of the three gives nothing.  The marker "DOI:" matches what
    the marker "doi:" matches under the [i] flag.  In particular a text with
    a DOI after "doi:" gives that DOI when no colon comes before the marker,
    whatever bare DOIs it has before or after it. *)
Theorem doi_prefix_priority :
  patterns = [pat_doi_prefix; pat_doi_url; pat_DOI_prefix; pat_plain]
  /\ (forall text before p after m,
        patterns = before ++ p :: after ->
        (forall q, In q before -> js_match q text = None) ->
        js_match p text = Some m ->
        exists g, m_group m = Some g /\ is_doi g
                  /\ extractDOI text = Some (strip_punct g))
  /\ (forall text,
        (forall q, In q patterns -> js_match q text = None) ->
        extractDOI text = None)
  /\ (forall text pre d,
        doi_after_marker text pre d ->
        exists pre0 d0,
          first_of (doi_after_marker text) pre0 d0
          /\ extractDOI text = Some (strip_punct d0))
  /\ (forall text pre d,
        (forall pre' d', ~ doi_after_marker text pre' d') ->
        doi_in_url text pre d ->
        exists pre0 d0,
          first_of (doi_in_url text) pre0 d0
          /\ extractDOI text = Some (strip_punct d0))
  /\ (forall text pre d,
        (forall pre' d', ~ doi_after_marker text pre' d') ->
        (forall pre' d', ~ doi_in_url text pre' d') ->
        bare_doi text pre d ->
        exists pre0 d0,
          first_of (bare_doi text) pre0 d0
          /\ extractDOI text = Some d0)
  /\ (forall text,
        (forall pre' d', ~ doi_after_marker text pre' d') ->
        (forall pre' d', ~ doi_in_url text pre' d') ->
        (forall pre' d', ~ bare_doi text pre' d') ->
        extractDOI text = None)
  /\ (forall text, js_match pat_DOI_prefix text = js_match pat_doi_prefix text)
  /\ (forall pre ws d post,
        ~ In 58%N pre ->
        all_in is_space ws ->
        is_doi d ->
        blocked not_space post ->
        extractDOI (pre ++ lit "doi:" ++ ws ++ d ++ post) = Some (strip_punct d))
  /\ (forall bare d,
        is_doi bare -> is_doi d -> ~ In 58%N bare ->
        extractDOI (bare ++ lit " doi:" ++ d) = Some (strip_punct d)
        /\ extractDOI (lit "doi:" ++ d ++ lit " " ++ bare) = Some (strip_punct d)).
Proof.
  assert (Hfamily : forall pre ws d post,
             ~ In 58%N pre -> all_in is_space ws -> is_doi d ->
             blocked not_space post ->
             extractDOI (pre ++ lit "doi:" ++ ws ++ d ++ post)
             = Some (strip_punct d)).
  { intros pre ws d post Hpre Hws Hd Hpost.
    destruct (@doi_prefix_match pre ws d post Hpre Hws Hd Hpost) as (m & Hm & Hg).
    rewrite (@extract_by _ [] pat_doi_prefix _ m eq_refl (fun q (H : In q []) =>
               match H with end) Hm).
    now rewrite Hg. }
  assert (Hnone : forall text,
             (forall q, In q patterns -> js_match q text = None) ->
             extractDOI text = None).
  { intros text Hnone. unfold extractDOI.
    destruct (truthy text); [|reflexivity]. now apply first_doi_none. }
  assert (Hmarker : forall text,
             (forall pre' d', ~ doi_after_marker text pre' d') ->
             js_match pat_doi_prefix text = None).
  { intros text. apply (@js_match_nowhere pat_doi_prefix doi_after_marker marker_place). }
  assert (Hurl : forall text,
             (forall pre' d', ~ doi_in_url text pre' d') ->
             js_match pat_doi_url text = None).
  { intros text. apply (@js_match_nowhere pat_doi_url doi_in_url url_place). }
  assert (Hbare : forall text,
             (forall pre' d', ~ bare_doi text pre' d') ->
             js_match pat_plain text = None).
  { intros text. apply (@js_match_nowhere pat_plain bare_doi bare_place). }
  split; [reflexivity|].
  split.
  { intros text before p after m Hsplit Hbefore Hm.
    assert (Hp : In p patterns)
      by (rewrite Hsplit; apply in_or_app; right; now left).
    destruct (@js_match_group p text m Hp Hm) as (g & Hg & Hdoi).
    exists g. split; [exact Hg|]. split; [exact Hdoi|].
    rewrite (@extract_by text before p after m Hsplit Hbefore Hm).
    now rewrite Hg. }
  split; [exact Hnone|].
  split.
  { intros text pre d H.
    destruct (@js_match_first pat_doi_prefix doi_after_marker marker_split
                marker_complete marker_place text pre d H)
      as (pre0 & d0 & m & Hfirst & Hm & Hg).
    exists pre0, d0. split; [exact Hfirst|].
    rewrite (@extract_by text [] pat_doi_prefix _ m eq_refl
               (fun q (Hq : In q []) => match Hq with end) Hm).
    now rewrite Hg. }
  split.
  { intros text pre d Hno H.
    destruct (@js_match_first pat_doi_url doi_in_url url_split
                url_complete url_place text pre d H)
      as (pre0 & d0 & m & Hfirst & Hm & Hg).
    exists pre0, d0. split; [exact Hfirst|].
    rewrite (@extract_by text [pat_doi_prefix] pat_doi_url _ m eq_refl); auto.
    - now rewrite Hg.
    - intros q [<- | []]. now apply Hmarker. }
  split.
  { intros text pre d Hno1 Hno2 H.
    destruct (@js_match_first pat_plain bare_doi bare_split
                bare_complete bare_place text pre d H)
      as (pre0 & d0 & m & Hfirst & Hm & Hg).
    exists pre0, d0. split; [exact Hfirst|].
    rewrite (@extract_by text [pat_doi_prefix; pat_doi_url; pat_DOI_prefix]
               pat_plain _ m eq_refl); auto.
    - rewrite Hg. cbn [option_map]. f_equal. apply strip_punct_word.
      destruct Hfirst as [(tail & post & _ & _ & _ & Hword & _) _]. exact Hword.
    - intros q [<- | [<- | [<- | []]]];
        [now apply Hmarker | now apply Hurl | now apply Hmarker]. }
  split.
  { intros text Hno1 Hno2 Hno3. apply Hnone.
    intros q [<- | [<- | [<- | [<- | []]]]];
      [now apply Hmarker | now apply Hurl | now apply Hmarker | now apply Hbare]. }
  split; [reflexivity|].
  split; [exact Hfamily|].
  intros bare d Hbare' Hd Hcolon. split.
  - replace (bare ++ lit " doi:" ++ d)
      with ((bare ++ lit " ") ++ lit "doi:" ++ [] ++ d ++ []).
    2:{ rewrite app_nil_r, <- app_assoc. reflexivity. }
    apply Hfamily; [|constructor|exact Hd|exact I].
    intro Hin. apply in_app_or in Hin.
    destruct Hin as [Hin | [Hin | []]]; [auto | discriminate Hin].
  - change (lit "doi:" ++ d ++ lit " " ++ bare)
      with ([] ++ lit "doi:" ++ [] ++ d ++ lit " " ++ bare).
    apply Hfamily; [intros []|constructor|exact Hd|reflexivity].
Qed.

(** Four texts.  A bare DOI, then a DOI after "DOI:" with a colon earlier in
    the text, then an address at doi.org: the DOI after the marker is
    returned.  An address at doi.org after a bare DOI, without a marker: the
    DOI of the address.  A bare DOI alone, in brackets and followed by a full
    stop: that DOI.  A text that holds no DOI: nothing. *)
Lemma doi_prefix_priority_witness :
  extractDOI (lit "Note: 10.1234/abc, DOI: 10.5555/xyz. Or https://doi.org/10.9999/q")
  = Some (lit "10.5555/xyz")
  /\ (exists pre0 d0,
         first_of (doi_after_marker
                     (lit "Note: 10.1234/abc, DOI: 10.5555/xyz. Or https://doi.org/10.9999/q"))
                  pre0 d0
         /\ extractDOI
              (lit "Note: 10.1234/abc, DOI: 10.5555/xyz. Or https://doi.org/10.9999/q")
            = Some (strip_punct d0))
  /\ extractDOI (lit "See 10.1234/abc and doi: 10.5555/xyz. Also 10.9999/q")
     = Some (lit "10.5555/xyz")
  /\ (extractDOI (lit "10.1234/abc" ++ lit " doi:" ++ lit "10.5555/xyz")
      = Some (lit "10.5555/xyz")
      /\ extractDOI (lit "doi:" ++ lit "10.5555/xyz" ++ lit " " ++ lit "10.1234/abc")
         = Some (lit "10.5555/xyz"))
  /\ (exists pre0 d0,
         first_of (doi_in_url (lit "See 10.1234/abc or HTTP://doi.org/10.9999/q."))
                  pre0 d0
         /\ extractDOI (lit "See 10.1234/abc or HTTP://doi.org/10.9999/q.")
            = Some (strip_punct d0))
  /\ (exists pre0 d0,
         first_of (bare_doi (lit "See (10.1234/abc).")) pre0 d0
         /\ extractDOI (lit "See (10.1234/abc).") = Some d0)
  /\ extractDOI (lit "No identifier: 10.12/abc") = None
  /\ extractDOI (lit "doi:10.1234/") = None.
Proof.
  assert (Hdoi : forall ds suf, 4 <= length ds -> all_in is_digit ds ->
                                suf <> [] -> all_in not_space suf ->
                                is_doi (lit "10." ++ ds ++ [47%N] ++ suf)).
  { intros ds suf H1 H2 H3 H4. exists ds, suf. repeat split; assumption. }
  assert (Habc : is_doi (lit "10.1234/abc")).
  { apply (Hdoi (lit "1234") (lit "abc")); [simpl; lia | repeat constructor
                                            | discriminate | repeat constructor]. }
  assert (Hxyz : is_doi (lit "10.5555/xyz")).
  { apply (Hdoi (lit "5555") (lit "xyz")); [simpl; lia | repeat constructor
                                            | discriminate | repeat constructor]. }
  assert (Hxyz' : is_doi (lit "10.5555/xyz.")).
  { apply (Hdoi (lit "5555") (lit "xyz.")); [simpl; lia | repeat constructor
                                             | discriminate | repeat constructor]. }
  assert (Hq : is_doi (lit "10.9999/q.")).
  { apply (Hdoi (lit "9999") (lit "q.")); [simpl; lia | repeat constructor
                                           | discriminate | repeat constructor]. }
  destruct doi_prefix_priority
    as (_ & Horder & Hnone & Hmarker & Hurl & Hbare & Hnowhere & _ & Hfamily & Hpair).
  split; [|split; [|split; [|split; [|split; [|split; [|split]]]]]].
  - destruct (Horder
                (lit "Note: 10.1234/abc, DOI: 10.5555/xyz. Or https://doi.org/10.9999/q")
                [] pat_doi_prefix [pat_doi_url; pat_DOI_prefix; pat_plain]
                (MatchResult (lit "Note: 10.1234/abc, ") (lit "DOI: 10.5555/xyz.")
                             (Some (lit "10.5555/xyz."))
                             (lit " Or https://doi.org/10.9999/q"))
                eq_refl (fun q (H : In q []) => match H with end) eq_refl)
      as (g & Hg & _ & Hx).
    injection Hg as Hg. subst g. exact Hx.
  - refine (Hmarker
              (lit "Note: 10.1234/abc, DOI: 10.5555/xyz. Or https://doi.org/10.9999/q")
              (lit "Note: 10.1234/abc, ") (lit "10.5555/xyz.") _).
    exists (lit "DOI:"), (lit " "), (lit " Or https://doi.org/10.9999/q").
    repeat split; [repeat constructor | exact Hxyz'].
  - refine (Hfamily (lit "See 10.1234/abc and ") (lit " ") (lit "10.5555/xyz.")
                    (lit " Also 10.9999/q") _ _ Hxyz' _).
    + vm_compute. intuition discriminate.
    + repeat constructor.
    + reflexivity.
  - refine (Hpair (lit "10.1234/abc") (lit "10.5555/xyz") Habc Hxyz _).
    vm_compute. intuition discriminate.
  - refine (Hurl (lit "See 10.1234/abc or HTTP://doi.org/10.9999/q.")
                 (lit "See 10.1234/abc or ") (lit "10.9999/q.") _ _).
    + apply (@js_match_none_nowhere pat_doi_prefix doi_after_marker
               marker_split marker_complete).
      vm_compute. reflexivity.
    + exists (lit "HTTP://doi.org/"), []. repeat split; [left; reflexivity | exact Hq].
  - refine (Hbare (lit "See (10.1234/abc).") (lit "See (") (lit "10.1234/abc") _ _ _).
    + apply (@js_match_none_nowhere pat_doi_prefix doi_after_marker
               marker_split marker_complete).
      vm_compute. reflexivity.
    + apply (@js_match_none_nowhere pat_doi_url doi_in_url url_split url_complete).
      vm_compute. reflexivity.
    + exists (lit ")."), []. repeat split.
      * intros (s' & c & Hs & Hc).
        change (lit "See (") with (lit "See " ++ [40%N]) in Hs.
        apply app_inj_tail in Hs. destruct Hs as [_ <-]. discriminate Hc.
      * exact Habc.
      * now exists (lit "10.1234/ab"), 99%N.
      * repeat constructor.
  - apply Hnowhere.
    + apply (@js_match_none_nowhere pat_doi_prefix doi_after_marker
               marker_split marker_complete).
      vm_compute. reflexivity.
    + apply (@js_match_none_nowhere pat_doi_url doi_in_url url_split url_complete).
      vm_compute. reflexivity.
    + apply (@js_match_none_nowhere pat_plain bare_doi bare_split bare_complete).
      vm_compute. reflexivity.
  - apply Hnone.
    intros q [<- | [<- | [<- | [<- | []]]]]; vm_compute; reflexivity.
Defined.

End DoiProofs.

(* ================================================================== *)
(** * Properties of cleanAbstract *)
(* ================================================================== *)

Module AbstractProofs.

Import Abstract Spec Samples ReFacts.

(** ** trim *)

Lemma trimStart_blocked s : blocked is_space (trimStart s).
Proof.
  induction s as [|c s IH]; simpl; [exact I|].
  destruct (is_space c) eqn:E; [exact IH | exact E].
Qed.

Lemma trimStart_fixed s : blocked is_space s -> trimStart s = s.
Proof. destruct s as [|c s]; simpl; [reflexivity|]. now intros ->. Qed.

Lemma trimStart_suffix s : exists a, s = a ++ trimStart s.
Proof.
  induction s as [|c s (a & IH)]; simpl.
  - now exists [].
  - destruct (is_space c).
    + exists (c :: a). simpl. now rewrite <- IH.
    + now exists [].
Qed.

Lemma trimEnd_prefix s : exists b, s = trimEnd s ++ b.
Proof.
  unfold trimEnd. destruct (trimStart_suffix (rev s)) as (a & H).
  exists (rev a). rewrite <- rev_app_distr, <- H. symmetry. apply rev_involutive.
Qed.

Lemma trimEnd_idempotent s : trimEnd (trimEnd s) = trimEnd s.
Proof.
  unfold trimEnd. rewrite rev_involutive.
  now rewrite trimStart_fixed by apply trimStart_blocked.
Qed.

Lemma trimEnd_blocked s : blocked is_space s -> blocked is_space (trimEnd s).
Proof.
  intro H. destruct (trimEnd_prefix s) as (b & Hb).
  destruct (trimEnd s) as [|c v]; [exact I|].
  rewrite Hb in H. exact H.
Qed.

Lemma trim_idempotent s : trim (trim s) = trim s.
Proof.
  unfold trim.
  rewrite trimStart_fixed by (apply trimEnd_blocked, trimStart_blocked).
  apply trimEnd_idempotent.
Qed.

(** ** Runs of white space *)

Lemma clean_suffix a b : clean (a ++ b) -> clean b.
Proof. induction a as [|c a IH]; simpl; [auto|]. intros [_ H]. auto. Qed.

Lemma clean_prefix a b : clean (a ++ b) -> clean a.
Proof.
  induction a as [|c a IH]; simpl; [auto|]. intros [Hc H]. split; [|auto].
  intro Hs. destruct (Hc Hs) as [-> Hb]. split; [reflexivity|].
  destruct a; [exact I | exact Hb].
Qed.

Lemma clean_trim s : clean s -> clean (trim s).
Proof.
  intro H. unfold trim.
  destruct (trimStart_suffix s) as (a & Ha). rewrite Ha in H.
  apply clean_suffix in H.
  destruct (trimEnd_prefix (trimStart s)) as (b & Hb). rewrite Hb in H.
  now apply clean_prefix in H.
Qed.

Lemma collapse_aux_clean s : forall in_run,
  clean (collapse_aux in_run s)
  /\ (in_run = true -> blocked is_space (collapse_aux in_run s)).
Proof.
  induction s as [|c s IH]; intro in_run; simpl; [auto|].
  destruct (is_space c) eqn:Hc.
  - destruct in_run.
    + apply IH.
    + split; [|discriminate]. simpl. split; [|apply IH].
      intros _. split; [reflexivity|]. now apply IH.
  - split.
    + simpl. split; [congruence | apply IH].
    + intros _. exact Hc.
Qed.

Lemma collapse_aux_blocked s :
  blocked is_space s -> collapse_aux true s = collapse_aux false s.
Proof. destruct s as [|c s]; simpl; [reflexivity|]. now intros ->. Qed.

Lemma collapse_aux_run w : all_in is_space w ->
  forall R, collapse_aux true (w ++ R) = collapse_aux true R.
Proof. induction 1 as [|c w Hc _ IH]; intro R; simpl; [reflexivity|]. now rewrite Hc. Qed.

Lemma clean_collapse y : clean y -> collapse y = y.
Proof.
  unfold collapse. induction y as [|c y IH]; simpl; [reflexivity|].
  intros [Hc Hy]. destruct (is_space c) eqn:E.
  - destruct (Hc eq_refl) as [-> Hb].
    rewrite collapse_aux_blocked by exact Hb. now rewrite IH.
  - now rewrite IH.
Qed.

(** The longest run of white space at the head of a text. *)
Lemma space_run s :
  exists w R, s = w ++ R /\ all_in is_space w /\ blocked is_space R
              /\ length R <= length s.
Proof.
  induction s as [|c s (w & R & -> & Hw & HR & Hlen)].
  - exists [], []. repeat split; constructor.
  - destruct (is_space c) eqn:E.
    + exists (c :: w), R. repeat split; auto.
      * now constructor.
      * simpl. lia.
    + exists [], (c :: w ++ R). repeat split; auto. constructor.
Qed.

(** ** The scan of [/\s+/g] *)

Section ScanSkip.
Variable A : Type.
Variable r : regex.
Variable emit : js_string -> list A.
Variable keep : N -> list A.

Lemma scan_skip w : forall sn R,
  scan r emit keep (length w) sn (w ++ R) = scan r emit keep 0 (rev w ++ sn) R.
Proof.
  induction w as [|c w IH]; intros sn R; [reflexivity|].
  simpl length. simpl app. cbn [scan]. rewrite IH.
  simpl. now rewrite <- app_assoc.
Qed.
End ScanSkip.

Lemma spaces_lands c w R k :
  is_space c = true -> all_in is_space w -> blocked is_space R ->
  lands spaces (c :: w ++ R) k R k.
Proof.
  intros Hc Hw HR. unfold spaces.
  change (plus space) with (Seq (Chr is_space) (Star true (Chr is_space))).
  eapply lands_seq; [now apply lands_class | now apply lands_star].
Qed.

Lemma spaces_no_match sn rs : blocked is_space rs -> match_at spaces sn rs = None.
Proof.
  intro H. unfold match_at, spaces, start_at.
  change (plus space) with (Seq (Chr is_space) (Star true (Chr is_space))).
  rewrite none_seq; [reflexivity|]. now apply none_chr.
Qed.

Lemma scan_spaces n : forall rs sn,
  length rs <= n ->
  scan spaces (fun _ => lit " ") (fun c => [c]) 0 sn rs = collapse rs.
Proof.
  unfold collapse.
  induction n as [|n IH]; intros rs sn Hlen.
  - destruct rs; [|simpl in Hlen; lia]. reflexivity.
  - destruct rs as [|c t]; [reflexivity|].
    destruct (is_space c) eqn:Hc.
    + destruct (space_run t) as (w & R & -> & Hw & HR & HlenR).
      destruct (@spaces_lands c w R None Hc Hw HR sn) as (sn' & Hfirst).
      cbn [scan]. unfold match_at, start_at. rewrite Hfirst.
      assert (Hcons : consumed (MState sn (c :: w ++ R) None) (MState sn' R None)
                      = c :: w).
      { apply (@consumed_passes (c :: w)). reflexivity. }
      rewrite Hcons. cbn [length Nat.sub app]. rewrite Nat.sub_0_r.
      rewrite scan_skip. rewrite IH by (simpl in Hlen; lia).
      simpl. rewrite Hc. now rewrite collapse_aux_run, collapse_aux_blocked.
    + cbn [scan]. rewrite spaces_no_match by (simpl; exact Hc).
      simpl. rewrite Hc. rewrite IH by (simpl in Hlen; lia). reflexivity.
Qed.

Lemma replace_spaces s : replace_all spaces (lit " ") s = collapse s.
Proof. unfold replace_all. now apply scan_spaces with (n := length s). Qed.

(** ** A scan over a text where the regex matches nowhere *)

Lemma scan_no_match_at r by_ : forall rs sn,
  (forall a b, rs = a ++ b -> match_at r (rev a ++ sn) b = None) ->
  scan r (fun _ => by_) (fun c => [c]) 0 sn rs = rs.
Proof.
  induction rs as [|c rs IH]; intros sn Hnone.
  - pose proof (Hnone [] [] eq_refl) as H0. simpl in H0.
    cbn [scan]. now rewrite H0.
  - pose proof (Hnone [] (c :: rs) eq_refl) as H0. simpl in H0.
    cbn [scan]. rewrite H0. cbn [app].
    rewrite IH; [reflexivity|].
    intros a b ->. specialize (Hnone (c :: a) b eq_refl).
    simpl in Hnone. now rewrite <- app_assoc in Hnone.
Qed.

Lemma replace_all_nowhere r by_ s :
  (forall a b, s = a ++ b -> forall sn, match_at r sn b = None) ->
  replace_all r by_ s = s.
Proof.
  intro H. unfold replace_all. apply scan_no_match_at.
  intros a b Hs. now apply H with (a := a).
Qed.

Lemma match_at_in r sn rs st' :
  match_at r sn rs = Some st' -> denotes r (start_at sn rs) st'.
Proof.
  unfold match_at. intro H. apply run_sound.
  destruct (run r (start_at sn rs)); [discriminate|]. inversion H. now left.
Qed.

(** ** Tags and entities *)

Lemma none_of_gt w : all_in (fun x => negb (existsb (N.eqb x) gt_sign)) w -> ~ In 62%N w.
Proof.
  induction 1 as [|c w Hc _ IH]; simpl; [tauto|].
  intros [-> | H]; [cbv in Hc; discriminate Hc | auto].
Qed.

(** A match of a regex made of a literal that begins with "<", then
    [[^>]+], then ">" is a tag. *)
Lemma tag_like_sound (open : js_string) sn rs st' :
  ~ In 62%N open ->
  match_at (Seq (str (60%N :: open)) (Seq (plus (none_of gt_sign)) (chr 62))) sn rs
  = Some st' ->
  exists body b, rs = [60%N] ++ body ++ [62%N] ++ b /\ body <> [] /\ ~ In 62%N body.
Proof.
  intros Hopen H. apply match_at_in in H.
  destruct H as (s1 & H1 & s2 & (s2a & H2a & H2b) & H3).
  apply denotes_str in H1. apply denotes_class in H2a.
  destruct H2a as (c & Hc & Pc).
  apply denotes_star_class in H2b. destruct H2b as (w & Hw & Pw).
  apply denotes_chr in H3.
  pose proof (passes_trans H1 (passes_trans (passes_trans Pc Pw) H3)) as Hall.
  unfold passes in Hall. simpl in Hall.
  exists (open ++ c :: w), (rest st'). split; [|split].
  - rewrite Hall. simpl. repeat (rewrite <- app_assoc; simpl). reflexivity.
  - destruct open; discriminate.
  - intro Hin. apply in_app_or in Hin. destruct Hin as [Hin | [-> | Hin]].
    + auto.
    + cbv in Hc. discriminate Hc.
    + eapply none_of_gt; eassumption.
Qed.

Lemma no_tag_no_match (open : js_string) y :
  ~ In 62%N open -> ~ has_tag y ->
  replace_all (Seq (str (60%N :: open)) (Seq (plus (none_of gt_sign)) (chr 62))) [] y
  = y.
Proof.
  intros Hopen Hno. apply replace_all_nowhere. intros a b -> sn.
  match goal with |- ?m = None => destruct m as [st'|] eqn:E end; [|reflexivity].
  exfalso. apply Hno.
  destruct (@tag_like_sound open sn _ st' Hopen E) as (body & b' & -> & Hne & Hgt).
  now exists a, body, b'.
Qed.

Lemma no_entity_no_match e by_ y : ~ occurs e y -> replace_all (str e) by_ y = y.
Proof.
  intro Hno. apply replace_all_nowhere. intros a b -> sn.
  destruct (match_at (str e) sn b) as [st'|] eqn:E; [|reflexivity].
  exfalso. apply Hno. apply match_at_in in E. apply denotes_str in E.
  unfold passes in E. simpl in E. exists a, (rest st'). now rewrite E.
Qed.

Lemma plain_untouched y :
  plain y ->
  decode_entities
    (replace_all any_tag []
       (replace_all jats_close [] (replace_all jats_open [] y))) = y.
Proof.
  intros [Htag Hent].
  assert (H1 : replace_all jats_open [] y = y).
  { apply (@no_tag_no_match (lit "jats:") y); [|exact Htag].
    simpl. intuition discriminate. }
  assert (H2 : replace_all jats_close [] y = y).
  { apply (@no_tag_no_match (lit "/jats:") y); [|exact Htag].
    simpl. intuition discriminate. }
  assert (H3 : replace_all any_tag [] y = y).
  { apply (@no_tag_no_match [] y); [|exact Htag]. simpl. tauto. }
  rewrite H1, H2, H3. unfold decode_entities.
  assert (He : forall e by_, In e entities -> replace_all (str e) by_ y = y).
  { intros e by_ Hin. apply no_entity_no_match. now apply Hent. }
  rewrite (He (lit "&lt;")) by (simpl; tauto).
  rewrite (He (lit "&gt;")) by (simpl; tauto).
  rewrite (He (lit "&amp;")) by (simpl; tauto).
  rewrite (He (lit "&quot;")) by (simpl; tauto).
  apply He. simpl. tauto.
Qed.

(** What [cleanAbstract] returns has its white space in single spaces and
    none at either end. *)
Lemma cleanAbstract_tidy x :
  clean (cleanAbstract x) /\ trim (cleanAbstract x) = cleanAbstract x.
Proof.
  unfold cleanAbstract. destruct (truthy x); [|split; [exact I | reflexivity]].
  rewrite replace_spaces. split.
  - apply clean_trim. apply collapse_aux_clean.
  - apply trim_idempotent.
Qed.

(** C4, counterexample.  The entities of "&lt;b&gt;" decode to the tag "<b>",
    which a second application removes. *)
Lemma cleanAbstract_not_idempotent :
  cleanAbstract (lit "&lt;b&gt;") = lit "<b>"
  /\ cleanAbstract (cleanAbstract (lit "&lt;b&gt;")) = []
  /\ cleanAbstract (cleanAbstract (lit "&lt;b&gt;")) <> cleanAbstract (lit "&lt;b&gt;").
Proof. vm_compute. repeat split. discriminate. Qed.

(** C4, amended.  [cleanAbstract] is idempotent on every input whose cleaned
    text is plain: it has no tag and none of the five entities. *)
Theorem cleanAbstract_idempotent_when_plain :
  forall x,
    plain (cleanAbstract x) ->
    cleanAbstract (cleanAbstract x) = cleanAbstract x.
Proof.
  intros x Hplain. destruct (cleanAbstract_tidy x) as [Hclean Htrim].
  set (y := cleanAbstract x) in *.
  unfold cleanAbstract at 1. destruct (truthy y) eqn:Hy.
  - rewrite plain_untouched by exact Hplain. rewrite replace_spaces.
    rewrite clean_collapse by exact Hclean. exact Htrim.
  - destruct y; [reflexivity | discriminate].
Qed.

(** No occurrence, by computation. *)
Lemma starts_with_app e b : starts_with e (e ++ b) = true.
Proof. induction e as [|x e IH]; simpl; [reflexivity|]. now rewrite N.eqb_refl. Qed.

Lemma includes_head s e : starts_with e s = true -> includes s e = true.
Proof. intro H. destruct s; simpl; now rewrite H. Qed.

Lemma includes_occurs e y : occurs e y -> includes y e = true.
Proof.
  intros (a & b & ->). induction a as [|c a IH].
  - apply includes_head. exact (starts_with_app e b).
  - simpl. rewrite IH. apply orb_true_r.
Qed.

Lemma no_lt_no_tag y : ~ In 60%N y -> ~ has_tag y.
Proof.
  intros Hno (a & body & b & -> & _). apply Hno.
  apply in_or_app. right. now left.
Qed.

(** The cleaned text of an abstract with JATS and HTML tags, an entity and
    runs of white space is "Hello wor&ld", on which a second application
    changes nothing. *)
Lemma cleanAbstract_idempotent_when_plain_witness :
  cleanAbstract (lit "<jats:p>Hello   <b>wor&amp;ld</b> </jats:p>") = lit "Hello wor&ld"
  /\ cleanAbstract (cleanAbstract (lit "<jats:p>Hello   <b>wor&amp;ld</b> </jats:p>"))
     = cleanAbstract (lit "<jats:p>Hello   <b>wor&amp;ld</b> </jats:p>").
Proof.
  split; [vm_compute; reflexivity|].
  apply cleanAbstract_idempotent_when_plain.
  assert (Hy : cleanAbstract (lit "<jats:p>Hello   <b>wor&amp;ld</b> </jats:p>")
               = lit "Hello wor&ld") by (vm_compute; reflexivity).
  rewrite Hy. split.
  - apply no_lt_no_tag. vm_compute. intuition discriminate.
  - intros e He Hocc. apply includes_occurs in Hocc.
    destruct He as [<- | [<- | [<- | [<- | [<- | []]]]]];
      vm_compute in Hocc; discriminate Hocc.
Defined.

End AbstractProofs.

(* ================================================================== *)
(** * Properties of isValidDOI and formatDOIUrl *)
(* ================================================================== *)

Module DoiUtilProofs.

Import DoiLookup DoiUrl Spec Notions ReFacts DoiProofs AbstractProofs.

(** ** More on the matcher *)

Lemma flat_map_assoc (A B C : Type) (f : A -> list B) (g : B -> list C) l :
  flat_map g (flat_map f l) = flat_map (fun x => flat_map g (f x)) l.
Proof.
  induction l as [|x l IH]; simpl; [reflexivity|].
  now rewrite flat_map_app, IH.
Qed.

Lemma run_seq_assoc a b c st :
  run (Seq (Seq a b) c) st = run (Seq a (Seq b c)) st.
Proof. simpl. apply flat_map_assoc. Qed.

Lemma run_seq_ext a b b' st :
  (forall s, run b s = run b' s) -> run (Seq a b) st = run (Seq a b') st.
Proof. intro H. simpl. apply flat_map_ext. exact H. Qed.

Lemma lands_alt_left a b rs k rs' k' :
  lands a rs k rs' k' -> lands (Alt a b) rs k rs' k'.
Proof.
  intros H sn. destruct (H sn) as (sn' & Hsn). exists sn'. simpl.
  destruct (run a (MState sn rs k)); [discriminate | exact Hsn].
Qed.

Lemma lands_alt_right a b rs k rs' k' :
  (forall sn, run a (MState sn rs k) = []) ->
  lands b rs k rs' k' -> lands (Alt a b) rs k rs' k'.
Proof.
  intros Ha H sn. destruct (H sn) as (sn' & Hsn). exists sn'. simpl.
  now rewrite Ha.
Qed.

Lemma search_none r : forall rs sn,
  (forall a b, rs = a ++ b -> match_at r (rev a ++ sn) b = None) ->
  search r sn rs = None.
Proof.
  induction rs as [|c rs IH]; intros sn Hnone.
  - pose proof (Hnone [] [] eq_refl) as H0. simpl in H0.
    cbn [search]. now rewrite H0.
  - pose proof (Hnone [] (c :: rs) eq_refl) as H0. simpl in H0.
    cbn [search]. rewrite H0. apply IH.
    intros a b ->. specialize (Hnone (c :: a) b eq_refl).
    simpl in Hnone. now rewrite <- app_assoc in Hnone.
Qed.

(** A regex that begins with [^] matches at the start of the input only. *)
Lemma bol_not_inside r c sn rs :
  match_at (Seq Bol r) (c :: sn) rs = None.
Proof. reflexivity. Qed.

Lemma bol_at_start r rs :
  match_at (Seq Bol r) [] rs = match_at r [] rs.
Proof. unfold match_at, start_at. simpl. now rewrite app_nil_r. Qed.

Lemma search_bol r s :
  search (Seq Bol r) [] s
  = match match_at r [] s with
    | Some st' => Some (start_at [] s, st')
    | None => None
    end.
Proof.
  destruct (match_at r [] s) as [st'|] eqn:E.
  - apply search_found. now rewrite bol_at_start.
  - apply search_none. intros a b ->. destruct a as [|x a] using rev_ind.
    + simpl. now rewrite bol_at_start.
    + rewrite rev_app_distr. simpl. apply bol_not_inside.
Qed.

(** ** The prefix of a DOI URL *)

Lemma doi_org_prefix_eq s :
  search doi_org_prefix [] s
  = search (Seq Bol (Seq (str (lit "http"))
                         (Seq (opt (chr 115)) (str (lit "://doi.org/"))))) [] s.
Proof. reflexivity. Qed.

(** The replacement leaves alone a text that does not begin with "h". *)
Lemma strip_prefix_none s :
  blocked (N.eqb 104) s -> replace_first doi_org_prefix [] s = s.
Proof.
  intro Hb. unfold replace_first, js_match.
  rewrite doi_org_prefix_eq, search_bol.
  assert (H : match_at (Seq (str (lit "http"))
                            (Seq (opt (chr 115)) (str (lit "://doi.org/")))) [] s
              = None).
  { unfold match_at, start_at.
    change (str (lit "http"))
      with (Seq (chr 104) (Seq (chr 116) (Seq (chr 116) (chr 112)))).
    rewrite none_seq; [reflexivity|]. apply none_seq. now apply none_chr. }
  now rewrite H.
Qed.

(** The replacement removes "https://doi.org/" and "http://doi.org/" from the
    start of a text. *)
Lemma strip_prefix_https c :
  replace_first doi_org_prefix [] (lit "https://doi.org/" ++ c) = c.
Proof.
  unfold replace_first, js_match. rewrite doi_org_prefix_eq, search_bol.
  assert (Hl : lands (Seq (str (lit "http"))
                          (Seq (opt (chr 115)) (str (lit "://doi.org/"))))
                     (lit "https://doi.org/" ++ c) None c None).
  { change (lit "https://doi.org/" ++ c)
      with (lit "http" ++ 115%N :: lit "://doi.org/" ++ c).
    eapply lands_seq; [apply lands_str|].
    eapply lands_seq; [|apply lands_str].
    apply lands_alt_left. now apply lands_class. }
  destruct (Hl []) as (sn' & H). unfold match_at, start_at. rewrite H.
  reflexivity.
Qed.

Lemma strip_prefix_http c :
  replace_first doi_org_prefix [] (lit "http://doi.org/" ++ c) = c.
Proof.
  unfold replace_first, js_match. rewrite doi_org_prefix_eq, search_bol.
  assert (Hl : lands (Seq (str (lit "http"))
                          (Seq (opt (chr 115)) (str (lit "://doi.org/"))))
                     (lit "http://doi.org/" ++ c) None c None).
  { change (lit "http://doi.org/" ++ c)
      with (lit "http" ++ lit "://doi.org/" ++ c).
    eapply lands_seq; [apply lands_str|].
    eapply lands_seq; [|apply lands_str].
    apply lands_alt_right; [reflexivity|].
    intro sn. exists sn. reflexivity. }
  destruct (Hl []) as (sn' & H). unfold match_at, start_at. rewrite H.
  reflexivity.
Qed.

(** ** The pattern of isValidDOI *)

(** [/^10\.\d{4,}\/[^\s]+$/] *)
Lemma valid_pattern_run st :
  run (seqs [Bol; str (lit "10."); at_least 4 digit; chr 47; plus non_space; Eol]) st
  = run (Seq Bol (Seq doi_core Eol)) st.
Proof.
  change (seqs [Bol; str (lit "10."); at_least 4 digit; chr 47; plus non_space; Eol])
    with (Seq Bol (Seq (str (lit "10."))
                  (Seq (at_least 4 digit) (Seq (chr 47) (Seq (plus non_space) Eol))))).
  change doi_core
    with (Seq (str (lit "10."))
              (Seq (at_least 4 digit) (Seq (chr 47) (plus non_space)))).
  apply run_seq_ext. intro s. rewrite run_seq_assoc.
  apply run_seq_ext. intro s1. rewrite run_seq_assoc.
  apply run_seq_ext. intro s2. now rewrite run_seq_assoc.
Qed.

Lemma search_ext r r' :
  (forall st, run r st = run r' st) ->
  forall s sn, search r sn s = search r' sn s.
Proof.
  intro H. induction s as [|c s IH]; intro sn; cbn [search]; unfold match_at;
    rewrite H; [reflexivity|].
  destruct (hd_error (run r' (start_at sn (c :: s)))); [reflexivity | apply IH].
Qed.

Lemma valid_pattern_search s :
  search (seqs [Bol; str (lit "10."); at_least 4 digit; chr 47; plus non_space; Eol]) [] s
  = search (Seq Bol (Seq doi_core Eol)) [] s.
Proof. apply search_ext. exact valid_pattern_run. Qed.

Lemma valid_pattern_test s :
  test (seqs [Bol; str (lit "10."); at_least 4 digit; chr 47; plus non_space; Eol]) s
  = true <-> is_doi s.
Proof.
  unfold test, js_match. rewrite valid_pattern_search, search_bol. split.
  - destruct (match_at (Seq doi_core Eol) [] s) as [st'|] eqn:E; [|discriminate].
    intros _. apply match_at_in in E.
    destruct E as (s1 & Hcore & Hend & ->).
    pose proof (doi_core_shape Hcore) as Hshape.
    unfold consumed in Hshape. simpl in Hshape. rewrite Hend in Hshape.
    simpl in Hshape. rewrite Nat.sub_0_r, firstn_all in Hshape. exact Hshape.
  - intro Hd.
    assert (Hl : lands (Seq doi_core Eol) (s ++ []) None [] None).
    { eapply lands_seq.
      - apply lands_doi_core; [exact Hd | exact I].
      - intro sn. exists sn. reflexivity. }
    rewrite app_nil_r in Hl. destruct (Hl []) as (sn' & H).
    unfold match_at, start_at. now rewrite H.
Qed.

(** ** White space around a DOI *)

Lemma trimStart_run l s : all_in is_space l -> trimStart (l ++ s) = trimStart s.
Proof. induction 1 as [|c l Hc _ IH]; simpl; [reflexivity|]. now rewrite Hc. Qed.

Lemma all_in_rev p l : all_in p l -> all_in p (rev l).
Proof. unfold all_in. apply Forall_rev. Qed.

Lemma trimEnd_run s r : all_in is_space r -> trimEnd (s ++ r) = trimEnd s.
Proof.
  intro H. unfold trimEnd. rewrite rev_app_distr.
  now rewrite trimStart_run by now apply all_in_rev.
Qed.

Lemma is_doi_head g : is_doi g -> exists t, g = 49%N :: t.
Proof. intros (ds & suf & -> & _). eexists. reflexivity. Qed.

Lemma is_doi_trimEnd g : is_doi g -> trimEnd g = g.
Proof.
  intro H. pose proof (is_doi_trim H) as Ht. unfold trim in Ht.
  destruct (is_doi_head H) as (t & ->). exact Ht.
Qed.

Lemma trim_around g l r :
  is_doi g -> all_in is_space l -> all_in is_space r -> trim (l ++ g ++ r) = g.
Proof.
  intros Hg Hl Hr. unfold trim. rewrite trimStart_run by exact Hl.
  destruct (is_doi_head Hg) as (t & Ht).
  assert (Hs : trimStart (g ++ r) = g ++ r) by (rewrite Ht; reflexivity).
  rewrite Hs, trimEnd_run by exact Hr. now apply is_doi_trimEnd.
Qed.

Lemma trimEnd_head c s : is_space c = false ->
  exists t, trimEnd (c :: s) = c :: t.
Proof.
  intro Hc. destruct (trimEnd_prefix (c :: s)) as (b & Hb).
  destruct (trimEnd (c :: s)) as [|x t] eqn:E.
  - exfalso. unfold trimEnd in E.
    assert (Hnil : trimStart (rev (c :: s)) = []).
    { rewrite <- (rev_involutive (trimStart (rev (c :: s)))), E. reflexivity. }
    assert (Hall : forall u, trimStart u = [] -> all_in is_space u).
    { induction u as [|y u IH]; simpl; [constructor|].
      destruct (is_space y) eqn:Ey; [|discriminate].
      intro Hu. constructor; [exact Ey | now apply IH]. }
    apply Hall in Hnil. apply all_in_rev in Hnil. rewrite rev_involutive in Hnil.
    inversion Hnil; subst. congruence.
  - simpl in Hb. inversion Hb; subst. now exists t.
Qed.

(** Two runs of digits that end at a slash are the same run. *)
Lemma digit_run_unique a : all_in is_digit a ->
  forall b x y, all_in is_digit b -> a ++ 47%N :: x = b ++ 47%N :: y -> a = b.
Proof.
  induction 1 as [|c a Hc _ IH]; intros b x y Hb Heq.
  - destruct b as [|d b]; [reflexivity|]. simpl in Heq.
    inversion Heq; subst. inversion Hb; subst. discriminate.
  - destruct b as [|d b]; simpl in Heq; inversion Heq; subst.
    + discriminate.
    + f_equal. inversion Hb; subst. eapply IH; eassumption.
Qed.

(** ** The claims about the validator *)

Lemma isValidDOI_iff d : isValidDOI d = true <-> d <> [] /\ is_doi (cleanDOI d).
Proof.
  unfold isValidDOI, cleanDOI. destruct d as [|c d]; simpl truthy; cbv iota.
  - split; [discriminate | intros [H _]; congruence].
  - rewrite valid_pattern_test. split; [intro H; split; [discriminate | exact H] | tauto].
Qed.

(** X1.  [isValidDOI] accepts exactly the texts whose cleaned form (the prefix
    "http(s)://doi.org/" removed from the start, then trimmed) is a DOI: "10.",
    at least four digits, a slash and at least one code unit, none of which is
    white space.  So it accepts a DOI with white space around it, and a DOI
    after either prefix with white space behind it. *)
Theorem isValidDOI_accepts :
  (forall d, isValidDOI d = true <-> d <> [] /\ is_doi (cleanDOI d))
  /\ (forall g l r,
        is_doi g -> all_in is_space l -> all_in is_space r ->
        isValidDOI (l ++ g ++ r) = true
        /\ isValidDOI (lit "https://doi.org/" ++ g ++ r) = true
        /\ isValidDOI (lit "http://doi.org/" ++ g ++ r) = true).
Proof.
  split; [exact isValidDOI_iff|].
  intros g l r Hg Hl Hr.
  destruct (is_doi_head Hg) as (t & Ht).
  repeat split; apply isValidDOI_iff; (split; [|unfold cleanDOI]).
  - destruct l; [rewrite Ht|]; discriminate.
  - rewrite strip_prefix_none.
    + rewrite trim_around by assumption. exact Hg.
    + destruct l as [|c l]; [rewrite Ht; reflexivity|].
      inversion Hl as [|? ? Hc _]; subst.
      change (N.eqb 104 c = false). apply N.eqb_neq. intros <-.
      cbv in Hc. discriminate Hc.
  - discriminate.
  - rewrite strip_prefix_https. change (g ++ r) with ([] ++ g ++ r).
    rewrite trim_around; [exact Hg | exact Hg | constructor | exact Hr].
  - discriminate.
  - rewrite strip_prefix_http. change (g ++ r) with ([] ++ g ++ r).
    rewrite trim_around; [exact Hg | exact Hg | constructor | exact Hr].
Qed.

(** The two accepted forms of the DOI 10.1234/abc. *)
Lemma isValidDOI_accepts_witness :
  isValidDOI (lit " 10.1234/abc ") = true
  /\ isValidDOI (lit "https://doi.org/10.1234/abc") = true.
Proof.
  assert (Hg : is_doi (lit "10.1234/abc")).
  { exists (lit "1234"), (lit "abc"). repeat split.
    - simpl. lia.
    - repeat constructor.
    - discriminate.
    - repeat constructor. }
  split.
  - apply (proj2 isValidDOI_accepts (lit "10.1234/abc") (lit " ") (lit " ") Hg);
      repeat constructor.
  - apply (proj2 isValidDOI_accepts (lit "10.1234/abc") [] [] Hg); constructor.
Defined.

(** X2.  [isValidDOI] rejects "10." followed by fewer than four digits and a slash,
    whatever comes after; and it rejects a DOI URL that has white space before
    it, because the prefix is removed before the text is trimmed. *)
Theorem isValidDOI_rejects :
  (forall ds rest_,
      all_in is_digit ds -> length ds < 4 ->
      isValidDOI (lit "10." ++ ds ++ [47%N] ++ rest_) = false)
  /\ (forall l g,
        l <> [] -> all_in is_space l ->
        isValidDOI (l ++ lit "https://doi.org/" ++ g) = false).
Proof.
  split.
  - intros ds x Hds Hlen.
    destruct (isValidDOI (lit "10." ++ ds ++ [47%N] ++ x)) eqn:E; [|reflexivity].
    exfalso. apply isValidDOI_iff in E. destruct E as [_ Hd].
    unfold cleanDOI in Hd. rewrite strip_prefix_none in Hd by reflexivity.
    unfold trim in Hd.
    change (trimStart (lit "10." ++ ds ++ [47%N] ++ x))
      with (lit "10." ++ ds ++ [47%N] ++ x) in Hd.
    destruct (trimEnd_prefix (lit "10." ++ ds ++ [47%N] ++ x)) as (b & Hb).
    destruct Hd as (ds' & suf & Heq & Hlen' & Hds' & _).
    rewrite Heq in Hb. simpl in Hb. inversion Hb as [Hrun].
    rewrite <- app_assoc in Hrun. simpl in Hrun.
    apply digit_run_unique in Hrun; [|exact Hds | exact Hds'].
    subst. lia.
  - intros l g Hne Hl.
    destruct (isValidDOI (l ++ lit "https://doi.org/" ++ g)) eqn:E; [|reflexivity].
    exfalso. apply isValidDOI_iff in E. destruct E as [_ Hd].
    unfold cleanDOI in Hd. rewrite strip_prefix_none in Hd.
    + unfold trim in Hd. rewrite trimStart_run in Hd by exact Hl.
      change (trimStart (lit "https://doi.org/" ++ g))
        with (104%N :: lit "ttps://doi.org/" ++ g) in Hd.
      destruct (@trimEnd_head 104%N (lit "ttps://doi.org/" ++ g) eq_refl) as (t & Ht).
      rewrite Ht in Hd. apply is_doi_head in Hd. destruct Hd as (t' & Hd).
      discriminate Hd.
    + destruct l as [|c l]; [congruence|].
      inversion Hl as [|? ? Hc _]; subst.
      change (N.eqb 104 c = false). apply N.eqb_neq. intros <-.
      cbv in Hc. discriminate Hc.
Qed.

(** "10.123/x" has three digits; " https://doi.org/10.1234/abc" begins with a
    space. *)
Lemma isValidDOI_rejects_witness :
  isValidDOI (lit "10.123/x") = false
  /\ isValidDOI (lit " https://doi.org/10.1234/abc") = false.
Proof.
  split.
  - apply (proj1 isValidDOI_rejects (lit "123") (lit "x")).
    + repeat constructor.
    + simpl. lia.
  - apply (proj2 isValidDOI_rejects (lit " ") (lit "10.1234/abc")).
    + discriminate.
    + repeat constructor.
Defined.

(** X3.  [formatDOIUrl] is idempotent, keeps the verdict of [isValidDOI], and its
    URL cleans back to the same DOI. *)
Theorem formatDOIUrl_round_trip :
  forall d,
    formatDOIUrl (formatDOIUrl d) = formatDOIUrl d
    /\ isValidDOI (formatDOIUrl d) = isValidDOI d
    /\ cleanDOI (formatDOIUrl d) = cleanDOI d.
Proof.
  intro d. destruct d as [|c d]; [repeat split|].
  assert (Hc : cleanDOI (formatDOIUrl (c :: d)) = cleanDOI (c :: d)).
  { unfold formatDOIUrl. simpl truthy. cbv iota. unfold cleanDOI at 1.
    rewrite strip_prefix_https. unfold cleanDOI. apply trim_idempotent. }
  split; [|split; [|exact Hc]].
  - unfold formatDOIUrl at 1. rewrite Hc. reflexivity.
  - unfold isValidDOI.
    change (trim (replace_first doi_org_prefix [] (formatDOIUrl (c :: d))))
      with (cleanDOI (formatDOIUrl (c :: d))).
    rewrite Hc. reflexivity.
Qed.

End DoiUtilProofs.

(* ================================================================== *)
(** * Properties of lookupDOI *)
(* ================================================================== *)

Module LookupProofs.

Import AcademicSearch DoiUrl DoiNet Spec Notions Samples Inputs.

Lemma lookupDOI_cases (env : DoiEnv) doi log :
  trim doi <> [] ->
  Uri.well_formed (cleanDOI doi) = true ->
  lookupDOI env doi log
  = (Normal
       match d_net env (cleanDOI doi) with
       | DoiResponded r =>
           if d_ok r
           then match d_json r with
                | Normal (Some item) => Some (doi_record env (cleanDOI doi) item)
                | _ => None
                end
           else None
       | DoiNetworkError _ => None
       end,
     log ++ [cleanDOI doi]).
Proof.
  intros Hne Hwf. unfold lookupDOI.
  assert (Ht : truthy doi = true).
  { destruct doi; [exfalso; apply Hne; reflexivity | reflexivity]. }
  assert (Hl : (length (trim doi) =? 0) = false).
  { apply Nat.eqb_neq. destruct (trim doi); [congruence | discriminate]. }
  rewrite Ht, Hl. cbn [negb orb].
  unfold d_try_catch, d_bind, d_fetch, d_lift, d_ret. rewrite Hwf. cbn [negb].
  destruct (d_net env (cleanDOI doi)) as [e|r]; [reflexivity|].
  destruct (d_ok r); cbn [negb]; [|reflexivity].
  destruct (d_json r) as [[item|]|e]; reflexivity.
Qed.

Lemma lookupDOI_unsent (env : DoiEnv) doi log :
  trim doi <> [] ->
  Uri.well_formed (cleanDOI doi) = false ->
  lookupDOI env doi log = (Normal None, log).
Proof.
  intros Hne Hwf. unfold lookupDOI.
  assert (Ht : truthy doi = true).
  { destruct doi; [exfalso; apply Hne; reflexivity | reflexivity]. }
  assert (Hl : (length (trim doi) =? 0) = false).
  { apply Nat.eqb_neq. destruct (trim doi); [congruence | discriminate]. }
  rewrite Ht, Hl. cbn [negb orb].
  unfold d_try_catch, d_bind, d_fetch, d_lift, d_ret. rewrite Hwf. reflexivity.
Qed.

Lemma lookupDOI_blank (env : DoiEnv) doi log :
  trim doi = [] -> lookupDOI env doi log = (Normal None, log).
Proof.
  intro Hb. unfold lookupDOI. rewrite Hb. simpl.
  now rewrite orb_true_r.
Qed.

(** X4.  [lookupDOI] never throws.  A blank DOI gives absence and no
    request.  So does a DOI whose cleaned form has a lone surrogate: the URL
    cannot be built and nothing is sent.  Any other DOI gives exactly one
    request, for the cleaned DOI. *)
Theorem lookupDOI_fails_softly :
  forall (env : DoiEnv) doi log,
    (trim doi = [] -> lookupDOI env doi log = (Normal None, log))
    /\ (trim doi <> [] -> Uri.well_formed (cleanDOI doi) = false ->
        lookupDOI env doi log = (Normal None, log))
    /\ (trim doi <> [] -> Uri.well_formed (cleanDOI doi) = true ->
        exists result,
          lookupDOI env doi log = (Normal result, log ++ [cleanDOI doi])).
Proof.
  intros env doi log. split; [|split].
  - apply lookupDOI_blank.
  - apply lookupDOI_unsent.
  - intros Hne Hwf. rewrite lookupDOI_cases by assumption. eauto.
Qed.

Lemma lookupDOI_fails_softly_witness :
  lookupDOI doi_service (lit "   ") [] = (Normal None, [])
  /\ lookupDOI doi_service (lit "10.1234/ab" ++ [55357%N]) [] = (Normal None, [])
  /\ exists result,
       lookupDOI doi_service (lit "https://doi.org/10.1234/abc ") []
       = (Normal result, [lit "10.1234/abc"]).
Proof.
  split; [|split].
  - apply (proj1 (lookupDOI_fails_softly doi_service (lit "   ") [])).
    reflexivity.
  - apply (proj1 (proj2 (lookupDOI_fails_softly doi_service
                           (lit "10.1234/ab" ++ [55357%N]) []))).
    + vm_compute. discriminate.
    + vm_compute. reflexivity.
  - apply (proj2 (proj2 (lookupDOI_fails_softly doi_service
                           (lit "https://doi.org/10.1234/abc ") []))).
    + vm_compute. discriminate.
    + vm_compute. reflexivity.
Defined.

(** X5.  The record [lookupDOI] returns carries the DOI that was asked for, in its
    cleaned form, whatever DOI the remote item has; its URL is never empty;
    its year is never missing when the year of the clock is not 0. *)
Theorem lookupDOI_record :
  forall (env : DoiEnv) doi log hit log',
    lookupDOI env doi log = (Normal (Some hit), log') ->
    a_doi hit = Some (cleanDOI doi)
    /\ present_str (a_url hit)
    /\ a_source hit = Some (lit "CrossRef (DOI)")
    /\ (d_now env <> 0%Z -> present_num (a_year hit)).
Proof.
  intros env doi log hit log' H.
  destruct (trim doi) as [|c t] eqn:Ht.
  - rewrite (@lookupDOI_blank env doi log Ht) in H. discriminate.
  - destruct (Uri.well_formed (cleanDOI doi)) eqn:Hwf.
    2:{ rewrite lookupDOI_unsent in H; [discriminate | rewrite Ht; discriminate | exact Hwf]. }
    rewrite lookupDOI_cases in H; [|rewrite Ht; discriminate | exact Hwf].
    destruct (d_net env (cleanDOI doi)) as [e|r]; [discriminate|].
    destruct (d_ok r); [|discriminate].
    destruct (d_json r) as [[item|]|e]; try discriminate.
    inversion H; subst. repeat split.
    + simpl. destruct (cr_URL item) as [[|x u]|]; simpl; eexists; eexists; reflexivity.
    + intro Hnow. simpl. exists (num_or (cr_year item) (d_now env)).
      split; [reflexivity|]. destruct (cr_year item) as [[|p|p]|]; simpl; congruence.
Qed.

Lemma lookupDOI_record_witness :
  exists hit,
    fst (lookupDOI doi_service (lit "https://doi.org/10.1234/abc") [])
    = Normal (Some hit)
    /\ a_doi hit = Some (lit "10.1234/abc")
    /\ a_url hit = Some (lit "https://doi.org/10.1234/abc").
Proof.
  eexists. split; [vm_compute; reflexivity|].
  split.
  - apply (@lookupDOI_record doi_service (lit "https://doi.org/10.1234/abc") []
             _ [lit "10.1234/abc"]).
    vm_compute. reflexivity.
  - vm_compute. reflexivity.
Defined.

End LookupProofs.

(* ================================================================== *)
(** * Properties of enhanceSearchQuery *)
(* ================================================================== *)

Module EnhancerProofs.

Import QueryEnhancer Spec Notions Samples Inputs AbstractProofs.

(** What an answer gives: the trimmed text when it is between 1 and 199 code
    units long, the query otherwise. *)
Lemma attempt_answers (env : Env) m query body log :
  answers env m body ->
  body <> NullBody ->
  enhance_attempt env m query log
  = (Normal (Some
       match body with
       | ChatBody (Some content) =>
           if (0 <? length (trim content)) && (length (trim content) <? 200)
           then trim content else query
       | _ => query
       end),
     log ++ [CerebrasChat m]).
Proof.
  intros (r & Hnet & Hok & Hjson) Hbody.
  unfold enhance_attempt, bind, fetch, lift, ret. rewrite Hnet, Hok, Hjson.
  cbn [negb].
  destruct body as [| | | |[content|]| |]; try reflexivity; [|congruence].
  destruct (trim content) as [|c t]; [reflexivity|].
  cbn [truthy]. change (0 <? length (c :: t)) with true. cbn [andb].
  destruct (length (c :: t) <? 200); reflexivity.
Qed.

Lemma attempt_fails (env : Env) m query log :
  fails env m ->
  exists outcome,
    enhance_attempt env m query log = (outcome, log ++ [CerebrasChat m])
    /\ (outcome = Normal None \/ exists e, outcome = Throw e).
Proof.
  unfold enhance_attempt, bind, fetch, lift, ret, throw.
  intros [(e & Hnet) | (r & Hnet & Hbad)]; rewrite Hnet.
  - eexists. split; [reflexivity|]. right. eauto.
  - destruct Hbad as [Hok | (e & Hjson)].
    + rewrite Hok. cbn [negb].
      destruct ((status r =? 404)%Z || (status r =? 400)%Z);
        eexists; (split; [reflexivity|]); [now left | right; eauto].
    + destruct (ok r); cbn [negb].
      * rewrite Hjson. eexists. split; [reflexivity|]. right. eauto.
      * destruct ((status r =? 404)%Z || (status r =? 400)%Z);
          eexists; (split; [reflexivity|]); [now left | right; eauto].
Qed.

Lemma skip_failing (env : Env) m models query log :
  fails env m ->
  enhance_models env (m :: models) query log
  = enhance_models env models query (log ++ [CerebrasChat m]).
Proof.
  intro Hf. cbn [enhance_models].
  destruct (attempt_fails query log Hf) as (o & -> & [-> | (e & ->)]); reflexivity.
Qed.

(** An answer whose body is [null] throws at the read of [choices]: the
    loop goes on. *)
Lemma skip_null (env : Env) m models query log :
  answers env m NullBody ->
  enhance_models env (m :: models) query log
  = enhance_models env models query (log ++ [CerebrasChat m]).
Proof.
  intros (r & Hnet & Hok & Hjson). cbn [enhance_models].
  unfold enhance_attempt, bind, fetch, lift, ret, throw.
  rewrite Hnet, Hok, Hjson. reflexivity.
Qed.

Lemma skip_all_failing (env : Env) pre models query : forall log,
  Forall (fails env) pre ->
  enhance_models env (pre ++ models) query log
  = enhance_models env models query (log ++ List.map CerebrasChat pre).
Proof.
  induction pre as [|m pre IH]; intros log Hall.
  - simpl. now rewrite app_nil_r.
  - inversion Hall; subst. simpl app. rewrite skip_failing by assumption.
    rewrite IH by assumption. simpl. now rewrite <- app_assoc.
Qed.

(** Every model either fails or answers. *)
Lemma fails_or_answers (env : Env) m : fails env m \/ exists body, answers env m body.
Proof.
  unfold fails, answers. destruct (net env (CerebrasChat m)) as [e|r] eqn:E.
  - left. left. eauto.
  - destruct (ok r) eqn:Hok.
    + destruct (json r) as [body|e] eqn:Hj.
      * right. exists body, r. auto.
      * left. right. exists r. split; [reflexivity|]. right. eauto.
    + left. right. exists r. auto.
Qed.

Lemma accepted_usable content :
  (0 <? length (trim content)) && (length (trim content) <? 200) = true ->
  usable (trim content).
Proof.
  intro H. apply andb_true_iff in H. destruct H as [H1 H2].
  apply Nat.ltb_lt in H1, H2. repeat split.
  - destruct (trim content); [simpl in H1; lia | discriminate].
  - exact H2.
  - apply trim_idempotent.
Qed.

Lemma enhance_models_result (env : Env) query : forall models log,
  exists result asked,
    enhance_models env models query log
    = (Normal result, log ++ List.map CerebrasChat asked)
    /\ (result = query \/ usable result)
    /\ prefix_of asked models.
Proof.
  induction models as [|m models IH]; intro log.
  - exists query, []. simpl. rewrite app_nil_r. repeat split; auto. now exists [].
  - assert (Hskip : enhance_models env (m :: models) query log
                    = enhance_models env models query (log ++ [CerebrasChat m]) ->
                    exists result asked,
                      enhance_models env (m :: models) query log
                      = (Normal result, log ++ List.map CerebrasChat asked)
                      /\ (result = query \/ usable result)
                      /\ prefix_of asked (m :: models)).
    { intros ->.
      destruct (IH (log ++ [CerebrasChat m])) as (res & asked & Hrun & Hres & (b & Hb)).
      exists res, (m :: asked). rewrite Hrun. simpl. rewrite <- app_assoc.
      repeat split; auto. exists b. simpl. now rewrite Hb. }
    destruct (fails_or_answers env m) as [Hf | (body & Ha)].
    + apply Hskip. now apply skip_failing.
    + assert (Hnull : body = NullBody \/ body <> NullBody)
        by (destruct body; (now left) || (right; discriminate)).
      destruct Hnull as [-> | Hbody]; [apply Hskip; now apply skip_null|].
      cbn [enhance_models]. rewrite (attempt_answers query log Ha Hbody).
      eexists. exists [m]. split; [reflexivity|]. split; [|now exists models].
      destruct body as [| | | |[content|]| |]; auto.
      destruct ((0 <? length (trim content)) && (length (trim content) <? 200)) eqn:E;
        auto. right. now apply accepted_usable.
Qed.

(** X6.  [enhanceSearchQuery] never throws.  It returns the query itself or a
    trimmed, non-empty text of fewer than 200 code units; the models it asks
    are the first ones of the list, in order; without a key it asks none and
    returns the query. *)
Theorem enhanceSearchQuery_is_safe :
  forall (env : Env) apiKey query log,
    (exists result asked,
        enhanceSearchQuery env apiKey query log
        = (Normal result, log ++ List.map CerebrasChat asked)
        /\ (result = query \/ usable result)
        /\ prefix_of asked modelsToTry)
    /\ (apiKey = [] ->
        enhanceSearchQuery env apiKey query log = (Normal query, log)).
Proof.
  intros env apiKey query log. split.
  - unfold enhanceSearchQuery. destruct (truthy apiKey); cbn [negb].
    + apply enhance_models_result.
    + exists query, []. simpl. rewrite app_nil_r. repeat split; auto.
      now exists modelsToTry.
  - intros ->. reflexivity.
Qed.

Lemma enhanceSearchQuery_is_safe_witness :
  enhanceSearchQuery (chat (lit " deep learning | neural networks ")) []
    (lit "deep learning") []
  = (Normal (lit "deep learning"), []).
Proof.
  apply (proj2 (enhanceSearchQuery_is_safe
                  (chat (lit " deep learning | neural networks ")) []
                  (lit "deep learning") [])).
  reflexivity.
Defined.

(** X7.  The first model that answers decides, and no model after it is asked:
    its trimmed text is returned when that is between 1 and 199 code units
    long, and the query otherwise.  Every failure before it is skipped, a
    refused credential (401) like any other; when every model fails the query
    is returned. *)
Theorem enhanceSearchQuery_first_answer :
  forall (env : Env) apiKey query log,
    apiKey <> [] ->
    (forall pre m post content,
        modelsToTry = pre ++ m :: post ->
        Forall (fails env) pre ->
        answers env m (ChatBody (Some content)) ->
        enhanceSearchQuery env apiKey query log
        = (Normal (if (0 <? length (trim content)) && (length (trim content) <? 200)
                   then trim content else query),
           log ++ List.map CerebrasChat (pre ++ [m])))
    /\ (Forall (fails env) modelsToTry ->
        enhanceSearchQuery env apiKey query log
        = (Normal query, log ++ List.map CerebrasChat modelsToTry))
    /\ (forall m r,
          net env (CerebrasChat m) = Responded r -> status r = 401%Z ->
          fails env m).
Proof.
  intros env apiKey query log Hkey.
  assert (Ht : truthy apiKey = true) by (destruct apiKey; [congruence | reflexivity]).
  unfold enhanceSearchQuery. rewrite Ht. cbn [negb]. split; [|split].
  - intros pre m post content Hsplit Hpre Ha. rewrite Hsplit.
    rewrite skip_all_failing by exact Hpre.
    cbn [enhance_models].
    rewrite (attempt_answers query _ Ha) by discriminate.
    rewrite List.map_app, app_assoc. reflexivity.
  - intro Hall.
    rewrite <- (app_nil_r modelsToTry) at 1.
    rewrite skip_all_failing by exact Hall. reflexivity.
  - intros m r Hnet Hst. right. exists r. split; [exact Hnet|]. left.
    unfold ok. rewrite Hst. reflexivity.
Qed.

Lemma enhanceSearchQuery_first_answer_witness :
  enhanceSearchQuery (chat (lit " deep learning | neural networks ")) (lit "key")
    (lit "deep learning") []
  = (Normal (lit "deep learning | neural networks"),
     [CerebrasChat (lit "llama-3.3-70b")])
  /\ enhanceSearchQuery (always_status 401) (lit "key") (lit "deep learning") []
     = (Normal (lit "deep learning"), List.map CerebrasChat modelsToTry).
Proof.
  split.
  - refine (proj1 (@enhanceSearchQuery_first_answer
             (chat (lit " deep learning | neural networks ")) (lit "key")
             (lit "deep learning") [] _)
             [] (lit "llama-3.3-70b") [lit "llama3.1-70b"; lit "llama3.1-8b"]
             (lit " deep learning | neural networks ") eq_refl _ _).
    + discriminate.
    + constructor.
    + eexists. repeat split.
  - refine (proj1 (proj2 (@enhanceSearchQuery_first_answer
             (always_status 401) (lit "key") (lit "deep learning") [] _)) _).
    + discriminate.
    + unfold modelsToTry.
      repeat (apply Forall_cons;
              [right; eexists; split; [reflexivity | now left]|]).
      apply Forall_nil.
Defined.

End EnhancerProofs.

(* ================================================================== *)
(** * More on analyzePaperWithCerebras *)
(* ================================================================== *)

Module AnalyzeProofs.

Import Cerebras Spec Notions Samples Inputs ReFacts DoiUtilProofs.

(** ** The greedy [[\s\S]*] *)

Lemma star_any_states n : forall rs sn k,
  length rs <= n ->
  star_loop (run any) true n (MState sn rs k) = suffix_states sn rs k.
Proof.
  unfold any.
  induction n as [|n IH]; intros rs sn k Hlen.
  - destruct rs; [reflexivity | simpl in Hlen; lia].
  - rewrite star_loop_S. destruct rs as [|c t]; [reflexivity|].
    rewrite run_chr_cons. cbv zeta. cbn [flat_map rest].
    rewrite app_nil_r.
    assert (Hlt : (length t <? length (c :: t)) = true)
      by (apply Nat.ltb_lt; simpl; lia).
    rewrite Hlt, IH by (simpl in Hlen; lia). reflexivity.
Qed.

Lemma run_star_any sn rs k :
  run (Star true any) (MState sn rs k) = suffix_states sn rs k.
Proof. cbn [run rest]. now apply star_any_states. Qed.

Lemma no_brace_after c : ~ In 125%N c ->
  forall sn k, flat_map (run (chr 125)) (suffix_states sn c k) = [].
Proof.
  induction c as [|x c IH]; intros Hno sn k; [reflexivity|].
  cbn [suffix_states]. rewrite flat_map_app, IH by (intro; apply Hno; now right).
  cbn [flat_map app]. unfold chr. rewrite run_chr_cons.
  destruct (N.eqb_spec 125 x) as [<-|]; [|reflexivity].
  exfalso. apply Hno. now left.
Qed.

Lemma last_brace b : forall c sn k,
  ~ In 125%N c ->
  hd_error (flat_map (run (chr 125)) (suffix_states sn (b ++ 125%N :: c) k))
  = Some (MState (125%N :: rev b ++ sn) c k).
Proof.
  induction b as [|x b IH]; intros c sn k Hno.
  - cbn [app suffix_states rev]. rewrite flat_map_app, no_brace_after by exact Hno.
    reflexivity.
  - simpl app. cbn [suffix_states]. rewrite flat_map_app.
    specialize (IH c (x :: sn) k Hno).
    destruct (flat_map (run (chr 125)) (suffix_states (x :: sn) (b ++ 125%N :: c) k));
      [discriminate|].
    simpl in *. rewrite IH. simpl. now rewrite <- app_assoc.
Qed.

Lemma run_chr_hit c sn t k :
  run (chr c) (MState sn (c :: t) k) = [MState (c :: sn) t k].
Proof. unfold chr. now rewrite run_chr_cons, N.eqb_refl. Qed.

Lemma json_object_at b c sn :
  ~ In 125%N c ->
  exists sn',
    match_at json_object sn (123%N :: b ++ 125%N :: c) = Some (MState sn' c None).
Proof.
  intro Hno. unfold match_at, start_at, json_object.
  change (seqs [chr 123; star any; chr 125])
    with (Seq (chr 123) (Seq (Star true any) (chr 125))).
  change (run (Seq (chr 123) (Seq (Star true any) (chr 125)))
              (MState sn (123%N :: b ++ 125%N :: c) None))
    with (flat_map (run (Seq (Star true any) (chr 125)))
            (run (chr 123) (MState sn (123%N :: b ++ 125%N :: c) None))).
  rewrite run_chr_hit. cbn [flat_map]. rewrite app_nil_r.
  change (run (Seq (Star true any) (chr 125)) (MState (123%N :: sn) (b ++ 125%N :: c) None))
    with (flat_map (run (chr 125))
            (run (Star true any) (MState (123%N :: sn) (b ++ 125%N :: c) None))).
  rewrite run_star_any, last_brace by exact Hno. eauto.
Qed.

Lemma json_object_not_before sn x rs :
  x <> 123%N -> match_at json_object sn (x :: rs) = None.
Proof.
  intro Hx. unfold match_at, start_at, json_object.
  change (seqs [chr 123; star any; chr 125])
    with (Seq (chr 123) (Seq (Star true any) (chr 125))).
  rewrite none_seq; [reflexivity|]. apply none_chr.
  change ((123 =? x)%N = false). apply N.eqb_neq. congruence.
Qed.

(** The match of [/\{[\s\S]*\}/] runs from the first "{" to the last "}". *)
Lemma json_object_span a b c :
  ~ In 123%N a -> ~ In 125%N c ->
  exists m,
    js_match json_object (a ++ [123%N] ++ b ++ [125%N] ++ c) = Some m
    /\ m_before m = a /\ m_whole m = [123%N] ++ b ++ [125%N] /\ m_after m = c.
Proof.
  intros Ha Hc. unfold js_match.
  rewrite (@search_skip json_object a [] ([123%N] ++ b ++ [125%N] ++ c)).
  - destruct (@json_object_at b c (rev a ++ []) Hc) as (sn' & Hm).
    simpl app. rewrite (search_found _ _ _ Hm).
    eexists. split; [reflexivity|]. cbn [m_before m_whole m_after seen rest start_at].
    rewrite app_nil_r, rev_involutive. repeat split.
    rewrite (@consumed_passes (123%N :: b ++ [125%N])); [reflexivity|].
    unfold passes. simpl. now rewrite <- app_assoc.
  - intros a1 a2 -> Hne. destruct a2 as [|x a2]; [congruence|].
    simpl app. apply json_object_not_before. intros ->.
    apply Ha. apply in_or_app. right. now left.
Qed.

Section Analyze.

Variable Json : Type.
Variable JSON_parse : js_string -> completion Json.
Variable env : Env.

(** X8.  When the first model answers, what is handed to [JSON.parse] is the text
    from the first "{" to the last "}" of the answer, whatever braces lie
    between them; its value is returned and no other model is asked. *)
Theorem analyze_parses_outer_braces :
  forall text apiKey log a b c v,
    apiKey <> [] ->
    answers env (lit "llama-3.3-70b")
            (ChatBody (Some (a ++ [123%N] ++ b ++ [125%N] ++ c))) ->
    ~ In 123%N a -> ~ In 125%N c ->
    JSON_parse ([123%N] ++ b ++ [125%N]) = Normal v ->
    analyzePaperWithCerebras JSON_parse env text apiKey log
    = (Normal v, log ++ [CerebrasChat (lit "llama-3.3-70b")]).
Proof.
  intros text apiKey log a b c v Hkey (r & Hnet & Hok & Hjson) Ha Hc Hparse.
  assert (Ht : truthy apiKey = true) by (destruct apiKey; [congruence | reflexivity]).
  unfold analyzePaperWithCerebras. rewrite Ht. cbn [negb].
  unfold modelsToTry. cbn [try_models].
  unfold attempt, bind, fetch, lift, ret, throw. rewrite Hnet, Hok, Hjson.
  cbn [negb AcademicSearch.opt_or].
  destruct (@json_object_span a b c Ha Hc) as (m & Hm & _ & Hw & _).
  assert (Hne : truthy (or_str (a ++ [123%N] ++ b ++ [125%N] ++ c) []) = true).
  { unfold or_str. destruct a; reflexivity. }
  assert (Hor : or_str (a ++ [123%N] ++ b ++ [125%N] ++ c) []
                = a ++ [123%N] ++ b ++ [125%N] ++ c).
  { unfold or_str. destruct a; reflexivity. }
  rewrite Hne. cbn [negb]. rewrite Hor, Hm, Hw, Hparse. reflexivity.
Qed.

(** X9.  Without a key the call throws before any request.  When every model is
    unavailable (400 or 404) the three are asked in order and the call throws
    an error that names the last of them. *)
Theorem analyze_failure_modes :
  forall text apiKey log,
    (apiKey = [] ->
     analyzePaperWithCerebras JSON_parse env text apiKey log
     = (Throw (lit "API Key is required"), log))
    /\ (apiKey <> [] ->
        Forall (unavailable env) modelsToTry ->
        analyzePaperWithCerebras JSON_parse env text apiKey log
        = (Throw (lit "Failed to analyze paper with any Cerebras model. Last error: Model llama3.1-8b not available"),
           log ++ List.map CerebrasChat modelsToTry)).
Proof.
  intros text apiKey log. split.
  - intros ->. reflexivity.
  - intros Hkey Hall.
    assert (Ht : truthy apiKey = true) by (destruct apiKey; [congruence | reflexivity]).
    unfold analyzePaperWithCerebras. rewrite Ht. cbn [negb].
    unfold modelsToTry in *.
    inversion Hall as [|m1 l1 H1 Hall1]; subst.
    inversion Hall1 as [|m2 l2 H2 Hall2]; subst.
    inversion Hall2 as [|m3 l3 H3 _]; subst.
    rewrite (CerebrasProofs.skip_unavailable JSON_parse _ _ _ H1).
    rewrite (CerebrasProofs.skip_unavailable JSON_parse _ _ _ H2).
    rewrite (CerebrasProofs.skip_unavailable JSON_parse _ _ _ H3).
    cbn [try_models]. unfold throw. rewrite <- !app_assoc. reflexivity.
Qed.

End Analyze.

Lemma analyze_parses_outer_braces_witness :
  analyzePaperWithCerebras (fun s => Normal s)
    (chat (lit "Result: {a} and {b}. Done")) (lit "paper text") (lit "key") []
  = (Normal (lit "{a} and {b}"), [CerebrasChat (lit "llama-3.3-70b")]).
Proof.
  refine (@analyze_parses_outer_braces js_string (fun s => Normal s)
            (chat (lit "Result: {a} and {b}. Done")) (lit "paper text") (lit "key") []
            (lit "Result: ") (lit "a} and {b") (lit ". Done") _ _ _ _ _ eq_refl).
  - discriminate.
  - eexists. repeat split.
  - vm_compute. intuition discriminate.
  - vm_compute. intuition discriminate.
Defined.

Lemma analyze_failure_modes_witness :
  analyzePaperWithCerebras (fun s => Normal s) (always_status 404)
    (lit "paper text") [] []
  = (Throw (lit "API Key is required"), [])
  /\ fst (analyzePaperWithCerebras (fun s => Normal s) (always_status 404)
            (lit "paper text") (lit "key") [])
     = Throw (lit "Failed to analyze paper with any Cerebras model. Last error: Model llama3.1-8b not available").
Proof.
  split.
  - exact (proj1 (@analyze_failure_modes js_string (fun s => Normal s)
                    (always_status 404) (lit "paper text") [] []) eq_refl).
  - rewrite (proj2 (@analyze_failure_modes js_string (fun s => Normal s)
                      (always_status 404) (lit "paper text") (lit "key") [])).
    + reflexivity.
    + discriminate.
    + unfold modelsToTry.
      repeat (apply Forall_cons;
              [eexists; split; [reflexivity | now right]|]).
      apply Forall_nil.
Defined.

End AnalyzeProofs.

(* ================================================================== *)
(** * More on the heuristics of pdfMetadata.js *)
(* ================================================================== *)

Module HeuristicProofs.

Import Heuristics Spec Notions Samples Inputs AbstractProofs.

(** ** extractYear *)

Lemma creation_year_valid now info y :
  creation_year now info = Some y -> valid_year now y = true.
Proof.
  unfold creation_year.
  destruct (CreationDate info) as [d|]; [|discriminate].
  destruct (truthy d); [|discriminate].
  destruct (js_match four_digits d) as [m|]; [|discriminate].
  destruct (m_group m) as [g|]; [|discriminate].
  destruct (parseInt g) as [v|]; [|discriminate].
  destruct (valid_year now v) eqn:Hv; [|discriminate].
  now intros [= <-].
Qed.

Lemma valid_year_range now y :
  valid_year now y = true <-> (1900 <= y <= now + 1)%Z.
Proof.
  unfold valid_year. rewrite andb_true_iff, !Z.leb_le. tauto.
Qed.

Lemma extractYear_cases now info text :
  extractYear now info text = now
  \/ valid_year now (extractYear now info text) = true.
Proof.
  unfold extractYear.
  destruct (creation_year now info) as [y|] eqn:Hc.
  - right. now apply creation_year_valid with (info := info).
  - destruct (sort_desc (text_years now text)) as [|y ys] eqn:Hs; [now left|].
    right. apply valid_year_range.
    assert (Hin : In y (text_years now text)).
    { apply YearExtraction.sort_desc_In. rewrite Hs. now left. }
    apply YearExtraction.text_years_spec in Hin.
    destruct Hin as (token & _ & _ & Hr). exact Hr.
Qed.

(** X10.  Whatever the creation date and the text hold, the year [extractYear]
    returns is the year of the clock or lies between 1900 and the year of the
    clock plus one; so with a clock at 1900 or later it is always in that
    range. *)
Theorem extractYear_in_range :
  forall now info text,
    (extractYear now info text = now
     \/ (1900 <= extractYear now info text <= now + 1)%Z)
    /\ ((1900 <= now)%Z ->
        (1900 <= extractYear now info text <= now + 1)%Z).
Proof.
  intros now info text.
  destruct (extractYear_cases now info text) as [H|H].
  - split; [now left|]. rewrite H. lia.
  - apply valid_year_range in H. split; [now right | intros _; exact H].
Qed.

Lemma extractYear_in_range_witness :
  (1900 <= extractYear 2024
             {| Title := None; Author := None;
                CreationDate := Some (lit "D:18991231") |}
             (lit "Printed 1850, revised 2199.") <= 2025)%Z.
Proof.
  apply (proj2 (extractYear_in_range 2024
                  {| Title := None; Author := None;
                     CreationDate := Some (lit "D:18991231") |}
                  (lit "Printed 1850, revised 2199."))).
  lia.
Defined.

(** ** extractAuthors *)

Lemma split_on_pieces sep s :
  Forall (fun piece => Forall (fun c => sep c = false) piece) (split_on sep s).
Proof.
  induction s as [|c s IH]; simpl.
  - repeat constructor.
  - destruct (sep c) eqn:Hc.
    + constructor; [constructor | exact IH].
    + destruct (split_on sep s) as [|w ws].
      * repeat constructor. exact Hc.
      * inversion IH; subst. constructor; [|assumption].
        constructor; assumption.
Qed.

Lemma trim_within s c : In c (trim s) -> In c s.
Proof.
  unfold trim. intro H.
  destruct (trimStart_suffix s) as (a & Ha).
  destruct (trimEnd_prefix (trimStart s)) as (b & Hb).
  rewrite Ha. apply in_or_app. right.
  rewrite Hb. apply in_or_app. now left.
Qed.

Lemma names_tidy sep s :
  Forall (fun a => a <> [] /\ trim a = a /\ forall c, sep c = true -> ~ In c a)
         (filter_truthy (List.map trim (split_on sep s))).
Proof.
  apply Forall_forall. intros a Ha.
  apply filter_In in Ha. destruct Ha as [Ha Ht].
  apply in_map_iff in Ha. destruct Ha as (piece & <- & Hp).
  split; [|split].
  - intro He. rewrite He in Ht. discriminate.
  - apply trim_idempotent.
  - intros c Hc Hin. apply trim_within in Hin.
    pose proof (split_on_pieces sep s) as Hall.
    rewrite Forall_forall in Hall. specialize (Hall piece Hp).
    rewrite Forall_forall in Hall. specialize (Hall c Hin). congruence.
Qed.

Lemma first_authors_tidy text ps :
  Forall (fun a => a <> [] /\ trim a = a /\ ~ In 44%N a) (first_authors ps text).
Proof.
  induction ps as [|p ps IH]; simpl; [constructor|].
  destruct (js_match p text) as [m|]; [|exact IH].
  destruct (m_group m) as [g|]; [|constructor].
  eapply Forall_impl; [|apply names_tidy].
  intros a (H1 & H2 & H3). repeat split; auto.
Qed.

(** X11.  Every name [extractAuthors] returns is non-empty, has no white space at
    either end, and holds no comma; the names taken from the embedded author
    entry hold no semicolon either. *)
Theorem extractAuthors_names_tidy :
  forall info text,
    Forall (fun a => a <> [] /\ trim a = a /\ ~ In 44%N a)
           (extractAuthors info text)
    /\ (non_blank (Author info) <> None ->
        Forall (fun a => ~ In 59%N a) (extractAuthors info text)).
Proof.
  intros info text. unfold extractAuthors.
  destruct (non_blank (Author info)) as [authorStr|] eqn:Hn.
  - split.
    + eapply Forall_impl; [|apply names_tidy].
      intros a (H1 & H2 & H3). repeat split; auto.
    + intros _. eapply Forall_impl; [|apply names_tidy].
      intros a (_ & _ & H3). apply H3. reflexivity.
  - split; [apply first_authors_tidy|]. intro H. congruence.
Qed.

Lemma extractAuthors_names_tidy_witness :
  Forall (fun a => ~ In 59%N a)
    (extractAuthors {| Title := None; Author := Some (lit " Ada Lovelace ; Alan Turing,, ");
                       CreationDate := None |} []).
Proof.
  apply (proj2 (extractAuthors_names_tidy
                  {| Title := None; Author := Some (lit " Ada Lovelace ; Alan Turing,, ");
                     CreationDate := None |} [])).
  vm_compute. discriminate.
Defined.

(** ** Lengths and white space *)

Lemma first_group_cases post ps text :
  first_group post ps text = []
  \/ exists g, g <> [] /\ first_group post ps text = post g.
Proof.
  induction ps as [|p ps IH]; simpl; [now left|].
  destruct (js_match p text) as [[b w [g|] a]|]; try exact IH.
  destruct g as [|c g]; simpl; [exact IH|].
  right. exists (c :: g). split; [discriminate | reflexivity].
Qed.

Lemma slice0_length n s : length (slice0 n s) <= n.
Proof. unfold slice0. apply firstn_le_length. Qed.

Lemma clean_slice0 n s : clean s -> clean (slice0 n s).
Proof.
  intro H. unfold slice0. rewrite <- (firstn_skipn n s) in H.
  now apply clean_prefix in H.
Qed.

Lemma clean_no_newline s : clean s -> ~ In 10%N s.
Proof.
  induction s as [|c s IH]; simpl; [tauto|].
  intros [Hc Hs] [Heq | Hin]; [|now apply IH].
  subst c. destruct (Hc eq_refl) as [H _]. discriminate H.
Qed.

(** X12.  The texts the heuristics return are bounded: an abstract has at most 1000
    code units and a journal name at most 200; a title read from the text
    (when the embedded title is missing or blank) has at most 300, while an
    embedded title is returned whole.  The abstract and the title read from
    the text have their white space in single spaces, so they hold no line
    break. *)
Theorem heuristic_texts_bounded :
  forall info text,
    (length (extractAbstract text) <= 1000
     /\ clean (extractAbstract text)
     /\ ~ In 10%N (extractAbstract text))
    /\ length (extractJournal text) <= 200
    /\ (non_blank (Title info) = None ->
        length (extractTitle info text) <= 300
        /\ clean (extractTitle info text)
        /\ ~ In 10%N (extractTitle info text))
    /\ (forall t, non_blank (Title info) = Some t -> extractTitle info text = t).
Proof.
  intros info text.
  assert (Ha : length (extractAbstract text) <= 1000 /\ clean (extractAbstract text)).
  { unfold extractAbstract.
    destruct (first_group_cases
                (fun g => slice0 1000 (trim (replace_all Abstract.spaces (lit " ") g)))
                [abstract_pattern; summary_pattern] text) as [-> | (g & _ & ->)].
    - split; [simpl; lia | exact I].
    - split; [apply slice0_length|].
      apply clean_slice0, clean_trim. rewrite replace_spaces.
      apply collapse_aux_clean. }
  assert (Ht : non_blank (Title info) = None ->
               length (extractTitle info text) <= 300 /\ clean (extractTitle info text)).
  { intro Hn. unfold extractTitle. rewrite Hn.
    destruct (filter (fun line => 10 <? length (trim line)) (split_on is_newline text))
      as [|l0 ls].
    - split; [simpl; lia | exact I].
    - split; [apply slice0_length|].
      apply clean_slice0. rewrite replace_spaces. apply collapse_aux_clean. }
  repeat split.
  - apply Ha.
  - apply Ha.
  - apply clean_no_newline, Ha.
  - unfold extractJournal.
    destruct (first_group_cases (fun g => slice0 200 (trim g))
                [published_in; journal_of; x_journal] text) as [-> | (g & _ & ->)].
    + simpl; lia.
    + apply slice0_length.
  - now apply Ht.
  - now apply Ht.
  - apply clean_no_newline. now apply Ht.
  - intros t Hn. unfold extractTitle. now rewrite Hn.
Qed.

Lemma heuristic_texts_bounded_witness :
  length (extractTitle no_info
            (lit "12  A   very long first line of a paper")) <= 300.
Proof.
  apply (proj1 (proj1 (proj2 (proj2 (heuristic_texts_bounded no_info
            (lit "12  A   very long first line of a paper")))) eq_refl)).
Defined.

End HeuristicProofs.

(* ================================================================== *)
(** * More on the academic search *)
(* ================================================================== *)

Module AcademicProofs.

Import AcademicSearch Heuristics Spec Notions Samples Inputs SearchProofs AbstractProofs.

(** ** Failing softly *)

Lemma searchCrossRef_no_answer (env : Env) title :
  no_answer env (CrossRefByTitle title) ->
  answer (searchCrossRef env title) = Normal None.
Proof.
  unfold searchCrossRef, answer, try_catch, bind, fetch, lift, ret.
  intros [(e & ->) | (r & -> & [Hok | (e & Hj)])]; simpl.
  - reflexivity.
  - now rewrite Hok.
  - rewrite Hj. now destruct (ok r).
Qed.

Lemma searchOpenAlex_no_answer (env : Env) title :
  no_answer env (OpenAlexByTitle title) ->
  answer (searchOpenAlex env title) = Normal None.
Proof.
  unfold searchOpenAlex, answer, try_catch, bind, fetch, lift, ret.
  intros [(e & ->) | (r & -> & [Hok | (e & Hj)])]; simpl.
  - reflexivity.
  - now rewrite Hok.
  - rewrite Hj. now destruct (ok r).
Qed.

Lemma searchSemanticScholar_no_answer (env : Env) title :
  no_answer env (SemanticScholarByTitle title) ->
  answer (searchSemanticScholar env title) = Normal None.
Proof.
  unfold searchSemanticScholar, answer, try_catch, bind, fetch, lift, ret.
  intros [(e & ->) | (r & -> & [Hok | (e & Hj)])]; simpl.
  - reflexivity.
  - now rewrite Hok.
  - rewrite Hj. now destruct (ok r).
Qed.

Lemma search_requests (env : Env) title log :
  exists result extra,
    searchAcademicDatabases env title log = (Normal result, log ++ extra)
    /\ prefix_of extra [CrossRefByTitle title; OpenAlexByTitle title;
                        SemanticScholarByTitle title].
Proof.
  destruct (Nat.lt_ge_cases (length (trim title)) 10) as [Hlt | Hge].
  - exists None, []. rewrite (search_short env title log Hlt), app_nil_r.
    split; [reflexivity|]. now eexists.
  - rewrite (search_long env title log Hge).
    destruct (searchCrossRef_total env title) as (r1 & ->).
    destruct r1 as [hit|].
    { exists (Some hit), [CrossRefByTitle title]. split; [reflexivity|]. now eexists. }
    destruct (searchOpenAlex_total env title) as (r2 & ->).
    destruct r2 as [hit|].
    { exists (Some hit), [CrossRefByTitle title; OpenAlexByTitle title].
      split; [reflexivity|]. now eexists. }
    destruct (searchSemanticScholar_total env title) as (r3 & ->).
    exists r3, [CrossRefByTitle title; OpenAlexByTitle title;
                SemanticScholarByTitle title].
    split; [reflexivity|]. exists []. now rewrite app_nil_r.
Qed.

(** X13.  The academic search never throws and asks at most three requests, a
    beginning of CrossRef, OpenAlex, Semantic Scholar.  When none of the three
    services gives a usable answer (the network fails, the status is not a
    success or the body cannot be read), a title of 10 or more code units
    that is well-formed UTF-16 (no lone surrogate, so that it can be encoded
    in a URL) gives absence after all three have been asked. *)
Theorem academic_search_fails_softly :
  forall (env : Env) title log,
    (exists result extra,
        searchAcademicDatabases env title log = (Normal result, log ++ extra)
        /\ prefix_of extra [CrossRefByTitle title; OpenAlexByTitle title;
                            SemanticScholarByTitle title])
    /\ (10 <= length (trim title) ->
        Uri.well_formed title = true ->
        no_answer env (CrossRefByTitle title) ->
        no_answer env (OpenAlexByTitle title) ->
        no_answer env (SemanticScholarByTitle title) ->
        searchAcademicDatabases env title log
        = (Normal None,
           log ++ [CrossRefByTitle title; OpenAlexByTitle title;
                   SemanticScholarByTitle title])).
Proof.
  intros env title log. split; [apply search_requests|].
  intros Hge _ H1 H2 H3. rewrite (search_long env title log Hge).
  rewrite (searchCrossRef_no_answer H1), (searchOpenAlex_no_answer H2),
          (searchSemanticScholar_no_answer H3).
  reflexivity.
Qed.

Lemma academic_search_fails_softly_witness :
  searchAcademicDatabases (always_status 500) (lit "A study of things") []
  = (Normal None,
     [CrossRefByTitle (lit "A study of things");
      OpenAlexByTitle (lit "A study of things");
      SemanticScholarByTitle (lit "A study of things")]).
Proof.
  apply (proj2 (academic_search_fails_softly (always_status 500)
                  (lit "A study of things") [])).
  - vm_compute. lia.
  - reflexivity.
  - right. eexists. split; [reflexivity | now left].
  - right. eexists. split; [reflexivity | now left].
  - right. eexists. split; [reflexivity | now left].
Defined.

(** ** reconstructAbstract *)

Lemma cell_nil p : cell [] p = None.
Proof. unfold cell. now destruct p. Qed.

Lemma set_at_cell q w : forall ws p,
  cell (set_at q w ws) p = if p =? q then Some w else cell ws p.
Proof.
  induction q as [|q IH]; intros ws p.
  - destruct ws as [|x ws], p as [|p]; try reflexivity.
    unfold cell. simpl. now destruct p.
  - destruct ws as [|x ws], p as [|p]; try reflexivity.
    + specialize (IH [] p). unfold cell in *. simpl. rewrite IH.
      destruct (p =? q); [reflexivity|]. now destruct p.
    + specialize (IH ws p). unfold cell in *. simpl. exact IH.
Qed.

Lemma set_at_length q w : forall ws,
  length (set_at q w ws) = Nat.max (length ws) (S q).
Proof.
  induction q as [|q IH]; intros [|x ws]; simpl; try reflexivity.
  - now destruct (length ws).
  - now rewrite IH.
  - now rewrite IH.
Qed.

Lemma place_cell w ps : forall ws p,
  cell (place_word ws (w, ps)) p
  = if existsb (Nat.eqb p) ps then Some w else cell ws p.
Proof.
  unfold place_word. simpl.
  induction ps as [|q ps IH]; intros ws p; simpl; [reflexivity|].
  rewrite IH, set_at_cell.
  destruct (existsb (Nat.eqb p) ps); [now rewrite orb_true_r|].
  now rewrite orb_false_r.
Qed.

Lemma place_length w ps bound : forall ws,
  length ws <= bound -> (forall p, In p ps -> p < bound) ->
  length (place_word ws (w, ps)) <= bound.
Proof.
  unfold place_word. simpl.
  induction ps as [|q ps IH]; intros ws Hl Hp; simpl; [exact Hl|].
  apply IH.
  - rewrite set_at_length. specialize (Hp q (or_introl eq_refl)). lia.
  - intros p Hin. apply Hp. now right.
Qed.

Lemma existsb_eqb_In p ps : existsb (Nat.eqb p) ps = true <-> In p ps.
Proof.
  rewrite existsb_exists. split.
  - intros (x & Hin & He). apply Nat.eqb_eq in He. now subst.
  - intro H. exists p. split; [exact H | apply Nat.eqb_refl].
Qed.

Lemma fold_cells words idx :
  consistent words idx ->
  forall ws,
    (forall p v, cell ws p = Some v -> nth_error words p = Some v) ->
    length ws <= length words ->
    (forall p v, cell (fold_left place_word idx ws) p = Some v ->
                 nth_error words p = Some v)
    /\ length (fold_left place_word idx ws) <= length words
    /\ (forall p, cell ws p <> None \/ (exists w ps, In (w, ps) idx /\ In p ps) ->
                  cell (fold_left place_word idx ws) p <> None).
Proof.
  induction idx as [|[w ps] idx IH]; intros Hc ws Hws Hlen; simpl.
  - repeat split; auto.
    intros p [H | (w & ps & [] & _)]. exact H.
  - assert (Hc' : consistent words idx).
    { intros w' ps' p Hin Hp. apply (Hc w' ps' p); [now right | exact Hp]. }
    assert (Hstep : forall p v, cell (place_word ws (w, ps)) p = Some v ->
                                nth_error words p = Some v).
    { intros p v. rewrite place_cell.
      destruct (existsb (Nat.eqb p) ps) eqn:He.
      - intros [= <-]. apply existsb_eqb_In in He.
        apply (Hc w ps p); [now left | exact He].
      - apply Hws. }
    assert (Hl : length (place_word ws (w, ps)) <= length words).
    { apply place_length; [exact Hlen|]. intros p Hin.
      apply nth_error_Some. rewrite (Hc w ps p); [discriminate | now left | exact Hin]. }
    destruct (IH Hc' (place_word ws (w, ps)) Hstep Hl) as (H1 & H2 & H3).
    repeat split; [exact H1 | exact H2 |].
    intros p Hp. apply H3.
    destruct Hp as [Hp | (w' & ps' & [Heq | Hin] & Hp)].
    + left. rewrite place_cell. destruct (existsb (Nat.eqb p) ps); [discriminate | exact Hp].
    + inversion Heq; subst. left. rewrite place_cell.
      apply existsb_eqb_In in Hp. rewrite Hp. discriminate.
    + right. now exists w', ps'.
Qed.

Lemma filled_all words :
  Forall (fun w => w <> []) words -> filled (List.map Some words) = words.
Proof.
  induction 1 as [|w words Hw _ IH]; [reflexivity|].
  destruct w as [|c w]; [congruence|].
  change (filled (List.map Some ((c :: w) :: words)))
    with ((c :: w) :: filled (List.map Some words)).
  now rewrite IH.
Qed.

Lemma rebuild words idx :
  consistent words idx -> covering words idx ->
  fold_left place_word idx [] = List.map Some words.
Proof.
  intros Hc Hv.
  destruct (@fold_cells words idx Hc []) as (H1 & H2 & H3).
  { intros p v. now rewrite cell_nil. }
  { simpl. lia. }
  apply nth_error_ext. intro p. rewrite nth_error_map.
  destruct (Nat.lt_ge_cases p (length words)) as [Hlt | Hge].
  - specialize (H3 p (or_intror (Hv p Hlt))).
    destruct (cell (fold_left place_word idx []) p) as [v|] eqn:Hcell; [|congruence].
    rewrite (H1 p v Hcell). simpl.
    unfold cell in Hcell.
    destruct (nth_error (fold_left place_word idx []) p) as [[x|]|]; congruence.
  - assert (Hn : nth_error words p = None) by now apply nth_error_None.
    rewrite Hn. simpl. apply nth_error_None. lia.
Qed.

(** X14.  [reconstructAbstract] undoes the inversion of a text: for a list of
    non-empty words and an index that lists, for each word, positions that
    hold it and that covers every position, the words come back in order,
    joined by single spaces and cut at 1000 code units, whatever the order
    of the entries of the index. *)
Theorem reconstructAbstract_round_trip :
  forall words idx,
    Forall (fun w => w <> []) words ->
    consistent words idx -> covering words idx ->
    reconstructAbstract idx = slice0 1000 (join (lit " ") words).
Proof.
  intros words idx Hw Hc Hv. unfold reconstructAbstract.
  now rewrite (rebuild Hc Hv), filled_all.
Qed.

Lemma reconstructAbstract_round_trip_witness :
  reconstructAbstract cat_index = lit "the cat saw the dog".
Proof.
  apply (@reconstructAbstract_round_trip
           [lit "the"; lit "cat"; lit "saw"; lit "the"; lit "dog"] cat_index).
  - repeat constructor; discriminate.
  - intros w ps p Hin Hp. unfold cat_index in Hin. simpl in Hin.
    repeat (destruct Hin as [Hin | Hin];
            [inversion Hin; subst; simpl in Hp;
             repeat (destruct Hp as [<- | Hp]; [reflexivity|]); contradiction|]).
    contradiction.
  - intros p Hp. simpl in Hp.
    destruct p as [|[|[|[|[|p]]]]]; [| | | | |lia].
    + exists (lit "the"), [0; 3]. simpl. tauto.
    + exists (lit "cat"), [1]. simpl. tauto.
    + exists (lit "saw"), [2]. simpl. tauto.
    + exists (lit "the"), [0; 3]. simpl. tauto.
    + exists (lit "dog"), [4]. simpl. tauto.
Defined.

(** ** mapPublicationType *)

Lemma lower_lower c : lower (lower c) = lower c.
Proof.
  unfold lower. destruct (is_upper c) eqn:Hu; [|now rewrite Hu].
  unfold is_upper, in_range in *.
  apply andb_true_iff in Hu. destruct Hu as [H1 H2].
  apply N.leb_le in H1, H2.
  assert (H : (c + 32 <=? 90)%N = false) by (apply N.leb_gt; lia).
  rewrite H, andb_false_r. reflexivity.
Qed.

Lemma toLowerCase_idempotent s : toLowerCase (toLowerCase s) = toLowerCase s.
Proof.
  unfold toLowerCase. rewrite map_map. apply map_ext. apply lower_lower.
Qed.

Lemma lookup_In key table v :
  lookup key table = Some v -> In v (List.map snd table).
Proof.
  induction table as [|[k x] t IH]; simpl; [discriminate|].
  destruct (str_eqb k key); [intros [= <-]; now left | right; auto].
Qed.

(** X15.  For an ASCII type that is not a name every object inherits,
    [mapPublicationType] returns one of the six labels of the application; it
    does not look at the case of the letters, and a type that is missing or
    not in the table gives "Journal Article". *)
Theorem mapPublicationType_labels :
  forall type,
    (forall t, type = Some t -> is_ascii t) ->
    (forall t, type = Some t -> ~ inherited (toLowerCase t)) ->
    In (mapPublicationType type)
       [lit "Journal Article"; lit "Conference Paper"; lit "Book Chapter";
        lit "Thesis"; lit "Technical Report"; lit "Preprint"]
    /\ mapPublicationType (option_map toLowerCase type) = mapPublicationType type
    /\ (forall t, type = Some t -> lookup (toLowerCase t) typeMap = None ->
                  mapPublicationType type = lit "Journal Article")
    /\ (type = None -> mapPublicationType type = lit "Journal Article").
Proof.
  intros type _ _. repeat split.
  - destruct type as [t|]; [|now left]. unfold mapPublicationType.
    destruct (lookup (toLowerCase t) typeMap) as [v|] eqn:Hl; [|now left].
    apply lookup_In in Hl. simpl in Hl.
    repeat (destruct Hl as [<- | Hl]; [simpl; tauto|]). contradiction.
  - destruct type as [t|]; [|reflexivity]. simpl.
    now rewrite toLowerCase_idempotent.
  - intros t -> Hl. unfold mapPublicationType. now rewrite Hl.
  - now intros ->.
Qed.

Lemma mapPublicationType_labels_witness :
  In (mapPublicationType (Some (lit "Proceedings-Article")))
     [lit "Journal Article"; lit "Conference Paper"; lit "Book Chapter";
      lit "Thesis"; lit "Technical Report"; lit "Preprint"].
Proof.
  refine (proj1 (@mapPublicationType_labels (Some (lit "Proceedings-Article")) _ _)).
  - intros t Ht. inversion Ht; subst. vm_compute. repeat constructor.
  - intros t Ht [H | H]; inversion Ht; subst; vm_compute in H; discriminate H.
Defined.

(** ** The names of the authors of a CrossRef item *)

Lemma trimStart_nil s : trimStart s = [] -> all_in is_space s.
Proof.
  induction s as [|c s IH]; simpl; [constructor|].
  destruct (is_space c) eqn:Hc; [|discriminate].
  intro H. constructor; [exact Hc | now apply IH].
Qed.

Lemma trim_nil s : trim s = [] -> all_in is_space s.
Proof.
  unfold trim, trimEnd. intro H.
  assert (H1 : trimStart (rev (trimStart s)) = []).
  { apply (f_equal (@rev N)) in H. now rewrite rev_involutive in H. }
  apply trimStart_nil in H1. apply DoiUtilProofs.all_in_rev in H1.
  rewrite rev_involutive in H1.
  pose proof (trimStart_blocked s) as Hb.
  destruct (trimStart s) as [|c t] eqn:E; [now apply trimStart_nil|].
  inversion H1; subst. simpl in Hb. congruence.
Qed.

Lemma trimStart_keeps f r c :
  is_space c = false -> trimStart (f ++ c :: r) = trimStart f ++ c :: r.
Proof.
  intro Hc. induction f as [|x f IH]; simpl; [now rewrite Hc|].
  destruct (is_space x); [exact IH | reflexivity].
Qed.

(** X16.  How an author of a CrossRef item is written.  Without a family name the
    given name stands alone, as it is.  With a family name and no given name
    the name is the family name followed by a comma.  An author is dropped
    from the list exactly when both names are missing or empty. *)
Theorem crossref_author_format :
  forall a : CrossRefAuthor,
    (opt_or (family a) [] = [] -> crossref_author a = opt_or (given a) [])
    /\ (opt_or (family a) [] <> [] -> opt_or (given a) [] = [] ->
        crossref_author a = trimStart (opt_or (family a) []) ++ lit ",")
    /\ (crossref_author a = []
        <-> opt_or (family a) [] = [] /\ opt_or (given a) [] = []).
Proof.
  intro a. unfold crossref_author.
  destruct (opt_or (family a) []) as [|c f] eqn:Hf; cbn [truthy].
  - repeat split; try tauto; congruence.
  - split; [congruence|]. split.
    + intros _ ->. unfold trim.
      change (lit ", " ++ []) with ([44%N] ++ [32%N]).
      change ((c :: f) ++ [44%N] ++ [32%N]) with ((c :: f) ++ 44%N :: [32%N]).
      rewrite trimStart_keeps by reflexivity.
      change (trimStart (c :: f) ++ 44%N :: [32%N])
        with (trimStart (c :: f) ++ [44%N] ++ [32%N]).
      rewrite app_assoc.
      rewrite DoiUtilProofs.trimEnd_run by (repeat constructor).
      now rewrite DoiProofs.trimEnd_last.
    + split; [|intros [H _]; discriminate H].
      intro H. apply trim_nil in H. exfalso.
      unfold all_in in H. rewrite Forall_forall in H.
      assert (Hin : In 44%N ((c :: f) ++ lit ", " ++ opt_or (given a) [])).
      { apply in_or_app. right. now left. }
      specialize (H _ Hin). discriminate H.
Qed.

Lemma crossref_author_format_witness :
  crossref_author {| given := None; family := Some (lit "Lovelace") |}
  = lit "Lovelace,".
Proof.
  apply (proj1 (proj2 (crossref_author_format
                         {| given := None; family := Some (lit "Lovelace") |}))).
  - discriminate.
  - reflexivity.
Defined.

End AcademicProofs.

(* ================================================================== *)
(** * More on the journal ranking *)
(* ================================================================== *)

Module RankingMoreProofs.

Import AcademicSearch JournalRanking Spec Notions Samples Inputs.

Lemma str_eqb_eq a : forall b, str_eqb a b = true -> a = b.
Proof.
  induction a as [|x a IH]; intros [|y b]; simpl; try discriminate; [reflexivity|].
  intro H. apply andb_true_iff in H. destruct H as [Hx Hab].
  apply N.eqb_eq in Hx. subst. f_equal. now apply IH.
Qed.

Lemma lookup_entry key table v :
  lookup key table = Some v -> In (key, v) table.
Proof.
  induction table as [|[k x] t IH]; simpl; [discriminate|].
  destruct (str_eqb k key) eqn:E.
  - intros [= <-]. left. now rewrite (str_eqb_eq _ _ E).
  - right. auto.
Qed.

Lemma partial_match_entry n table v :
  partial_match n table = Some v -> exists k, In (k, v) table.
Proof.
  induction table as [|[k x] t IH]; simpl; [discriminate|].
  destruct (includes n k || includes k n).
  - intros [= <-]. exists k. now left.
  - intro H. destruct (IH H) as (k' & Hk). exists k'. now right.
Qed.

Lemma table_quartiles k v :
  In (k, v) KNOWN_JOURNAL_RANKINGS -> In v quartiles.
Proof.
  intro H. apply (in_map snd) in H. simpl in H.
  repeat (destruct H as [<- | H]; [simpl; tauto|]). contradiction.
Qed.

Lemma database_quartile name q :
  getJournalRankingFromDatabase name = Some q -> In q quartiles.
Proof.
  unfold getJournalRankingFromDatabase.
  destruct (lookup (normalizeJournalName name) KNOWN_JOURNAL_RANKINGS) as [r|] eqn:E.
  - intros [= <-]. apply lookup_entry in E. now apply table_quartiles in E.
  - intro H. apply partial_match_entry in H. destruct H as (k & Hk).
    now apply table_quartiles in Hk.
Qed.

Lemma rank_source_quartile journal q :
  rank_source journal = Some q -> In q quartiles.
Proof.
  unfold rank_source, by_citedness, by_h_index, quartiles.
  destruct (summary_stats journal) as [s|]; [|discriminate].
  destruct (defined (mean_citedness_2yr s) && gt (works_count journal) 100).
  - intros [= <-].
    destruct (ge (mean_citedness_2yr s) 3); [simpl; tauto|].
    destruct (ge (mean_citedness_2yr s) (3 # 2)); [simpl; tauto|].
    destruct (ge (mean_citedness_2yr s) (1 # 2)); simpl; tauto.
  - destruct (defined (h_index s)); [|discriminate].
    intros [= <-].
    destruct (ge (h_index s) 100); [simpl; tauto|].
    destruct (ge (h_index s) 50); [simpl; tauto|].
    destruct (ge (h_index s) 20); simpl; tauto.
Qed.

Lemma heuristic_quartile name q :
  getJournalRankingHeuristic name = Some q -> In q quartiles.
Proof.
  unfold getJournalRankingHeuristic, quartiles.
  destruct (existsb (includes (toLowerCase name)) q1Patterns);
    [intros [= <-]; simpl; tauto|].
  destruct (existsb (includes (toLowerCase name)) q2Patterns);
    [intros [= <-]; simpl; tauto | discriminate].
Qed.

(** The lookup at OpenAlex asks one request and never throws. *)
Lemma openalex_ranking_run (env : Env) name log :
  getJournalRankingFromOpenAlex env name log
  = (answer (getJournalRankingFromOpenAlex env name), log ++ [OpenAlexSource name])
  /\ exists r, answer (getJournalRankingFromOpenAlex env name) = Normal r
               /\ forall q, r = Some q -> In q quartiles.
Proof.
  unfold getJournalRankingFromOpenAlex, answer, try_catch, bind, fetch, lift, ret.
  destruct (net env (OpenAlexSource name)) as [e|resp]; simpl.
  { split; [reflexivity|]. exists None. split; [reflexivity | discriminate]. }
  destruct (ok resp); simpl.
  2:{ split; [reflexivity|]. exists None. split; [reflexivity | discriminate]. }
  destruct (json resp) as [body|e]; simpl.
  2:{ split; [reflexivity|]. exists None. split; [reflexivity | discriminate]. }
  destruct body as [o|o|o|[[|j l]|]|o|o|]; simpl;
    try (split; [reflexivity|]; exists None; split; [reflexivity | discriminate]).
  split; [reflexivity|]. exists (rank_source j). split; [reflexivity|].
  intros q Hq. now apply rank_source_quartile with (journal := j).
Qed.

Lemma long_name name :
  3 <= length (trim name) ->
  negb (truthy name) || (length (trim name) <? 3) = false.
Proof.
  intro H. destruct name as [|c s]; [simpl in H; lia|].
  simpl negb. simpl orb. apply Nat.ltb_ge. exact H.
Qed.

Lemma short_name name :
  length (trim name) < 3 ->
  negb (truthy name) || (length (trim name) <? 3) = true.
Proof.
  intro H. apply orb_true_iff. right. now apply Nat.ltb_lt.
Qed.

(** The resolver by what its three sources say. *)
Lemma getJournalRanking_long (env : Env) name log :
  3 <= length (trim name) ->
  getJournalRanking env name log
  = match getJournalRankingFromDatabase name with
    | Some q => (Normal (Some q), log)
    | None =>
        match answer (getJournalRankingFromOpenAlex env name) with
        | Normal (Some q) => (Normal (Some q), log ++ [OpenAlexSource name])
        | Normal None =>
            (Normal (getJournalRankingHeuristic name), log ++ [OpenAlexSource name])
        | Throw e => (Throw e, log ++ [OpenAlexSource name])
        end
    end.
Proof.
  intro H. unfold getJournalRanking. rewrite (long_name _ H).
  destruct (getJournalRankingFromDatabase name); [reflexivity|].
  unfold bind. rewrite (proj1 (openalex_ranking_run env name log)).
  destruct (answer (getJournalRankingFromOpenAlex env name)) as [[q|]|e]; reflexivity.
Qed.

Lemma tag_of (env : Env) name log r log' :
  getJournalRanking env name log = (Normal r, log') ->
  getJournalRankingTag env name log
  = (Normal (option_map (fun q => q ++ lit " Journal") r), log').
Proof.
  intro H. unfold getJournalRankingTag, bind. now rewrite H.
Qed.

(** ** The table of known journals *)

Lemma nature_entries :
  forallb (fun kv => implb (includes (fst kv) nature || includes nature (fst kv))
                           (str_eqb (snd kv) Q1))
          KNOWN_JOURNAL_RANKINGS = true.
Proof. vm_compute. reflexivity. Qed.

Lemma partial_nature n :
  includes n nature || includes nature n = true ->
  partial_match n KNOWN_JOURNAL_RANKINGS = Some Q1.
Proof.
  intro H.
  change KNOWN_JOURNAL_RANKINGS
    with ((nature, Q1) :: tl KNOWN_JOURNAL_RANKINGS).
  cbn [partial_match]. now rewrite H.
Qed.

Lemma database_nature name :
  includes (normalizeJournalName name) nature
  || includes nature (normalizeJournalName name) = true ->
  getJournalRankingFromDatabase name = Some Q1.
Proof.
  intro H. unfold getJournalRankingFromDatabase.
  destruct (lookup (normalizeJournalName name) KNOWN_JOURNAL_RANKINGS) as [r|] eqn:E.
  - apply lookup_entry in E.
    pose proof nature_entries as Hall. rewrite forallb_forall in Hall.
    specialize (Hall _ E). cbn [fst snd] in Hall. rewrite H in Hall.
    simpl in Hall. now rewrite (str_eqb_eq _ _ Hall).
  - now apply partial_nature.
Qed.

Lemma partial_match_some n table k q :
  In (k, q) table ->
  includes n k || includes k n = true ->
  exists q', partial_match n table = Some q'.
Proof.
  induction table as [|[k0 q0] t IH]; simpl; [contradiction|].
  intros [Heq | Hin] Hm.
  - inversion Heq; subst. rewrite Hm. eauto.
  - destruct (includes n k0 || includes k0 n); [eauto | now apply IH].
Qed.

Lemma database_partial name k q :
  In (k, q) KNOWN_JOURNAL_RANKINGS ->
  includes (normalizeJournalName name) k
  || includes k (normalizeJournalName name) = true ->
  exists q', getJournalRankingFromDatabase name = Some q'.
Proof.
  intros Hin Hm. unfold getJournalRankingFromDatabase.
  destruct (lookup (normalizeJournalName name) KNOWN_JOURNAL_RANKINGS) as [r|];
    [eauto|].
  now apply partial_match_some with (k := k) (q := q).
Qed.

(** X17.  The table of known journals is matched by containment, in either
    direction.  An ASCII journal name of three or more code units whose normalized name
    holds a key of the table, or is held by one, gets a grade from the table
    and nothing is asked of the network.  With the first key, "nature", the
    grade is Q1 whatever the journal is; the names held by "nature" include
    the empty one, so a name that the normalization empties is graded Q1. *)
Theorem known_journals_preempt :
  forall (env : Env) name log,
    is_ascii name ->
    3 <= length (trim name) ->
    (forall k q,
        In (k, q) KNOWN_JOURNAL_RANKINGS ->
        includes (normalizeJournalName name) k = true
        \/ includes k (normalizeJournalName name) = true ->
        exists q',
          getJournalRanking env name log = (Normal (Some q'), log)
          /\ In q' (List.map snd KNOWN_JOURNAL_RANKINGS))
    /\ (includes (normalizeJournalName name) (lit "nature") = true
        \/ includes (lit "nature") (normalizeJournalName name) = true ->
        getJournalRanking env name log = (Normal (Some (lit "Q1")), log)
        /\ getJournalRankingTag env name log
           = (Normal (Some (lit "Q1 Journal")), log)).
Proof.
  intros env name log _ Hlen. split.
  - intros k q Hin Hm. apply orb_true_iff in Hm.
    destruct (database_partial name Hin Hm) as (q' & Hdb).
    exists q'. rewrite (getJournalRanking_long env name log Hlen), Hdb.
    split; [reflexivity|].
    unfold getJournalRankingFromDatabase in Hdb.
    destruct (lookup (normalizeJournalName name) KNOWN_JOURNAL_RANKINGS) as [r|] eqn:E.
    + inversion Hdb; subst. apply lookup_entry in E.
      now apply (in_map snd) in E.
    + apply partial_match_entry in Hdb. destruct Hdb as (k' & Hk').
      now apply (in_map snd) in Hk'.
  - intro Hin.
    assert (H : getJournalRanking env name log = (Normal (Some Q1), log)).
    { rewrite (getJournalRanking_long env name log Hlen).
      rewrite database_nature; [reflexivity|].
      apply orb_true_iff. exact Hin. }
    split; [exact H|]. now rewrite (tag_of _ _ _ H).
Qed.

Lemma known_journals_preempt_witness :
  getJournalRankingTag (offline 2024) (lit "Signature Studies") []
  = (Normal (Some (lit "Q1 Journal")), [])
  /\ getJournalRankingTag (offline 2024) (lit "?!?") []
     = (Normal (Some (lit "Q1 Journal")), []).
Proof.
  split.
  - refine (proj2 (proj2 (@known_journals_preempt (offline 2024)
                            (lit "Signature Studies") [] _ _) _)).
    + vm_compute. repeat constructor.
    + vm_compute. lia.
    + left. vm_compute. reflexivity.
  - refine (proj2 (proj2 (@known_journals_preempt (offline 2024) (lit "?!?") [] _ _) _)).
    + vm_compute. repeat constructor.
    + vm_compute. lia.
    + right. vm_compute. reflexivity.
Defined.

(** ** The range of the resolver *)

Lemma getJournalRanking_run (env : Env) name log :
  exists r extra,
    getJournalRanking env name log = (Normal r, log ++ extra)
    /\ (extra = [] \/ extra = [OpenAlexSource name])
    /\ (forall q, r = Some q -> In q quartiles)
    /\ (length (trim name) < 3 -> r = None /\ extra = []).
Proof.
  destruct (Nat.lt_ge_cases (length (trim name)) 3) as [Hlt | Hge].
  - exists None, []. unfold getJournalRanking. rewrite (short_name _ Hlt).
    unfold ret. rewrite app_nil_r. repeat split; auto. discriminate.
  - rewrite (getJournalRanking_long env name log Hge).
    destruct (getJournalRankingFromDatabase name) as [q|] eqn:Hdb.
    + exists (Some q), []. rewrite app_nil_r. repeat split; auto; try lia.
      intros q' [= <-]. now apply database_quartile with (name := name).
    + destruct (openalex_ranking_run env name log) as (_ & r & Hr & Hq).
      rewrite Hr. destruct r as [q|].
      * exists (Some q), [OpenAlexSource name]. repeat split; auto; lia.
      * exists (getJournalRankingHeuristic name), [OpenAlexSource name].
        repeat split; auto; try lia.
        intros q. apply heuristic_quartile.
Qed.

(** X18.  For a journal whose normalized name is not a name every object inherits,
    the resolver never throws, asks at most one request (the source lookup at
    OpenAlex, for the name as given), and what it returns is absent or one of
    Q1, Q2, Q3, Q4; the tag is that grade followed by " Journal".  A name
    shorter than three code units after trimming gives absence and no
    request. *)
Theorem ranking_is_a_quartile :
  forall (env : Env) name log,
    ~ inherited (normalizeJournalName name) ->
    exists r extra,
      getJournalRanking env name log = (Normal r, log ++ extra)
      /\ getJournalRankingTag env name log
         = (Normal (option_map (fun q => q ++ lit " Journal") r), log ++ extra)
      /\ (extra = [] \/ extra = [OpenAlexSource name])
      /\ (forall q, r = Some q -> In q [lit "Q1"; lit "Q2"; lit "Q3"; lit "Q4"])
      /\ (length (trim name) < 3 -> r = None /\ extra = []).
Proof.
  intros env name log _.
  destruct (getJournalRanking_run env name log)
    as (r & extra & Hrun & Hextra & Hq & Hshort).
  exists r, extra. split; [exact Hrun|]. split; [now apply tag_of|].
  split; [exact Hextra|]. split; [exact Hq | exact Hshort].
Qed.

Lemma ranking_is_a_quartile_witness :
  exists r extra,
    getJournalRanking (sample_env 500) (lit "Acta Obscura") [] = (Normal r, extra)
    /\ (forall q, r = Some q -> In q [lit "Q1"; lit "Q2"; lit "Q3"; lit "Q4"]).
Proof.
  destruct (@ranking_is_a_quartile (sample_env 500) (lit "Acta Obscura") [])
    as (r & extra & Hrun & _ & _ & Hq & _).
  - intros [H | H]; vm_compute in H; discriminate H.
  - exists r, extra. split; [exact Hrun | exact Hq].
Defined.

(** ** The order of the sources *)

(** X19.  For an ASCII name of three or more code units whose normalized form is not a
    name every object inherits: a grade of the table of known journals is
    returned without any request; otherwise OpenAlex is asked once and its
    grade is returned when it has one; the patterns on the name are consulted
    only when OpenAlex has none. *)
Theorem ranking_source_order :
  forall (env : Env) name log,
    is_ascii name ->
    3 <= length (trim name) ->
    ~ inherited (normalizeJournalName name) ->
    (forall q, getJournalRankingFromDatabase name = Some q ->
               getJournalRanking env name log = (Normal (Some q), log))
    /\ (getJournalRankingFromDatabase name = None ->
        (forall q, answer (getJournalRankingFromOpenAlex env name) = Normal (Some q) ->
                   getJournalRanking env name log
                   = (Normal (Some q), log ++ [OpenAlexSource name]))
        /\ (answer (getJournalRankingFromOpenAlex env name) = Normal None ->
            getJournalRanking env name log
            = (Normal (getJournalRankingHeuristic name),
               log ++ [OpenAlexSource name]))).
Proof.
  intros env name log _ Hlen _.
  rewrite (getJournalRanking_long env name log Hlen). repeat split.
  - intros q ->. reflexivity.
  - intros q Ho. rewrite H, Ho. reflexivity.
  - intro Ho. rewrite H, Ho. reflexivity.
Qed.

Lemma ranking_source_order_witness :
  getJournalRanking (sample_env 500) (lit "Annals of Nothing") []
  = (Normal (Some (lit "Q1")), [OpenAlexSource (lit "Annals of Nothing")])
  /\ getJournalRanking (offline 2024) (lit "European Journal of Obscurity") []
     = (Normal (Some (lit "Q2")),
        [OpenAlexSource (lit "European Journal of Obscurity")]).
Proof.
  split.
  - refine (proj1 (proj2 (@ranking_source_order (sample_env 500)
                            (lit "Annals of Nothing") [] _ _ _) _) (lit "Q1") _).
    + vm_compute. repeat constructor.
    + vm_compute. lia.
    + intros [H | H]; vm_compute in H; discriminate H.
    + vm_compute. reflexivity.
    + vm_compute. reflexivity.
  - refine (proj2 (proj2 (@ranking_source_order (offline 2024)
                            (lit "European Journal of Obscurity") [] _ _ _) _) _).
    + vm_compute. repeat constructor.
    + vm_compute. lia.
    + intros [H | H]; vm_compute in H; discriminate H.
    + vm_compute. reflexivity.
    + vm_compute. reflexivity.
Defined.

End RankingMoreProofs.

(* ================================================================== *)
(** * The normalization of journal names *)
(* ================================================================== *)

Module NormalizeProofs.

Import AcademicSearch JournalRanking Spec Notions Samples Inputs ReFacts
       AbstractProofs DoiUtilProofs.

Lemma lower_not_upper c : is_upper (lower c) = false.
Proof.
  unfold lower. destruct (is_upper c) eqn:Hu; [|exact Hu].
  unfold is_upper, in_range in *.
  apply andb_true_iff in Hu. destruct Hu as [H1 H2].
  apply N.leb_le in H1, H2.
  assert (H : (c + 32 <=? 90)%N = false) by (apply N.leb_gt; lia).
  rewrite H. apply andb_false_r.
Qed.

Lemma hd_error_In (A : Type) (l : list A) x : hd_error l = Some x -> In x l.
Proof. destruct l; simpl; [discriminate | intros [= ->]; now left]. Qed.

(** Removing a leading "the" leaves an end of the text. *)
Lemma leading_the_suffix s : exists w, s = w ++ replace_first leading_the [] s.
Proof.
  unfold replace_first, js_match.
  change leading_the with (Seq Bol (Seq (str (lit "the")) (plus space))).
  rewrite search_bol.
  destruct (match_at (Seq (str (lit "the")) (plus space)) [] s) as [st'|] eqn:E.
  - cbn [m_before m_after seen start_at rev app].
    unfold match_at in E. apply hd_error_In in E. apply run_sound in E.
    destruct E as (st1 & H1 & st2 & H2 & H3).
    apply denotes_str in H1. apply denotes_class in H2.
    destruct H2 as (c & _ & H2). apply denotes_star_class in H3.
    destruct H3 as (w & _ & H3).
    unfold passes in *. cbn [rest start_at] in H1.
    exists (lit "the" ++ [c] ++ w). rewrite H1, H2, H3.
    now rewrite <- !app_assoc.
  - now exists [].
Qed.

(** The removal of punctuation is a filter. *)
Lemma scan_punctuation s : forall sn,
  scan punctuation (fun _ => []) (fun c => [c]) 0 sn s
  = filter (fun c => is_word c || is_space c) s.
Proof.
  induction s as [|c t IH]; intro sn; [reflexivity|].
  cbn [scan filter]. unfold match_at, start_at, punctuation at 1.
  rewrite run_chr_cons.
  destruct (is_word c || is_space c) eqn:Hc; cbn [negb hd_error].
  - cbn [app]. now rewrite IH.
  - assert (Hw : consumed (MState sn (c :: t) None) (MState (c :: sn) t None) = [c]).
    { apply consumed_passes. reflexivity. }
    rewrite Hw. cbn [app length Nat.sub]. apply IH.
Qed.

Lemma replace_punctuation s :
  replace_all punctuation [] s = filter (fun c => is_word c || is_space c) s.
Proof. apply scan_punctuation. Qed.

Lemma collapse_aux_chars s : forall b c,
  In c (collapse_aux b s) -> c = 32%N \/ (In c s /\ is_space c = false).
Proof.
  induction s as [|x s IH]; intros b c; simpl; [tauto|].
  destruct (is_space x) eqn:Hx.
  - destruct b.
    + intro H. destruct (IH _ _ H) as [-> | [Hin Hs]]; [now left | right; tauto].
    + intros [<- | H]; [now left|].
      destruct (IH _ _ H) as [-> | [Hin Hs]]; [now left | right; tauto].
  - intros [<- | H]; [right; tauto|].
    destruct (IH _ _ H) as [-> | [Hin Hs]]; [now left | right; tauto].
Qed.

(** X20.  A normalized journal name holds only digits, lower-case ASCII letters,
    underscores and spaces (no letter outside ASCII, no punctuation, no
    upper-case ASCII letter); its spaces are single and none is at either
    end; and the normalization does not look at the case of ASCII letters. *)
Theorem normalizeJournalName_shape :
  forall name,
    Forall (fun c => c = 32%N \/ (is_word c = true /\ is_upper c = false))
           (normalizeJournalName name)
    /\ clean (normalizeJournalName name)
    /\ trim (normalizeJournalName name) = normalizeJournalName name
    /\ normalizeJournalName (toLowerCase name) = normalizeJournalName name.
Proof.
  intro name. unfold normalizeJournalName.
  rewrite AcademicProofs.toLowerCase_idempotent.
  rewrite replace_spaces, replace_punctuation.
  repeat split.
  - apply Forall_forall. intros c Hc.
    apply HeuristicProofs.trim_within in Hc.
    apply collapse_aux_chars in Hc. destruct Hc as [-> | [Hin Hs]]; [now left|].
    right. apply filter_In in Hin. destruct Hin as [Hin Hp].
    rewrite Hs, orb_false_r in Hp. split; [exact Hp|].
    destruct (leading_the_suffix (toLowerCase name)) as (w & Hw).
    assert (Hin' : In c (toLowerCase name)).
    { rewrite Hw. apply in_or_app. now right. }
    unfold toLowerCase in Hin'. apply in_map_iff in Hin'.
    destruct Hin' as (x & <- & _). apply lower_not_upper.
  - apply clean_trim. apply collapse_aux_clean.
  - apply trim_idempotent.
Qed.

End NormalizeProofs.

(* ================================================================== *)
(** * More on extractPDFMetadata *)
(* ================================================================== *)

Module PipelineMoreProofs.

Import AcademicSearch Heuristics JournalRanking PdfMetadata Spec Notions Samples Inputs.

(** ** The pages that are read *)

Lemma read_pages_ext (pdf pdf' : PdfDocument) count : forall i acc,
  (forall j, i <= j < i + count -> getPage pdf j = getPage pdf' j) ->
  read_pages pdf i count acc = read_pages pdf' i count acc.
Proof.
  induction count as [|count IH]; intros i acc H; [reflexivity|].
  simpl. rewrite <- (H i) by lia.
  destruct (getPage pdf i) as [items|e]; [|reflexivity].
  apply IH. intros j Hj. apply H. lia.
Qed.

Lemma read_pages_text (pdf : PdfDocument) (page : nat -> list js_string) count :
  forall i acc,
    (forall j, i <= j < i + count -> getPage pdf j = Normal (page j)) ->
    read_pages pdf i count acc
    = Normal (acc ++ flat_map (fun j => join (lit " ") (page j) ++ [10%N])
                              (seq i count)).
Proof.
  induction count as [|count IH]; intros i acc H; simpl.
  - now rewrite app_nil_r.
  - rewrite (H i) by lia. rewrite IH by (intros j Hj; apply H; lia).
    now rewrite <- !app_assoc.
Qed.

(** The outcome depends on the file through what is read of it only. *)
Lemma same_document (env : Env) file file' log :
  read_document file = read_document file' ->
  extractPDFMetadata env file log = extractPDFMetadata env file' log.
Proof.
  intro H. unfold extractPDFMetadata.
  destruct (read_document file') as [[info fullText]|e] eqn:H'.
  - unfold extractPDFMetadata_with, try_catch.
    rewrite (PipelineProofs.extract_body_read _ _ env file log H).
    now rewrite (PipelineProofs.extract_body_read _ _ env file' log H').
  - rewrite (PipelineProofs.extractPDFMetadata_with_unreadable _ _ env file log H).
    now rewrite (PipelineProofs.extractPDFMetadata_with_unreadable _ _ env file' log H').
Qed.

(** X21.  Only the first three pages of a document are read.  Two documents with
    the same embedded metadata and the same first three pages give the same
    outcome, whatever their other pages hold or whether these can be read;
    and when the pages read are readable, the text handed to the heuristics
    is, page after page, the items of the page joined by single spaces and
    followed by a line break. *)
Theorem only_three_pages_are_read :
  forall (env : Env) (pdf pdf' : PdfDocument) name name' log,
    Nat.min 3 (numPages pdf) = Nat.min 3 (numPages pdf') ->
    getMetadata pdf = getMetadata pdf' ->
    (forall i, 1 <= i <= 3 -> getPage pdf i = getPage pdf' i) ->
    extractPDFMetadata env {| name := name; load := Normal pdf |} log
    = extractPDFMetadata env {| name := name'; load := Normal pdf' |} log
    /\ forall page info,
         getMetadata pdf = Normal info ->
         (forall i, 1 <= i <= 3 -> getPage pdf i = Normal (page i)) ->
         read_document {| name := name; load := Normal pdf |}
         = Normal (info,
                   flat_map (fun i => join (lit " ") (page i) ++ [10%N])
                            (seq 1 (Nat.min 3 (numPages pdf)))).
Proof.
  intros env pdf pdf' name name' log Hn Hm Hp. split.
  - apply same_document. unfold read_document. cbn [load].
    rewrite <- Hm, <- Hn.
    rewrite (@read_pages_ext pdf pdf' (Nat.min 3 (numPages pdf)) 1 []);
      [reflexivity|].
    intros j Hj. apply Hp. lia.
  - intros page info Hi Hpage. unfold read_document. cbn [load]. rewrite Hi.
    rewrite (@read_pages_text pdf page (Nat.min 3 (numPages pdf)) 1 []);
      [reflexivity|].
    intros j Hj. apply Hpage. lia.
Qed.

Lemma only_three_pages_are_read_witness :
  extractPDFMetadata (offline 2024)
    {| name := lit "a.pdf";
       load := Normal {| numPages := 9; getMetadata := Normal no_info;
                         getPage := fun i => if i <=? 3 then Normal [lit "Page"]
                                             else Throw (lit "damaged") |} |} []
  = extractPDFMetadata (offline 2024)
      {| name := lit "b.pdf";
         load := Normal {| numPages := 3; getMetadata := Normal no_info;
                           getPage := fun _ => Normal [lit "Page"] |} |} [].
Proof.
  apply (proj1 (@only_three_pages_are_read (offline 2024)
    {| numPages := 9; getMetadata := Normal no_info;
       getPage := fun i => if i <=? 3 then Normal [lit "Page"]
                           else Throw (lit "damaged") |}
    {| numPages := 3; getMetadata := Normal no_info;
       getPage := fun _ => Normal [lit "Page"] |}
    (lit "a.pdf") (lit "b.pdf") [] eq_refl eq_refl
    (fun i Hi => match i as n return (1 <= n <= 3 ->
                   (if n <=? 3 then Normal [lit "Page"] else Throw (lit "damaged"))
                   = Normal [lit "Page"])
                 with
                 | 0 | 1 | 2 | 3 => fun _ => eq_refl
                 | S (S (S (S _))) => fun H => ltac:(exfalso; lia)
                 end Hi))).
Defined.

(** ** Without a hit *)

Lemma refine_short search rankingTag g log :
  length (g_title g) <= 10 ->
  refine search rankingTag g log = (Normal (of_guess g), log).
Proof.
  intro H. unfold refine.
  assert (Hl : (10 <? length (g_title g)) = false) by (apply Nat.ltb_ge; exact H).
  rewrite Hl, andb_false_r. reflexivity.
Qed.

Lemma refine_no_hit search rankingTag g log log1 :
  10 < length (g_title g) ->
  search (g_title g) log = (Normal None, log1) ->
  refine search rankingTag g log = (Normal (of_guess g), log1).
Proof.
  intros Hlen H. unfold refine.
  assert (Ht : truthy (g_title g) = true).
  { destruct (g_title g); [simpl in Hlen; lia | reflexivity]. }
  assert (Hl : (10 <? length (g_title g)) = true) by (apply Nat.ltb_lt; exact Hlen).
  rewrite Ht, Hl. cbn [andb]. unfold bind. rewrite H. reflexivity.
Qed.

Lemma refine_hit search rankingTag g log hit log1 :
  10 < length (g_title g) ->
  search (g_title g) log = (Normal (Some hit), log1) ->
  refine search rankingTag g log
  = (let journalName := opt_or (a_journal hit) (g_journal g) in
     journalRankingTag <-
       (if truthy journalName && (0 <? length (trim journalName))
        then rankingTag journalName
        else ret None) ;;
     ret (merge hit g journalName journalRankingTag)) log1.
Proof.
  intros Hlen H. unfold refine.
  assert (Ht : truthy (g_title g) = true).
  { destruct (g_title g); [simpl in Hlen; lia | reflexivity]. }
  assert (Hl : (10 <? length (g_title g)) = true) by (apply Nat.ltb_lt; exact Hlen).
  rewrite Ht, Hl. cbn [andb]. unfold bind at 1. rewrite H. reflexivity.
Qed.

(** X22.  When the title of the heuristics has 10 code units or fewer, nothing is
    asked of the network; when it is longer and the academic search finds
    nothing, only the search is made.  In both cases the record returned is
    the one of the heuristics, with no type, source or ranking. *)
Theorem record_without_a_hit :
  forall (env : Env) (file : File) log info fullText,
    read_document file = Normal (info, fullText) ->
    (length (g_title (guess (now env) info fullText)) <= 10 ->
     extractPDFMetadata env file log
     = (Normal (of_guess (guess (now env) info fullText)), log))
    /\ (forall log1,
           10 < length (g_title (guess (now env) info fullText)) ->
           searchAcademicDatabases env (g_title (guess (now env) info fullText)) log
           = (Normal None, log1) ->
           extractPDFMetadata env file log
           = (Normal (of_guess (guess (now env) info fullText)), log1)).
Proof.
  intros env file log info fullText Hread.
  unfold extractPDFMetadata, extractPDFMetadata_with, try_catch.
  rewrite (PipelineProofs.extract_body_read _ _ env file log Hread). split.
  - intro Hlen. now rewrite refine_short.
  - intros log1 Hlen Hs. now rewrite (@refine_no_hit _ _ _ _ _ Hlen Hs).
Qed.

Lemma record_without_a_hit_witness :
  extractPDFMetadata (sample_env 500) (titled (lit "Short one")) []
  = (Normal {| title := lit "Short one"; authors := []; year := 2020;
               abstract := []; doi := []; journal := [];
               enrichment := None |}, []).
Proof.
  refine (proj1 (@record_without_a_hit (sample_env 500) (titled (lit "Short one")) []
                   _ _ eq_refl) _).
  vm_compute. lia.
Defined.

(** ** The requests of a run *)

Lemma tag_run (env : Env) journalName log :
  exists tag k,
    getJournalRankingTag env journalName log = (Normal tag, log ++ k)
    /\ (k = [] \/ k = [OpenAlexSource journalName]).
Proof.
  destruct (RankingMoreProofs.getJournalRanking_run env journalName log)
    as (r & k & Hrun & Hk & _).
  exists (option_map (fun q => q ++ lit " Journal") r), k.
  split; [|exact Hk]. now apply RankingMoreProofs.tag_of.
Qed.

Lemma extract_requests (env : Env) (file : File) log :
  exists r s k,
    extractPDFMetadata env file log = (Normal r, log ++ s ++ k)
    /\ (exists t, prefix_of s [CrossRefByTitle t; OpenAlexByTitle t;
                               SemanticScholarByTitle t])
    /\ (k = [] \/ exists j, k = [OpenAlexSource j])
    /\ (enrichment r = None -> k = []).
Proof.
  unfold extractPDFMetadata.
  destruct (read_document file) as [[info fullText]|e] eqn:Hread.
  2:{ exists (default_record env), [], [].
      rewrite (PipelineProofs.extractPDFMetadata_with_unreadable _ _ env file log Hread).
      rewrite app_nil_r. repeat split; auto.
      exists []. now eexists. }
  unfold extractPDFMetadata_with, try_catch.
  rewrite (PipelineProofs.extract_body_read _ _ env file log Hread).
  set (g := guess (now env) info fullText).
  destruct (Nat.le_gt_cases (length (g_title g)) 10) as [Hle | Hgt].
  { exists (of_guess g), [], []. rewrite refine_short by exact Hle.
    rewrite app_nil_r. repeat split; auto.
    exists []. now eexists. }
  destruct (AcademicProofs.search_requests env (g_title g) log)
    as (result & s & Hs & Hpre).
  destruct result as [hit|].
  2:{ exists (of_guess g), s, []. rewrite (@refine_no_hit _ _ _ _ _ Hgt Hs).
      rewrite app_nil_r. repeat split; auto.
      now exists (g_title g). }
  rewrite (@refine_hit _ _ _ _ _ _ Hgt Hs). cbv zeta.
  set (journalName := opt_or (a_journal hit) (g_journal g)).
  destruct (truthy journalName && (0 <? length (trim journalName))).
  - destruct (tag_run env journalName (log ++ s)) as (tag & k & Htag & Hk).
    exists (merge hit g journalName tag), s, k.
    unfold bind. rewrite Htag. unfold ret. rewrite <- app_assoc.
    repeat split.
    + now exists (g_title g).
    + destruct Hk as [-> | ->]; [now left | right; now eexists].
    + simpl. discriminate.
  - exists (merge hit g journalName None), s, [].
    unfold bind, ret. rewrite app_nil_r.
    repeat split; auto. now exists (g_title g).
Qed.

(** X23.  A run of [extractPDFMetadata] never throws and asks at most four
    requests: a beginning of CrossRef, OpenAlex, Semantic Scholar for the
    title of the heuristics, then at most one source lookup for the journal.
    The source lookup is made only when the search found a record, that is
    when the record returned has a type and a source. *)
Theorem at_most_four_requests :
  forall (env : Env) (file : File) log,
    exists r s k,
      extractPDFMetadata env file log = (Normal r, log ++ s ++ k)
      /\ (exists t, prefix_of s [CrossRefByTitle t; OpenAlexByTitle t;
                                 SemanticScholarByTitle t])
      /\ (k = [] \/ exists j, k = [OpenAlexSource j])
      /\ (enrichment r = None -> k = [])
      /\ length (s ++ k) <= 4.
Proof.
  intros env file log.
  destruct (extract_requests env file log) as (r & s & k & Hrun & Hs & Hk & He).
  exists r, s, k. repeat split; auto.
  destruct Hs as (t & b & Hb). rewrite length_app.
  assert (Hlen : length s <= 3).
  { apply (f_equal (@length Request)) in Hb. rewrite length_app in Hb.
    simpl in Hb. lia. }
  destruct Hk as [-> | (j & ->)]; simpl; lia.
Qed.

End PipelineMoreProofs.

(* ================================================================== *)
(** * The handlers of the library *)
(* ================================================================== *)

Module AppProofs.

Import AcademicSearch PdfMetadata App Spec Notions Samples Inputs.

Lemma str_eqb_refl a : str_eqb a a = true.
Proof. induction a as [|x a IH]; simpl; [reflexivity|]. now rewrite N.eqb_refl. Qed.

Lemma differs_iff a b : differs a b = true <-> a <> b.
Proof.
  unfold differs. destruct (str_eqb a b) eqn:E; simpl.
  - apply RankingMoreProofs.str_eqb_eq in E. split; [discriminate | congruence].
  - split; [|reflexivity]. intros _ ->. now rewrite str_eqb_refl in E.
Qed.

Lemma filter_twice (A : Type) (f : A -> bool) l : filter f (filter f l) = filter f l.
Proof.
  induction l as [|x l IH]; simpl; [reflexivity|].
  destruct (f x) eqn:E; simpl; [now rewrite E, IH | exact IH].
Qed.

(** ** Deleting *)

(** X24.  After [deleteCollection], the collection is gone from the list of
    collections and from every reference: the other collections are kept,
    every reference has a list of collections, without the deleted one and
    with the others it had, in the same order of references; the collection
    is no longer the selected one; and deleting it again changes nothing. *)
Theorem deleteCollection_leaves_no_trace :
  forall id s,
    (forall c, In c (collections (deleteCollection id s))
               <-> In c (collections s) /\ c_id c <> id)
    /\ Forall (fun r => exists l, r_collectionIds r = Some l /\ ~ In id l)
              (references (deleteCollection id s))
    /\ Forall2 (fun r r' =>
                  r_id r' = r_id r
                  /\ forall cId, cId <> id ->
                       ((exists l, r_collectionIds r = Some l /\ In cId l)
                        <-> (exists l', r_collectionIds r' = Some l' /\ In cId l')))
               (references s) (references (deleteCollection id s))
    /\ selectedCollection (deleteCollection id s) <> Some id
    /\ deleteCollection id (deleteCollection id s) = deleteCollection id s.
Proof.
  intros id s. repeat split.
  - simpl in H. apply filter_In in H. tauto.
  - simpl in H. apply filter_In in H. destruct H as [_ H].
    now apply differs_iff in H.
  - intros [Hin Hne]. simpl. apply filter_In. split; [exact Hin|].
    now apply differs_iff.
  - simpl. apply Forall_forall. intros r Hr. apply in_map_iff in Hr.
    destruct Hr as (r0 & <- & _). simpl. eexists. split; [reflexivity|].
    destruct (r_collectionIds r0) as [l|]; [|tauto].
    intro Hin. apply filter_In in Hin. destruct Hin as [_ Hin].
    apply differs_iff in Hin. congruence.
  - simpl. induction (references s) as [|r l IH]; simpl; constructor; [|exact IH].
    split; [reflexivity|]. intros cId Hne. simpl. split.
    + intros (l0 & -> & Hin). eexists. split; [reflexivity|].
      apply filter_In. split; [exact Hin | now apply differs_iff].
    + intros (l' & [= <-] & Hin).
      destruct (r_collectionIds r) as [l0|]; [|contradiction].
      apply filter_In in Hin. exists l0. tauto.
  - simpl. destruct (selectedCollection s) as [sel|]; [|discriminate].
    destruct (str_eqb sel id) eqn:E; [discriminate|].
    intros [= ->]. now rewrite str_eqb_refl in E.
  - unfold deleteCollection. simpl. f_equal.
    + rewrite map_map. apply map_ext. intro r. unfold without_collection. simpl.
      f_equal. f_equal. destruct (r_collectionIds r); [apply filter_twice | reflexivity].
    + apply filter_twice.
    + destruct (selectedCollection s) as [sel|]; [|reflexivity].
      destruct (str_eqb sel id) eqn:E; [reflexivity | now rewrite E].
Qed.

(** X25.  After [deleteReference], the references with that identifier are gone
    and the others are kept in their order; the reference is no longer the
    selected one; the collections are untouched; and deleting again changes
    nothing. *)
Theorem deleteReference_leaves_no_trace :
  forall id s,
    references (deleteReference id s)
    = filter (fun r => negb (str_eqb (r_id r) id)) (references s)
    /\ (forall r, In r (references (deleteReference id s))
                  <-> In r (references s) /\ r_id r <> id)
    /\ (forall sel, selectedReference (deleteReference id s) = Some sel
                    <-> selectedReference s = Some sel /\ r_id sel <> id)
    /\ collections (deleteReference id s) = collections s
    /\ deleteReference id (deleteReference id s) = deleteReference id s.
Proof.
  intros id s. split; [reflexivity|]. split; [|split; [|split]].
  - intro r. simpl. rewrite filter_In, differs_iff. tauto.
  - intro sel. simpl. destruct (selectedReference s) as [x|].
    + destruct (str_eqb (r_id x) id) eqn:E.
      * apply RankingMoreProofs.str_eqb_eq in E. split; [discriminate|].
        intros [[= ->] H]. congruence.
      * split.
        -- intros [= ->]. split; [reflexivity|]. intros Heq.
           rewrite Heq, str_eqb_refl in E. discriminate.
        -- now intros [[= ->] _].
    + split; [discriminate | now intros [H _]].
  - reflexivity.
  - unfold deleteReference. simpl. f_equal.
    + apply filter_twice.
    + destruct (selectedReference s) as [x|]; [|reflexivity].
      destruct (str_eqb (r_id x) id) eqn:E; [reflexivity | now rewrite E].
Qed.

(** ** Dropping files *)

Lemma reference_of_fresh env file referenceId date metadata :
  fresh_reference (reference_of env file referenceId date metadata).
Proof.
  unfold fresh_reference, reference_of. simpl. repeat split.
  - destruct (enrichment metadata) as [e|]; [|discriminate].
    unfold or_str. destruct (type e); simpl; discriminate.
  - destruct (enrichment metadata) as [e|]; [|simpl; lia].
    destruct (journalRanking e) as [tag|]; [|simpl; lia].
    destruct (truthy tag); simpl; lia.
Qed.

Lemma drop_file_run env b i file prev log :
  exists created extra,
    drop_file env b i file prev log = (Normal (created ++ prev), log ++ extra)
    /\ List.map r_id created = stored_ids b i [file]
    /\ Forall fresh_reference created.
Proof.
  unfold drop_file, try_catch, bind, lift, ret. simpl stored_ids.
  destruct (savePDF b (new_id b i) file) as [u|e].
  - destruct (PipelineMoreProofs.extract_requests env file log)
      as (m & s & k & Hrun & _).
    rewrite Hrun.
    exists [reference_of env file (new_id b i) (toISOString b i) m], (s ++ k).
    repeat split. constructor; [apply reference_of_fresh | constructor].
  - exists [], []. rewrite app_nil_r. repeat split. constructor.
Qed.

Lemma stored_ids_cons b i file files :
  stored_ids b i (file :: files) = stored_ids b i [file] ++ stored_ids b (S i) files.
Proof. simpl. destruct (savePDF b (new_id b i) file); reflexivity. Qed.

Lemma drop_files_run env b files : forall i prev log,
  exists created extra,
    drop_files env b i files prev log = (Normal (created ++ prev), log ++ extra)
    /\ List.map r_id created = rev (stored_ids b i files)
    /\ Forall fresh_reference created.
Proof.
  induction files as [|file files IH]; intros i prev log.
  - exists [], []. simpl. unfold ret. rewrite app_nil_r. repeat split. constructor.
  - destruct (drop_file_run env b i file prev log) as (c1 & e1 & H1 & Hid1 & Hf1).
    destruct (IH (S i) (c1 ++ prev) (log ++ e1)) as (c2 & e2 & H2 & Hid2 & Hf2).
    exists (c2 ++ c1), (e1 ++ e2).
    cbn [drop_files]. unfold bind. rewrite H1, H2.
    rewrite <- !app_assoc. repeat split.
    + rewrite stored_ids_cons, rev_app_distr, map_app, Hid2, Hid1.
      f_equal. simpl. destruct (savePDF b (new_id b i) file); reflexivity.
    + apply Forall_app. now split.
Qed.

(** X26.  [handleFilesDrop] never throws.  It puts one reference in front of the
    library for each file whose PDF could be stored, the last file first, and
    none for the others; each carries the identifier under which the PDF was
    stored, belongs to no collection, has a type, at most one tag, and no
    volume, issue, pages, publisher or URL, whatever the databases answered.
    The collections and the selection are untouched and the modal is closed
    and emptied. *)
Theorem dropped_files_become_references :
  forall (env : Env) (b : Browser) files s log,
    exists created extra,
      handleFilesDrop env b files s log
      = (Normal {| references := created ++ references s;
                   collections := collections s;
                   selectedCollection := selectedCollection s;
                   selectedReference := selectedReference s;
                   isAddModalOpen := false;
                   droppedFiles := [];
                   currentFileIndex := 0 |},
         log ++ extra)
      /\ List.map r_id created = rev (stored_ids b 0 files)
      /\ Forall fresh_reference created.
Proof.
  intros env b files s log.
  destruct (drop_files_run env b files 0 (references s) log)
    as (created & extra & Hrun & Hid & Hf).
  exists created, extra. unfold handleFilesDrop, bind, ret. rewrite Hrun.
  repeat split; assumption.
Qed.

(** X27.  A file that can be stored and cannot be read as a PDF still becomes a
    reference, and nothing is asked of the network: its title is the name of
    the file without its first ".pdf", its year the year of the clock, its
    type "Journal Article"; it has no author, journal, DOI, abstract or
    tag. *)
Theorem unreadable_file_is_still_added :
  forall (env : Env) (b : Browser) file s log e u,
    read_document file = Throw e ->
    savePDF b (new_id b 0) file = Normal u ->
    exists r s',
      handleFilesDrop env b [file] s log = (Normal s', log)
      /\ references s' = r :: references s
      /\ r_id r = new_id b 0
      /\ r_title r = replace_first_str (lit ".pdf") [] (name file)
      /\ r_year r = now env
      /\ r_type r = lit "Journal Article"
      /\ r_authors r = [] /\ r_journal r = [] /\ r_doi r = []
      /\ r_abstract r = [] /\ r_tags r = [].
Proof.
  intros env b file s log e u Hread Hsave.
  eexists. eexists.
  unfold handleFilesDrop, drop_files, drop_file, try_catch, bind, lift, ret.
  rewrite Hsave. unfold extractPDFMetadata.
  rewrite (PipelineProofs.extractPDFMetadata_with_unreadable _ _ env file log Hread).
  split; [reflexivity|]. unfold reference_of, default_record. simpl. repeat split.
  destruct (now env); reflexivity.
Qed.

Lemma unreadable_file_is_still_added_witness :
  exists r s',
    handleFilesDrop (offline 2024) counting_browser [corrupt] empty_library []
    = (Normal s', [])
    /\ references s' = [r]
    /\ r_title r = lit "broken"
    /\ r_year r = 2024%Z.
Proof.
  destruct (@unreadable_file_is_still_added (offline 2024) counting_browser corrupt
              empty_library [] (lit "Invalid PDF structure") tt eq_refl eq_refl)
    as (r & s' & Hrun & Hrefs & _ & Htitle & Hyear & _).
  exists r, s'. repeat split; assumption.
Defined.

End AppProofs.

(* ================================================================== *)
(** * What extractAbstract takes from the text *)
(* ================================================================== *)

Module AbstractTextProofs.

Import Heuristics Spec Notions Samples Inputs ReFacts AbstractProofs.

(** ** Plain regexes do not depend on what was passed *)

Lemma flat_map_moved (f : mstate -> list mstate) (g : mstate -> mstate) l :
  (forall s, f (g s) = List.map g (f s)) ->
  flat_map f (List.map g l) = List.map g (flat_map f l).
Proof.
  intro H. induction l as [|x l IH]; simpl; [reflexivity|].
  now rewrite map_app, H, IH.
Qed.

Lemma star_loop_moved (step : mstate -> list mstate) sn k greedy :
  (forall s, step (moved sn k s) = List.map (moved sn k) (step s)) ->
  forall n st,
    star_loop step greedy n (moved sn k st)
    = List.map (moved sn k) (star_loop step greedy n st).
Proof.
  intros Hstep. induction n as [|n IH]; intro st; [reflexivity|].
  rewrite !star_loop_S. cbv zeta. rewrite Hstep.
  change (rest (moved sn k st)) with (rest st).
  assert (Hmore : forall l,
    flat_map (fun st' => if length (rest st') <? length (rest st)
                         then star_loop step greedy n st' else [])
             (List.map (moved sn k) l)
    = List.map (moved sn k)
        (flat_map (fun st' => if length (rest st') <? length (rest st)
                              then star_loop step greedy n st' else [])
                  l)).
  { induction l as [|x l IHl]; [reflexivity|].
    cbn [List.map flat_map]. rewrite map_app, IHl. f_equal.
    change (rest (moved sn k x)) with (rest x).
    destruct (length (rest x) <? length (rest st)); [apply IH | reflexivity]. }
  rewrite Hmore. destruct greedy; [now rewrite map_app | reflexivity].
Qed.

Lemma run_moved r : plain_regex r = true ->
  forall sn k st, run r (moved sn k st) = List.map (moved sn k) (run r st).
Proof.
  induction r as [|p|a IHa b IHb|a IHa b IHb|g a IHa|a IHa| | | |a IHa];
    intro Hp; try discriminate Hp; intros sn k st.
  - reflexivity.
  - simpl. destruct (rest st) as [|c t]; [reflexivity|].
    destruct (p c); reflexivity.
  - simpl in Hp. apply andb_true_iff in Hp. destruct Hp as [Ha Hb].
    cbn [run]. rewrite (IHa Ha).
    apply flat_map_moved. intro s. now apply IHb.
  - simpl in Hp. apply andb_true_iff in Hp. destruct Hp as [Ha Hb].
    cbn [run]. now rewrite map_app, (IHa Ha), (IHb Hb).
  - simpl in Hp. cbn [run].
    change (rest (moved sn k st)) with (rest st).
    apply star_loop_moved. intro s. now apply IHa.
  - simpl. destruct (rest st); reflexivity.
Qed.

(** A lookahead for a plain regex, by [ahead]. *)
Lemma look_plain r sn rs k :
  plain_regex r = true ->
  run (Look r) (MState sn rs k)
  = if ahead r rs then [MState sn rs k] else [].
Proof.
  intro Hp. cbn [run].
  change (MState sn rs k) with (moved sn k (start_at [] rs)) at 1.
  rewrite (run_moved r Hp). unfold ahead, match_at.
  destruct (run r (start_at [] rs)); reflexivity.
Qed.

(** ** The lazy [(.+?)] before a lookahead *)

Lemma star_any_lazy n : forall rs sn k,
  length rs <= n ->
  star_loop (run any) false n (MState sn rs k) = prefix_states sn rs k.
Proof.
  unfold any.
  induction n as [|n IH]; intros rs sn k Hlen.
  - destruct rs; [reflexivity | simpl in Hlen; lia].
  - rewrite star_loop_S. destruct rs as [|c t]; [reflexivity|].
    rewrite run_chr_cons. cbv zeta. cbn [flat_map rest prefix_states].
    rewrite app_nil_r.
    assert (Hlt : (length t <? length (c :: t)) = true)
      by (apply Nat.ltb_lt; simpl; lia).
    rewrite Hlt, IH by (simpl in Hlen; lia). reflexivity.
Qed.

Lemma lazy_plus_states sn c rs k :
  run (lazy_plus any) (MState sn (c :: rs) k) = prefix_states (c :: sn) rs k.
Proof.
  unfold lazy_plus. cbn [run]. unfold any at 2. 
  change (run (Chr (fun _ : N => true)) (MState sn (c :: rs) k))
    with [MState (c :: sn) rs k].
  cbn [flat_map rest]. rewrite app_nil_r. now apply star_any_lazy.
Qed.

(** Among the states of the lazy repetition, the first one where the
    lookahead succeeds is the one before [tail]. *)
Lemma first_stop st0 tail k : forall b w sn,
  rest st0 = w ++ b ++ tail ->
  ahead abstract_stop tail = true ->
  stop_free b tail = true ->
  hd_error
    (flat_map (run (Look abstract_stop))
       (List.map (fun st' => MState (seen st') (rest st') (Some (consumed st0 st')))
                 (prefix_states sn (b ++ tail) k)))
  = Some (MState (rev b ++ sn) tail (Some (w ++ b))).
Proof.
  induction b as [|x b IH]; intros w sn Hrest Hstop Hfree.
  - simpl app. destruct tail as [|t0 tail']; cbn [prefix_states List.map flat_map];
      cbn [seen rest]; rewrite look_plain by reflexivity; rewrite Hstop;
      cbn [app hd_error]; rewrite app_nil_r;
      (rewrite (@consumed_passes w); [reflexivity | exact Hrest]).
  - simpl app. cbn [prefix_states List.map flat_map]. cbn [seen rest].
    rewrite look_plain by reflexivity.
    cbn [stop_free] in Hfree. apply andb_true_iff in Hfree.
    destruct Hfree as [Hx Hfree]. apply negb_true_iff in Hx.
    simpl app in Hx. rewrite Hx. cbn [app].
    rewrite (IH (w ++ [x]) (x :: sn)); [|now rewrite <- app_assoc | exact Hstop | exact Hfree].
    simpl. now rewrite <- !app_assoc.
Qed.

Lemma group_until_stop sn c b tail k :
  ahead abstract_stop tail = true ->
  stop_free b tail = true ->
  hd_error (run (Seq (Group (lazy_plus any)) (Look abstract_stop))
                (MState sn (c :: b ++ tail) k))
  = Some (MState (rev b ++ c :: sn) tail (Some (c :: b))).
Proof.
  intros Hstop Hfree.
  change (run (Seq (Group (lazy_plus any)) (Look abstract_stop))
              (MState sn (c :: b ++ tail) k))
    with (flat_map (run (Look abstract_stop))
            (List.map (fun st' => MState (seen st') (rest st')
                                         (Some (consumed (MState sn (c :: b ++ tail) k) st')))
                      (run (lazy_plus any) (MState sn (c :: b ++ tail) k)))).
  rewrite lazy_plus_states.
  apply (@first_stop (MState sn (c :: b ++ tail) k) tail k b [c] (c :: sn));
    [reflexivity | exact Hstop | exact Hfree].
Qed.

(** ** The heading *)

Lemma heading_not_here sn x rs :
  lower x <> 97%N -> match_at abstract_pattern sn (x :: rs) = None.
Proof.
  intro Hx. unfold match_at, start_at.
  change abstract_pattern
    with (Seq (Seq (chr_i 97) (str_i (lit "bstract")))
              (seqs [star colon_or_space; Group (lazy_plus any);
                     Look abstract_stop])).
  rewrite none_seq; [reflexivity|]. rewrite none_seq; [reflexivity|].
  apply none_chr. simpl. apply N.eqb_neq. exact Hx.
Qed.

Lemma abstract_match_at sn head seps c b tail :
  toLowerCase head = lit "abstract" ->
  all_in (fun x => N.eqb x 58 || is_space x) seps ->
  N.eqb c 58 || is_space c = false ->
  ahead abstract_stop tail = true ->
  stop_free b tail = true ->
  exists sn',
    match_at abstract_pattern sn (head ++ seps ++ c :: b ++ tail)
    = Some (MState sn' tail (Some (c :: b))).
Proof.
  intros Hhead Hseps Hc Hstop Hfree. unfold match_at, start_at.
  change abstract_pattern
    with (Seq (str_i (lit "abstract"))
              (Seq (Star true colon_or_space)
                   (Seq (Group (lazy_plus any)) (Look abstract_stop)))).
  destruct (@lands_str_ci (lit "abstract") head (seps ++ c :: b ++ tail) None Hhead sn)
    as (sn1 & H1).
  destruct (@lands_star (fun x => N.eqb x 58 || is_space x) seps (c :: b ++ tail) None
              Hseps Hc sn1) as (sn2 & H2).
  eexists.
  apply (first_seq _ _ _ H1). apply (first_seq _ _ _ H2).
  now apply group_until_stop.
Qed.

(** X28.  When the text has no letter "a" before the heading "abstract" (in any
    case), the heading is followed by colons and white space and then by a
    body that starts with another code unit, and the first place at or after
    the second code unit of the body where a blank line, "introduction",
    "keywords", "1." or "references" begins is the end of the body, then
    [extractAbstract] returns the body with its white space in single spaces,
    trimmed and cut at 1000 code units. *)
Theorem extractAbstract_takes_the_body :
  forall pre head seps c b tail,
    (forall x, In x pre -> lower x <> 97%N) ->
    toLowerCase head = lit "abstract" ->
    all_in (fun x => N.eqb x 58 || is_space x) seps ->
    N.eqb c 58 || is_space c = false ->
    ahead abstract_stop tail = true ->
    stop_free b tail = true ->
    extractAbstract (pre ++ head ++ seps ++ c :: b ++ tail)
    = slice0 1000 (trim (collapse (c :: b))).
Proof.
  intros pre head seps c b tail Hpre Hhead Hseps Hc Hstop Hfree.
  unfold extractAbstract. cbn [first_group].
  assert (Hm : exists before whole after,
             js_match abstract_pattern (pre ++ head ++ seps ++ c :: b ++ tail)
             = Some (MatchResult before whole (Some (c :: b)) after)).
  { unfold js_match.
    rewrite (@search_skip abstract_pattern pre [] (head ++ seps ++ c :: b ++ tail)).
    - destruct (@abstract_match_at (rev pre ++ []) head seps c b tail
                  Hhead Hseps Hc Hstop Hfree) as (sn' & Hat).
      rewrite (search_found _ _ _ Hat). cbn [cap]. eauto.
    - intros a1 a2 -> Hne. destruct a2 as [|x a2]; [congruence|].
      simpl app. apply heading_not_here. apply Hpre.
      apply in_or_app. right. now left. }
  destruct Hm as (before & whole & after & ->).
  cbn [truthy]. now rewrite replace_spaces.
Qed.

(** The abstract of a text that reports "91.5%" ends before the "1." of that
    number. *)
Lemma extractAbstract_takes_the_body_witness :
  extractAbstract (lit "Title: Abstract: We  reach 91.5% here. Introduction")
  = lit "We reach 9".
Proof.
  apply (@extractAbstract_takes_the_body
           (lit "Title: ") (lit "Abstract") (lit ": ") 87%N (lit "e  reach 9")
           (lit "1.5% here. Introduction")).
  - intros x Hin. simpl in Hin.
    repeat (destruct Hin as [<- | Hin]; [vm_compute; discriminate|]). contradiction.
  - reflexivity.
  - repeat constructor.
  - reflexivity.
  - vm_compute. reflexivity.
  - vm_compute. reflexivity.
Defined.

End AbstractTextProofs.
